(** * OpenAPI scorer: the scoring engine of [src/scoring/scoring-engine.ts]

    A shallow embedding of the [ScoringEngine] class, of the document types
    of [src/types/index.ts] and of the structural validator of the loader,
    followed by the properties of the specification proved or refuted
    against it.

    Conventions of the embedding.
    - A JavaScript [number] is a rational ([Q]); the penalties, which are
      small integers, are summed in [Z] and injected. The engine computes in
      doubles: the properties that depend on its arithmetic are stated for
      the weights with which no operation rounds ([belowTwo53],
      [wholeWeights]).
    - An object used as a dictionary ([paths], [responses], [content],
      [components.schemas]) is an association list in the order
      [Object.keys] / [Object.entries] enumerates it.
    - An optional property is an [option]; a property of type [any] whose
      only use is a truthiness test is a value of [Any]. An element of
      [parameters], an [Array<any>], is an object or nullish; a method key of
      a path item holds an operation or a nullish value. Path items,
      reusable schemas and security schemes are objects.
    - A [void] helper that receives the [issues] array and pushes onto it is
      a function from the array before the call to the array after it.
    - Reading a property of [undefined] or [null] throws a [TypeError]:
      functions that may do so return a [Result]. *)

From Stdlib Require Import List String Ascii Bool Arith ZArith QArith Qround Qminmax Lia Lqa.
From Stdlib Require Import Numbers.DecimalString.
Import ListNotations.

Local Open Scope string_scope.
Local Open Scope list_scope.

Notation "s1 ^^ s2" := (String.append s1 s2) (at level 60, right associativity).

(** ** JavaScript values and strings *)

(** A value of type [any] as far as the engine looks at it: only its
    truthiness, and for [schema.type] its comparison with a string. *)
Inductive Any : Type :=
| AUndefined
| ANull
| ABool (b : bool)
| ANum (z : Z)
| AStr (s : string)
| AObject.

Definition str_empty (s : string) : bool :=
  match s with EmptyString => true | String _ _ => false end.

Definition truthy (v : Any) : bool :=
  match v with
  | AUndefined | ANull => false
  | ABool b => b
  | ANum z => negb (Z.eqb z 0)
  | AStr s => negb (str_empty s)
  | AObject => true
  end.

(** Truthiness of an optional string property: absent and [''] are falsy. *)
Definition truthyStr (o : option string) : bool :=
  match o with Some s => negb (str_empty s) | None => false end.

(** Truthiness of an optional object or array property. *)
Definition present {A : Type} (o : option A) : bool :=
  match o with Some _ => true | None => false end.

(** [arr && arr.length > 0] and [!arr || arr.length === 0]. *)
Definition nonEmptyArr {A : Type} (o : option (list A)) : bool :=
  match o with Some (_ :: _) => true | _ => false end.

(** The double quote character, for the template literals that quote a name. *)
Definition dq : string := String "034"%char EmptyString.

(** [s.startsWith(c)] for a one-character [c]. *)
Definition startsWithChar (c : ascii) (s : string) : bool :=
  match s with String c' _ => Ascii.eqb c' c | EmptyString => false end.

(** [s.includes(c)] for a one-character [c]. *)
Fixpoint includesChar (c : ascii) (s : string) : bool :=
  match s with
  | EmptyString => false
  | String c' s' => Ascii.eqb c' c || includesChar c s'
  end.

(** [s.endsWith(c)] for a one-character [c]. *)
Fixpoint endsWithChar (c : ascii) (s : string) : bool :=
  match s with
  | EmptyString => false
  | String c' EmptyString => Ascii.eqb c' c
  | String _ s' => endsWithChar c s'
  end.

(** [s.split(c)]: the pieces between the occurrences of [c]; [''.split(c)]
    is [['']]. *)
Fixpoint split (c : ascii) (s : string) : list string :=
  match s with
  | EmptyString => [EmptyString]
  | String c' s' =>
      if Ascii.eqb c' c then EmptyString :: split c s'
      else match split c s' with
           | piece :: rest => String c' piece :: rest
           | [] => [String c' EmptyString]
           end
  end.

(** [arr.includes(x)] on an array of strings. *)
Definition includes (arr : list string) (x : string) : bool :=
  existsb (String.eqb x) arr.

(** The decimal rendering of a count inside a template literal. *)
Definition showNat (n : nat) : string := NilEmpty.string_of_uint (Nat.to_uint n).

(** ** The document ([src/types/index.ts]) *)

Record MediaTypeObject : Type := {
  mt_schema : Any;
  mt_example : Any;
  mt_examples : Any
}.

(** A request body or a response (both [any] in the declarations): the
    properties the engine reads. An entry of [content] may be [null]. *)
Record Body : Type := {
  b_schema : Any;
  b_example : Any;
  b_examples : Any;
  b_content : option (list (string * option MediaTypeObject))
}.

(** A parameter that is an object: the two properties the engine reads. *)
Record Param : Type := {
  param_name : option string;
  param_description : option string
}.

Definition SecurityRequirement : Type := list (string * list string).

(** [parameters] is an [Array<any>]: an element is an object or, as [None],
    [null] or [undefined]. *)
Record Operation : Type := {
  op_tags : option (list string);
  op_summary : option string;
  op_description : option string;
  op_parameters : option (list (option Param));
  op_requestBody : option Body;
  op_responses : option (list (string * option Body));
  op_security : option (list SecurityRequirement)
}.

Inductive Method : Type :=
| GET | PUT | POST | DELETE | OPTIONS | HEAD | PATCH | TRACE.

Definition methodName (m : Method) : string :=
  match m with
  | GET => "get" | PUT => "put" | POST => "post" | DELETE => "delete"
  | OPTIONS => "options" | HEAD => "head" | PATCH => "patch" | TRACE => "trace"
  end.

Definition sameMethod (a b : Method) : bool :=
  String.eqb (methodName a) (methodName b).

(** A path item: its operations, and in [pi_nullish] the method keys that
    the object has with the value [undefined] or [null] (as in
    [{ get: undefined }], which the declared type admits). Such a key is
    listed by [Object.keys] and reads as falsy. *)
Record PathItem : Type := {
  pi_get : option Operation;
  pi_put : option Operation;
  pi_post : option Operation;
  pi_delete : option Operation;
  pi_options : option Operation;
  pi_head : option Operation;
  pi_patch : option Operation;
  pi_trace : option Operation;
  pi_nullish : list Method
}.

(** [(pathItem as any)[method]], as far as it is truthy. *)
Definition getOp (pathItem : PathItem) (m : Method) : option Operation :=
  match m with
  | GET => pi_get pathItem | PUT => pi_put pathItem
  | POST => pi_post pathItem | DELETE => pi_delete pathItem
  | OPTIONS => pi_options pathItem | HEAD => pi_head pathItem
  | PATCH => pi_patch pathItem | TRACE => pi_trace pathItem
  end.

Record Schema : Type := {
  s_type : Any;
  s_ref : Any;
  s_allOf : Any;
  s_oneOf : Any;
  s_anyOf : Any;
  s_properties : Any;
  s_additionalProperties : Any
}.

Record SecurityScheme : Type := { scheme_type : option string }.

Record Components : Type := {
  schemas : option (list (string * Schema));
  securitySchemes : option (list (string * SecurityScheme))
}.

Record Info : Type := {
  title : option string;
  version : option string;
  info_description : option string
}.

Record Server : Type := { url : string }.
Record Tag : Type := { tag_name : string }.

Definition Paths : Type := list (string * PathItem).

Record OpenAPISpec : Type := {
  openapi : option string;
  info : option Info;
  servers : option (list Server);
  paths : option Paths;
  components : option Components;
  spec_security : option (list SecurityRequirement);
  tags : option (list Tag)
}.

(** ** Issues, results and reports *)

Inductive Severity : Type := low | medium | high | critical.

Record Issue : Type := {
  path : string;
  operation : option string;
  location : string;
  description : string;
  severity : Severity;
  suggestion : string;
  criterion : string
}.

Record ScoreResult : Type := {
  r_criterion : string;
  score : Q;
  maxScore : Q;
  weight : Q;
  weightedScore : Q;
  issues : list Issue
}.

Inductive Grade : Type := A | B | C | D | F.

Record Summary : Type := {
  criticalIssues : nat;
  highIssues : nat;
  mediumIssues : nat;
  lowIssues : nat
}.

Record SpecInfo : Type := {
  si_title : string;
  si_version : string;
  pathCount : nat;
  operationCount : nat
}.

Record ScoringReport : Type := {
  overallScore : Q;
  grade : Grade;
  report_maxScore : Q;
  results : list ScoreResult;
  totalIssues : nat;
  summary : Summary;
  timestamp : string;
  specInfo : SpecInfo
}.

(** ** Thrown errors *)

Inductive Result (T : Type) : Type :=
| Ok (value : T)
| Throw (error : string).
Arguments Ok {T} value.
Arguments Throw {T} error.

Definition bind {T U : Type} (r : Result T) (k : T -> Result U) : Result U :=
  match r with Ok v => k v | Throw e => Throw e end.

Notation "x <- r ;; k" := (bind r (fun x => k))
  (at level 61, r at next level, right associativity).

Definition TypeError : string := "TypeError".

(** ** Helpers that push onto an array they are handed

    [private checkX(..., issues: Issue[]): void] receives the array and
    pushes onto it; the embedding threads the array through. The loader's
    validator does the same with its [errors] array of strings. *)

Definition Pusher (T : Type) : Type := list T -> list T.
Definition Check : Type := Pusher Issue.

(** [arr.push(x)] *)
Definition push {T : Type} (x : T) : Pusher T := fun arr => arr ++ [x].

Definition skip {T : Type} : Pusher T := fun arr => arr.

(** [if (b) { c }] *)
Definition when {T : Type} (b : bool) (c : Pusher T) : Pusher T :=
  if b then c else skip.

(** [c1; c2] *)
Definition andThen {T : Type} (c1 c2 : Pusher T) : Pusher T :=
  fun arr => c2 (c1 arr).
Notation "c1 ;; c2" := (andThen c1 c2) (at level 61, right associativity).

(** [for (const x of xs) { body(x) }] *)
Definition forEach {X T : Type} (xs : list X) (body : X -> Pusher T) : Pusher T :=
  fun arr => fold_left (fun acc x => body x acc) xs arr.

(** What a helper pushes when it is handed an empty array. *)
Definition emitted {T : Type} (c : Pusher T) : list T := c [].

(** A helper that may throw instead of returning: what it has pushed by
    then is lost with the array, which is local to the evaluator. *)
Definition Fallible (T : Type) : Type := list T -> Result (list T).

Definition returning {T : Type} (c : Pusher T) : Fallible T := fun arr => Ok (c arr).

Definition throwing {T : Type} (error : string) : Fallible T := fun _ => Throw error.

Definition andThenF {T : Type} (c1 c2 : Fallible T) : Fallible T :=
  fun arr => bind (c1 arr) c2.
Notation "c1 ;;; c2" := (andThenF c1 c2) (at level 61, right associativity).

Definition forEachF {X T : Type} (xs : list X) (body : X -> Fallible T) : Fallible T :=
  fun arr => fold_left (fun acc x => bind acc (body x)) xs (Ok arr).

(** ** Configuration ([ScoringConfig]) *)

Record ScoringCriteria : Type := {
  name : string;
  sc_weight : Q;
  sc_maxScore : Q
}.

(** The [weights] object; [N] is the type of its seven properties, [Q] for
    the numbers of the declared type. *)
Record WeightsOf (N : Type) : Type := {
  schemaTypes : N;
  documentation : N;
  pathsOperations : N;
  responseCodes : N;
  examples : N;
  security : N;
  bestPractices : N
}.
Arguments schemaTypes {N} _.
Arguments documentation {N} _.
Arguments pathsOperations {N} _.
Arguments responseCodes {N} _.
Arguments examples {N} _.
Arguments security {N} _.
Arguments bestPractices {N} _.

Definition Weights : Type := WeightsOf Q.

(** An optional property [p?: T] of an object literal: the object may lack
    it, have it with the value [undefined] (which the declared type admits
    as well), or have it with a value of type [T]. *)
Inductive Own (T : Type) : Type :=
| absent
| undefinedValue
| given (v : T).
Arguments absent {T}.
Arguments undefinedValue {T}.
Arguments given {T} v.

(** [Partial<ScoringConfig>]: [criteria?] and [weights?]; a [weights] that
    is given has the seven numbers of the declared type. *)
Record PartialScoringConfig : Type := {
  p_criteria : Own (list ScoringCriteria);
  p_weights : Own Weights
}.

(** [this.config] as it is at run time: a property is [None] when the
    constructor has left it [undefined]. *)
Record ScoringConfig : Type := {
  criteria : option (list ScoringCriteria);
  weights : option Weights
}.

(** ** The engine ([class ScoringEngine]) *)

Module ScoringEngine.

Local Open Scope Q_scope.

Definition defaultCriteria : list ScoringCriteria :=
  [ {| name := "Schema & Types"; sc_weight := 20; sc_maxScore := 20 |};
    {| name := "Descriptions & Documentation"; sc_weight := 20; sc_maxScore := 20 |};
    {| name := "Paths & Operations"; sc_weight := 15; sc_maxScore := 15 |};
    {| name := "Response Codes"; sc_weight := 15; sc_maxScore := 15 |};
    {| name := "Examples & Samples"; sc_weight := 10; sc_maxScore := 10 |};
    {| name := "Security"; sc_weight := 10; sc_maxScore := 10 |};
    {| name := "Best Practices"; sc_weight := 10; sc_maxScore := 10 |} ].

Definition defaultWeights : Weights :=
  {| schemaTypes := 20;
     documentation := 20;
     pathsOperations := 15;
     responseCodes := 15;
     examples := 10;
     security := 10;
     bestPractices := 10 |}.

(** [{ p: d, ...config }] for one property [p]: the spread copies every own
    property of [config] over the default, its value whatever it is, also
    [undefined]; a property [config] lacks keeps the default. *)
Definition spread {T : Type} (default : T) (own : Own T) : option T :=
  match own with
  | absent => Some default
  | undefinedValue => None
  | given v => Some v
  end.

(** [this.config = { criteria: [...], weights: {...}, ...config }]; without
    an argument [config] is [undefined] and the spread copies nothing. *)
Definition constructor (config : option PartialScoringConfig) : ScoringConfig :=
  let own_criteria := match config with Some c => p_criteria c | None => absent end in
  let own_weights := match config with Some c => p_weights c | None => absent end in
  {| criteria := spread defaultCriteria own_criteria;
     weights := spread defaultWeights own_weights |}.

(** [['get', 'post', 'put', 'patch', 'delete'] as const], the list every
    helper iterates. *)
Definition methods : list Method := [GET; POST; PUT; PATCH; DELETE].

(** *** Schema & Types *)

Definition validateSchemaTypes (schemaName : string) (schema : Schema) : Check :=
  when (negb (truthy (s_type schema)) && negb (truthy (s_ref schema))
        && negb (truthy (s_allOf schema)) && negb (truthy (s_oneOf schema))
        && negb (truthy (s_anyOf schema)))
    (push {| path := "/components/schemas/" ^^ schemaName;
             operation := None;
             location := "schema";
             description := "Schema " ^^ dq ^^ schemaName ^^ dq ^^ " lacks type definition";
             severity := medium;
             suggestion := "Specify a type (object, string, number, etc.) for the schema";
             criterion := "Schema & Types" |}) ;;
  when (match s_type schema with AStr t => String.eqb t "object" | _ => false end
        && negb (truthy (s_properties schema))
        && negb (truthy (s_additionalProperties schema)))
    (push {| path := "/components/schemas/" ^^ schemaName;
             operation := None;
             location := "schema";
             description := "Object schema " ^^ dq ^^ schemaName ^^ dq ^^ " has no defined properties";
             severity := medium;
             suggestion := "Define properties for object schemas or use additionalProperties";
             criterion := "Schema & Types" |}).

Definition hasSchemaReference (obj : option Body) : bool :=
  match obj with
  | None => false
  | Some o =>
      if truthy (b_schema o) then true
      else match b_content o with
           | Some content =>
               existsb (fun contentType =>
                          match snd contentType with
                          | Some m => truthy (mt_schema m)
                          | None => false
                          end) content
           | None => false
           end
  end.

Definition checkOperationSchemas (spec : OpenAPISpec) : Check :=
  match paths spec with
  | None => skip
  | Some ps =>
      forEach ps (fun '(path, pathItem) =>
        forEach methods (fun method =>
          match getOp pathItem method with
          | Some operation =>
              when (present (op_requestBody operation)
                    && negb (hasSchemaReference (op_requestBody operation)))
                (push {| path := path;
                         operation := Some (methodName method);
                         location := "requestBody";
                         description := "Request body lacks proper schema definition";
                         severity := medium;
                         suggestion := "Define schema for request body content";
                         criterion := "Schema & Types" |}) ;;
              match op_responses operation with
              | Some responses =>
                  forEach responses (fun '(statusCode, response) =>
                    when (present response && negb (hasSchemaReference response))
                      (push {| path := path;
                               operation := Some (methodName method);
                               location := "responses." ^^ statusCode;
                               description := "Response " ^^ statusCode ^^ " lacks proper schema definition";
                               severity := medium;
                               suggestion := "Define schema for response content";
                               criterion := "Schema & Types" |}))
              | None => skip
              end
          | None => skip
          end))
  end.

(** *** Descriptions & Documentation *)

(** [${param.name}]: a missing name renders as [undefined]. *)
Definition showName (n : option string) : string :=
  match n with Some s => s | None => "undefined" end.

(** The two issue literals of [checkPathDocumentation]. *)
Definition undocumentedOperation (path : string) (method : Method) : Issue :=
  {| path := path;
     operation := Some (methodName method);
     location := "operation";
     description := "Operation lacks summary and description";
     severity := medium;
     suggestion := "Add summary and/or description to explain the operation";
     criterion := "Descriptions & Documentation" |}.

Definition undocumentedParameter (path : string) (method : Method) (param : Param) : Issue :=
  {| path := path;
     operation := Some (methodName method);
     location := "parameters." ^^ showName (param_name param);
     description := "Parameter " ^^ dq ^^ showName (param_name param) ^^ dq ^^ " lacks description";
     severity := low;
     suggestion := "Add description to explain the parameter purpose";
     criterion := "Descriptions & Documentation" |}.

(** [!param.description] throws when [param] is [null] or [undefined]. *)
Definition checkPathDocumentation (path : string) (pathItem : PathItem) : Fallible Issue :=
  forEachF methods (fun method =>
    match getOp pathItem method with
    | Some operation =>
        returning
          (when (negb (truthyStr (op_summary operation))
                 && negb (truthyStr (op_description operation)))
             (push (undocumentedOperation path method))) ;;;
        match op_parameters operation with
        | Some parameters =>
            forEachF parameters (fun param =>
              match param with
              | Some param =>
                  returning
                    (when (negb (truthyStr (param_description param)))
                       (push (undocumentedParameter path method param)))
              | None => throwing TypeError
              end)
        | None => returning skip
        end
    | None => returning skip
    end).

(** *** Paths & Operations *)

Definition checkPathNaming (paths : Paths) : Check :=
  let pathKeys := map fst paths in
  forEach pathKeys (fun path =>
    when (includesChar "_" path)
      (push {| path := path;
               operation := None;
               location := "path";
               description := "Path uses underscores, consider using hyphens for consistency";
               severity := low;
               suggestion := "Use kebab-case (hyphens) instead of snake_case (underscores)";
               criterion := "Paths & Operations" |}) ;;
    when (endsWithChar "/" path && negb (String.eqb path "/"))
      (push {| path := path;
               operation := None;
               location := "path";
               description := "Path has trailing slash";
               severity := low;
               suggestion := "Remove trailing slash from path";
               criterion := "Paths & Operations" |})).

(** [resources.has(r) || resources.set(r, []); resources.get(r).push(path)]
    on a [Map] kept in insertion order. *)
Fixpoint mapPush (resources : list (string * list string)) (resource path : string)
  : list (string * list string) :=
  match resources with
  | [] => [(resource, [path])]
  | (k, v) :: rest =>
      if String.eqb k resource then (k, v ++ [path]) :: rest
      else (k, v) :: mapPush rest resource path
  end.

(** [paths[path]] *)
Definition getPath (paths : Paths) (path : string) : option PathItem :=
  option_map snd (find (fun entry => String.eqb (fst entry) path) paths).

(** [Object.keys(pathItem).filter(k => [...].includes(k))] counts the method
    keys the path item has, with an operation or with a nullish value. *)
Definition checkCrudConsistency (paths : Paths) : Check :=
  let resources :=
    fold_left (fun resources path =>
                 let segments :=
                   filter (fun s => negb (str_empty s) && negb (startsWithChar "{" s))
                          (split "/" path) in
                 if (0 <? List.length segments)%nat
                 then mapPush resources (last segments EmptyString) path
                 else resources)
              (map fst paths) [] in
  forEach resources (fun '(resource, resourcePaths) =>
    match resourcePaths with
    | [path] =>
        match getPath paths path with
        | Some pathItem =>
            let keys :=
              filter (fun k => present (getOp pathItem k)
                               || existsb (sameMethod k) (pi_nullish pathItem))
                     methods in
            when (List.length keys =? 1)%nat
              (push {| path := path;
                       operation := None;
                       location := "operations";
                       description := "Resource " ^^ dq ^^ resource ^^ dq ^^ " only has one operation";
                       severity := low;
                       suggestion := "Consider implementing full CRUD operations for resources";
                       criterion := "Paths & Operations" |})
        | None => skip
        end
    | _ => skip
    end).

(** The loop of [pathsOverlap] over the two segment arrays, which have the
    same length when it runs. *)
Fixpoint segmentsOverlap (segments1 segments2 : list string) : bool :=
  match segments1, segments2 with
  | seg1 :: rest1, seg2 :: rest2 =>
      if negb (String.eqb seg1 seg2)
         && negb (startsWithChar "{" seg1) && negb (startsWithChar "{" seg2)
      then false
      else segmentsOverlap rest1 rest2
  | _, _ => true
  end.

Definition pathsOverlap (path1 path2 : string) : bool :=
  let segments1 := filter (fun s => negb (str_empty s)) (split "/" path1) in
  let segments2 := filter (fun s => negb (str_empty s)) (split "/" path2) in
  if negb (List.length segments1 =? List.length segments2)%nat then false
  else segmentsOverlap segments1 segments2.

Definition overlapIssue (pathI pathJ : string) : Issue :=
  {| path := pathI;
     operation := None;
     location := "path";
     description := "Path overlaps with " ^^ pathJ;
     severity := medium;
     suggestion := "Ensure paths are distinct and non-overlapping";
     criterion := "Paths & Operations" |}.

(** The two nested index loops: [i] over the keys, [j] over the keys after
    [i]. *)
Fixpoint overlapLoop (pathKeys : list string) : Check :=
  match pathKeys with
  | [] => skip
  | pathI :: later =>
      forEach later (fun pathJ =>
        when (pathsOverlap pathI pathJ) (push (overlapIssue pathI pathJ))) ;;
      overlapLoop later
  end.

Definition checkOverlappingPaths (paths : Paths) : Check :=
  let pathKeys := map fst paths in
  overlapLoop pathKeys.

(** *** Response Codes *)

(** The caller has checked [operation.responses]. *)
Definition checkMethodSpecificResponses (path : string) (method : Method)
    (operation : Operation) : Check :=
  let responseCodes :=
    match op_responses operation with
    | Some responses => map fst responses
    | None => []
    end in
  match method with
  | POST =>
      when (negb (includes responseCodes "201") && negb (includes responseCodes "200"))
        (push {| path := path;
                 operation := Some (methodName method);
                 location := "responses";
                 description := "POST operation should typically return 201 (Created) or 200";
                 severity := low;
                 suggestion := "Consider using 201 for resource creation";
                 criterion := "Response Codes" |})
  | DELETE =>
      when (negb (includes responseCodes "204") && negb (includes responseCodes "200"))
        (push {| path := path;
                 operation := Some (methodName method);
                 location := "responses";
                 description := "DELETE operation should typically return 204 (No Content) or 200";
                 severity := low;
                 suggestion := "Consider using 204 for successful deletion with no content";
                 criterion := "Response Codes" |})
  | _ => skip
  end.

Definition checkOperationResponses (path : string) (pathItem : PathItem) : Check :=
  forEach methods (fun method =>
    match getOp pathItem method with
    | Some operation =>
        match op_responses operation with
        | Some responses =>
            let responseCodes := map fst responses in
            let hasSuccess :=
              existsb (fun code => startsWithChar "2" code || String.eqb code "default")
                      responseCodes in
            when (negb hasSuccess)
              (push {| path := path;
                       operation := Some (methodName method);
                       location := "responses";
                       description := "No success response (2xx) defined";
                       severity := high;
                       suggestion := "Define at least one 2xx success response";
                       criterion := "Response Codes" |}) ;;
            let hasClientError := existsb (fun code => startsWithChar "4" code) responseCodes in
            let hasServerError := existsb (fun code => startsWithChar "5" code) responseCodes in
            when (negb hasClientError && negb hasServerError)
              (push {| path := path;
                       operation := Some (methodName method);
                       location := "responses";
                       description := "No error responses (4xx/5xx) defined";
                       severity := medium;
                       suggestion := "Define appropriate error responses (400, 404, 500, etc.)";
                       criterion := "Response Codes" |}) ;;
            checkMethodSpecificResponses path method operation
        | None => skip
        end
    | None => skip
    end).

(** *** Examples & Samples *)

Definition hasExamplesInContent (obj : option Body) : bool :=
  match obj with
  | None => false
  | Some o =>
      if truthy (b_example o) || truthy (b_examples o) then true
      else match b_content o with
           | Some content =>
               existsb (fun contentType =>
                          match snd contentType with
                          | Some m => truthy (mt_example m) || truthy (mt_examples m)
                          | None => false
                          end) content
           | None => false
           end
  end.

Definition checkExamples (path : string) (pathItem : PathItem) : Check :=
  forEach methods (fun method =>
    match getOp pathItem method with
    | Some operation =>
        let hasExamples := false in
        let hasExamples :=
          match op_requestBody operation with
          | Some requestBody => hasExamplesInContent (Some requestBody)
          | None => hasExamples
          end in
        let hasExamples :=
          match op_responses operation with
          | Some responses =>
              if existsb (fun response => hasExamplesInContent (snd response)) responses
              then true else hasExamples
          | None => hasExamples
          end in
        when (negb hasExamples)
          (push {| path := path;
                   operation := Some (methodName method);
                   location := "examples";
                   description := "Operation lacks examples";
                   severity := low;
                   suggestion := "Add examples to request/response bodies for better documentation";
                   criterion := "Examples & Samples" |})
    | None => skip
    end).

(** *** Security *)

Definition checkOperationSecurity (spec : OpenAPISpec) : Check :=
  match paths spec with
  | None => skip
  | Some ps =>
      forEach ps (fun '(path, pathItem) =>
        forEach methods (fun method =>
          match getOp pathItem method with
          | Some operation =>
              let hasGlobalSecurity := nonEmptyArr (spec_security spec) in
              let hasOperationSecurity := nonEmptyArr (op_security operation) in
              when (negb hasGlobalSecurity && negb hasOperationSecurity)
                (push {| path := path;
                         operation := Some (methodName method);
                         location := "security";
                         description := "Operation has no security requirements";
                         severity := medium;
                         suggestion := "Define security requirements for the operation";
                         criterion := "Security" |})
          | None => skip
          end))
  end.

(** *** Best Practices *)

(** [set.add(x)] on a [Set] kept in insertion order. *)
Definition setAdd (set : list string) (x : string) : list string :=
  if includes set x then set else set ++ [x].

Definition checkTagsUsage (spec : OpenAPISpec) : Check :=
  let definedTags :=
    match tags spec with
    | Some ts => fold_left setAdd (map tag_name ts) []
    | None => []
    end in
  match paths spec with
  | None => skip
  | Some ps =>
      let usedTags :=
        fold_left (fun usedTags pathItem =>
          fold_left (fun usedTags method =>
            match getOp pathItem method with
            | Some operation =>
                match op_tags operation with
                | Some ts => fold_left setAdd ts usedTags
                | None => usedTags
                end
            | None => usedTags
            end) methods usedTags) (map snd ps) [] in
      forEach usedTags (fun usedTag =>
        when (negb (includes definedTags usedTag))
          (push {| path := "/tags";
                   operation := None;
                   location := "tags";
                   description := "Tag " ^^ dq ^^ usedTag ^^ dq ^^ " is used but not defined";
                   severity := low;
                   suggestion := "Define all tags in the tags array with descriptions";
                   criterion := "Best Practices" |})) ;;
      let operationsWithoutTags :=
        fold_left (fun count pathItem =>
          fold_left (fun count method =>
            match getOp pathItem method with
            | Some operation =>
                if negb (nonEmptyArr (op_tags operation)) then S count else count
            | None => count
            end) methods count) (map snd ps) O in
      when (0 <? operationsWithoutTags)%nat
        (push {| path := "/paths";
                 operation := None;
                 location := "operations";
                 description := showNat operationsWithoutTags ^^ " operations are not tagged";
                 severity := low;
                 suggestion := "Add tags to operations for better organization";
                 criterion := "Best Practices" |})
  end.

Definition checkComponentReuse (spec : OpenAPISpec) : Check :=
  when (negb (present (components spec)))
    (push {| path := "/components";
             operation := None;
             location := "components";
             description := "No components defined for reuse";
             severity := low;
             suggestion := "Extract common schemas, responses, and parameters to components";
             criterion := "Best Practices" |}).

(** *** Deduction, grade, operation count *)

Definition calculateDeduction (issues : list Issue) : Z :=
  fold_left (fun sum issue =>
               match severity issue with
               | critical => sum + 5
               | high => sum + 3
               | medium => sum + 2
               | low => sum + 1
               end)%Z issues 0%Z.

Definition calculateGrade (score : Q) : Grade :=
  if Qle_bool 90 score then A
  else if Qle_bool 80 score then B
  else if Qle_bool 70 score then C
  else if Qle_bool 60 score then D
  else F.

Definition countOperations (spec : OpenAPISpec) : nat :=
  match paths spec with
  | None => O
  | Some ps =>
      fold_left (fun count pathItem =>
        fold_left (fun count method =>
          if present (getOp pathItem method) then S count else count)
          [GET; POST; PUT; PATCH; DELETE; OPTIONS; HEAD; TRACE] count)
        (map snd ps) O
  end.

(** [Math.max(0, x)] and [Math.round(x)] (to the nearest integer, a half
    upwards), on the exact value of their argument. *)
Definition Math_max (x y : Q) : Q := Qmax x y.
Definition Math_round (x : Q) : Z := Qfloor (x + (1 # 2)).

(** *** The seven evaluators; [this] is [this.config.weights] *)

(** [spec.components?.schemas] and [spec.components?.securitySchemes] *)
Definition componentSchemas (spec : OpenAPISpec) : option (list (string * Schema)) :=
  match components spec with Some c => schemas c | None => None end.
Definition componentSecuritySchemes (spec : OpenAPISpec)
  : option (list (string * SecurityScheme)) :=
  match components spec with Some c => securitySchemes c | None => None end.

Definition scoreSchemaTypes (this : Weights) (spec : OpenAPISpec) : ScoreResult :=
  let issues : list Issue := [] in
  let score := schemaTypes this in
  let noSchemas := negb (nonEmptyArr (componentSchemas spec)) in
  let issues :=
    when noSchemas
      (push {| path := "/components/schemas";
               operation := None;
               location := "components";
               description := "No reusable schemas defined in components";
               severity := medium;
               suggestion := "Define reusable schemas in components/schemas to promote consistency";
               criterion := "Schema & Types" |}) issues in
  let score := if noSchemas then score - 5 else score in
  let issues :=
    match componentSchemas spec with
    | Some entries =>
        forEach entries (fun '(schemaName, schema) =>
          validateSchemaTypes schemaName schema) issues
    | None => issues
    end in
  let issues := checkOperationSchemas spec issues in
  let deduction := calculateDeduction issues in
  let score := Math_max 0 (score - inject_Z deduction) in
  {| r_criterion := "Schema & Types";
     score := score;
     maxScore := schemaTypes this;
     weight := schemaTypes this;
     weightedScore := score;
     issues := issues |}.

(** [spec.info.description] throws when [spec.info] is missing, and
    [checkPathDocumentation] may throw. *)
Definition scoreDocumentation (this : Weights) (spec : OpenAPISpec) : Result ScoreResult :=
  let issues : list Issue := [] in
  let score := documentation this in
  match info spec with
  | None => Throw TypeError
  | Some spec_info =>
      let noDescription := negb (truthyStr (info_description spec_info)) in
      let issues :=
        when noDescription
          (push {| path := "/info";
                   operation := None;
                   location := "info.description";
                   description := "API description is missing";
                   severity := medium;
                   suggestion := "Add a comprehensive description of your API in info.description";
                   criterion := "Descriptions & Documentation" |}) issues in
      let score := if noDescription then score - 2 else score in
      issues <-
        match paths spec with
        | Some ps =>
            forEachF ps (fun '(path, pathItem) =>
              checkPathDocumentation path pathItem) issues
        | None => Ok issues
        end ;;
      let deduction := calculateDeduction issues in
      let score := Math_max 0 (score - inject_Z deduction) in
      Ok {| r_criterion := "Descriptions & Documentation";
            score := score;
            maxScore := documentation this;
            weight := documentation this;
            weightedScore := score;
            issues := issues |}
  end.

Definition scorePathsOperations (this : Weights) (spec : OpenAPISpec) : ScoreResult :=
  let issues : list Issue := [] in
  let score := pathsOperations this in
  match paths spec with
  | None =>
      let issues :=
        push {| path := "/paths";
                operation := None;
                location := "paths";
                description := "No paths defined";
                severity := critical;
                suggestion := "Define at least one path in your API specification";
                criterion := "Paths & Operations" |} issues in
      {| r_criterion := "Paths & Operations";
         score := 0;
         maxScore := pathsOperations this;
         weight := pathsOperations this;
         weightedScore := 0;
         issues := issues |}
  | Some ps =>
      let issues := checkPathNaming ps issues in
      let issues := checkCrudConsistency ps issues in
      let issues := checkOverlappingPaths ps issues in
      let deduction := calculateDeduction issues in
      let score := Math_max 0 (score - inject_Z deduction) in
      {| r_criterion := "Paths & Operations";
         score := score;
         maxScore := pathsOperations this;
         weight := pathsOperations this;
         weightedScore := score;
         issues := issues |}
  end.

Definition scoreResponseCodes (this : Weights) (spec : OpenAPISpec) : ScoreResult :=
  let issues : list Issue := [] in
  let score := responseCodes this in
  let issues :=
    match paths spec with
    | Some ps =>
        forEach ps (fun '(path, pathItem) =>
          checkOperationResponses path pathItem) issues
    | None => issues
    end in
  let deduction := calculateDeduction issues in
  let score := Math_max 0 (score - inject_Z deduction) in
  {| r_criterion := "Response Codes";
     score := score;
     maxScore := responseCodes this;
     weight := responseCodes this;
     weightedScore := score;
     issues := issues |}.

Definition scoreExamples (this : Weights) (spec : OpenAPISpec) : ScoreResult :=
  let issues : list Issue := [] in
  let score := examples this in
  let issues :=
    match paths spec with
    | Some ps =>
        forEach ps (fun '(path, pathItem) => checkExamples path pathItem) issues
    | None => issues
    end in
  let deduction := calculateDeduction issues in
  let score := Math_max 0 (score - inject_Z deduction) in
  {| r_criterion := "Examples & Samples";
     score := score;
     maxScore := examples this;
     weight := examples this;
     weightedScore := score;
     issues := issues |}.

Definition scoreSecurity (this : Weights) (spec : OpenAPISpec) : ScoreResult :=
  let issues : list Issue := [] in
  let score := security this in
  let noSchemes := negb (nonEmptyArr (componentSecuritySchemes spec)) in
  let issues :=
    when noSchemes
      (push {| path := "/components/securitySchemes";
               operation := None;
               location := "components";
               description := "No security schemes defined";
               severity := high;
               suggestion := "Define appropriate security schemes (OAuth2, API Key, etc.)";
               criterion := "Security" |}) issues in
  let score := if noSchemes then score - 5 else score in
  let noGlobal := negb (nonEmptyArr (spec_security spec)) in
  let issues :=
    when noGlobal
      (push {| path := "/security";
               operation := None;
               location := "root";
               description := "No global security requirements defined";
               severity := medium;
               suggestion := "Define global security requirements or ensure operations have individual security";
               criterion := "Security" |}) issues in
  let score := if noGlobal then score - 3 else score in
  let issues :=
    if present (paths spec) then checkOperationSecurity spec issues else issues in
  let deduction := calculateDeduction issues in
  let score := Math_max 0 (score - inject_Z deduction) in
  {| r_criterion := "Security";
     score := score;
     maxScore := security this;
     weight := security this;
     weightedScore := score;
     issues := issues |}.

(** [spec.info.version] throws when [spec.info] is missing. *)
Definition scoreBestPractices (this : Weights) (spec : OpenAPISpec) : Result ScoreResult :=
  let issues : list Issue := [] in
  let score := bestPractices this in
  match info spec with
  | None => Throw TypeError
  | Some spec_info =>
      let defaultVersion :=
        negb (truthyStr (version spec_info))
        || match version spec_info with
           | Some v => String.eqb v "1.0.0"
           | None => false
           end in
      let issues :=
        when defaultVersion
          (push {| path := "/info/version";
                   operation := None;
                   location := "info";
                   description := "API version should be meaningful, not default";
                   severity := low;
                   suggestion := "Use semantic versioning (e.g., 1.2.3) or date-based versioning";
                   criterion := "Best Practices" |}) issues in
      let score := if defaultVersion then score - 1 else score in
      let noServers := negb (nonEmptyArr (servers spec)) in
      let issues :=
        when noServers
          (push {| path := "/servers";
                   operation := None;
                   location := "root";
                   description := "No servers defined";
                   severity := medium;
                   suggestion := "Define at least one server URL";
                   criterion := "Best Practices" |}) issues in
      let score := if noServers then score - 2 else score in
      let issues :=
        if present (paths spec) then checkTagsUsage spec issues else issues in
      let issues := checkComponentReuse spec issues in
      let deduction := calculateDeduction issues in
      let score := Math_max 0 (score - inject_Z deduction) in
      Ok {| r_criterion := "Best Practices";
            score := score;
            maxScore := bestPractices this;
            weight := bestPractices this;
            weightedScore := score;
            issues := issues |}
  end.

(** *** [score(spec)]

    [now] is what [new Date().toISOString()] returns when the report is
    built. *)

(** [x || 'Unknown'] on an optional string *)
Definition orUnknown (o : option string) : string :=
  match o with
  | Some s => if str_empty s then "Unknown" else s
  | None => "Unknown"
  end.

Definition countSeverity (s : Severity) (allIssues : list Issue) : nat :=
  List.length
    (filter (fun i => match severity i, s with
                      | low, low | medium, medium | high, high
                      | critical, critical => true
                      | _, _ => false
                      end) allIssues).

Definition score (this : Weights) (spec : OpenAPISpec) (now : string)
  : Result ScoringReport :=
  let results : list ScoreResult := [] in
  let results := results ++ [scoreSchemaTypes this spec] in
  documentationResult <- scoreDocumentation this spec ;;
  let results := results ++ [documentationResult] in
  let results := results ++ [scorePathsOperations this spec] in
  let results := results ++ [scoreResponseCodes this spec] in
  let results := results ++ [scoreExamples this spec] in
  let results := results ++ [scoreSecurity this spec] in
  bestPracticesResult <- scoreBestPractices this spec ;;
  let results := results ++ [bestPracticesResult] in
  let overallScore := fold_left (fun sum result => sum + weightedScore result) results 0 in
  let maxScore := 100 in
  let grade := calculateGrade overallScore in
  let allIssues := flat_map issues results in
  let summary :=
    {| criticalIssues := countSeverity critical allIssues;
       highIssues := countSeverity high allIssues;
       mediumIssues := countSeverity medium allIssues;
       lowIssues := countSeverity low allIssues |} in
  let pathCount :=
    List.length (map fst (match paths spec with Some ps => ps | None => [] end)) in
  let operationCount := countOperations spec in
  Ok {| overallScore := inject_Z (Math_round (overallScore * 100)) / 100;
        grade := grade;
        report_maxScore := maxScore;
        results := results;
        totalIssues := List.length allIssues;
        summary := summary;
        timestamp := now;
        specInfo :=
          {| si_title := orUnknown (match info spec with Some i => title i | None => None end);
             si_version := orUnknown (match info spec with Some i => version i | None => None end);
             pathCount := pathCount;
             operationCount := operationCount |} |}.

(** [engine.score(spec)] for an engine as the constructor leaves it: the
    first statement of [scoreSchemaTypes] after [const issues = []] reads
    [this.config.weights.schemaTypes], which throws when [weights] is
    [undefined]. *)
Definition scoreWith (engine : ScoringConfig) (spec : OpenAPISpec) (now : string)
  : Result ScoringReport :=
  match weights engine with
  | Some this => score this spec now
  | None => Throw TypeError
  end.

End ScoringEngine.

(** ** The structural validator ([OpenAPILoader.validate]) *)

Module OpenAPILoader.

Record ValidationResult : Type := {
  isValid : bool;
  errors : list string;
  warnings : list string
}.

(** [method.toUpperCase()] *)
Definition upperName (m : Method) : string :=
  match m with
  | GET => "GET" | PUT => "PUT" | POST => "POST" | DELETE => "DELETE"
  | OPTIONS => "OPTIONS" | HEAD => "HEAD" | PATCH => "PATCH" | TRACE => "TRACE"
  end.

(** [operation.parameters], when present, is an array in this embedding, so
    the [Array.isArray] error is never pushed. *)
Definition validateOperation (path : string) (method : Method)
    (operation : Operation) : Pusher string :=
  when (negb (present (op_responses operation)))
    (push ("Operation " ^^ upperName method ^^ " " ^^ path
           ^^ " is missing required " ^^ dq ^^ "responses" ^^ dq ^^ " field")).

(** A path item is an object in this embedding, so the guard
    [pathItem && typeof pathItem === 'object'] holds. *)
Definition validatePaths (paths : Paths) : Pusher string :=
  forEach paths (fun '(pathKey, pathItem) =>
    when (negb (startsWithChar "/" pathKey))
      (push ("Path " ^^ dq ^^ pathKey ^^ dq ^^ " must start with a forward slash")) ;;
    let httpMethods := [GET; PUT; POST; DELETE; OPTIONS; HEAD; PATCH; TRACE] in
    forEach httpMethods (fun method =>
      match getOp pathItem method with
      | Some operation => validateOperation pathKey method operation
      | None => skip
      end)).

(** A schema and a security scheme are objects in this embedding, so the
    two invalid-definition errors are never pushed. *)
Definition validateComponents (components : Components) : Pusher string :=
  match schemas components with
  | Some entries => forEach entries (fun '(schemaName, schema) => skip)
  | None => skip
  end ;;
  match securitySchemes components with
  | Some schemes =>
      forEach schemes (fun '(schemeName, scheme) =>
        when (negb (truthyStr (scheme_type scheme)))
          (push ("Security scheme " ^^ dq ^^ schemeName ^^ dq
                 ^^ " is missing required " ^^ dq ^^ "type" ^^ dq ^^ " field")))
  | None => skip
  end.

Definition validate (spec : OpenAPISpec) : ValidationResult :=
  let errors : list string := [] in
  let warnings : list string := [] in
  let errors :=
    match openapi spec with
    | Some v =>
        if str_empty v then push "Missing required field: openapi" errors
        else if negb (String.prefix "3." v)
        then push ("Unsupported OpenAPI version: " ^^ v ^^ ". Only 3.x is supported.") errors
        else errors
    | None => push "Missing required field: openapi" errors
    end in
  let errors :=
    match info spec with
    | None => push "Missing required field: info" errors
    | Some spec_info =>
        (when (negb (truthyStr (title spec_info)))
           (push "Missing required field: info.title") ;;
         when (negb (truthyStr (version spec_info)))
           (push "Missing required field: info.version")) errors
    end in
  let errors :=
    match paths spec with
    | None => push "Missing required field: paths" errors
    | Some _ => errors
    end in
  let warnings :=
    match paths spec with
    | Some [] => push "No paths defined in the specification" warnings
    | _ => warnings
    end in
  let errors :=
    match paths spec with
    | Some ps => validatePaths ps errors
    | None => errors
    end in
  let errors :=
    match components spec with
    | Some c => validateComponents c errors
    | None => errors
    end in
  {| isValid := (List.length errors =? 0)%nat;
     errors := errors;
     warnings := warnings |}.

End OpenAPILoader.

(** ** The reporter ([class ReportGenerator]) *)

Module ReportGenerator.

Local Open Scope Q_scope.

(** [getScoreColor(score)], the colour of the score and of the grade badge
    in the HTML report, where it is called on [report.overallScore]. *)
Definition getScoreColor (score : Q) : string :=
  if Qle_bool 90 score then "#28a745"
  else if Qle_bool 80 score then "#17a2b8"
  else if Qle_bool 70 score then "#ffc107"
  else if Qle_bool 60 score then "#fd7e14"
  else "#dc3545".

End ReportGenerator.

(** * Definitions for the properties *)

(** ** Append-only helpers *)

(** A helper is append-only when the array it returns is the array it was
    handed followed by what it pushes on an empty array. *)
Definition appendOnly {T : Type} (c : Pusher T) : Prop :=
  forall arr, c arr = arr ++ emitted c.

Module SE := ScoringEngine.

(** ** Sample documents, taken from the repository's tests *)

Module Samples.

Definition operationWith (responses : option (list (string * option Body))) : Operation :=
  {| op_tags := None; op_summary := None; op_description := None;
     op_parameters := None; op_requestBody := None;
     op_responses := responses; op_security := None |}.

Definition noOperations : PathItem :=
  {| pi_get := None; pi_put := None; pi_post := None; pi_delete := None;
     pi_options := None; pi_head := None; pi_patch := None; pi_trace := None;
     pi_nullish := [] |}.

(** [{ description: '...' }]: a response with neither schema nor example. *)
Definition plainResponse : Body :=
  {| b_schema := AUndefined; b_example := AUndefined; b_examples := AUndefined;
     b_content := None |}.

Definition testInfo : Info :=
  {| title := Some "Test API"; version := Some "1.0.0"; info_description := None |}.

Definition specWith (i : option Info) (ps : option Paths) : OpenAPISpec :=
  {| openapi := Some "3.0.0"; info := i; servers := None; paths := ps;
     components := None; spec_security := None; tags := None |}.

(** 'should score a minimal valid spec': one path [/users] with a [get]
    that answers ['200']. *)
Definition minimalSpec : OpenAPISpec :=
  specWith (Some testInfo)
    (Some [("/users",
            {| pi_get := Some (operationWith (Some [("200", Some plainResponse)]));
               pi_put := None; pi_post := None; pi_delete := None;
               pi_options := None; pi_head := None; pi_patch := None;
               pi_trace := None; pi_nullish := [] |})]).

(** The [mockSpec] of 'should calculate grades correctly': [paths: {}]. *)
Definition mockSpec : OpenAPISpec := specWith (Some testInfo) (Some []).

End Samples.

(** ** Scores and deductions *)

(** The table of the specification: critical 5, high 3, medium 2, low 1. *)
Definition penalty (s : Severity) : Z :=
  match s with critical => 5 | high => 3 | medium => 2 | low => 1 end.

Definition totalDeduction (l : list Issue) : Z :=
  fold_right (fun i acc => (penalty (severity i) + acc)%Z) 0%Z l.

Local Open Scope Q_scope.

(** The formula of the specification: the weight less the table's
    deduction, floored at zero. *)
Definition tableScore (r : ScoreResult) : Q :=
  Qmax 0 (weight r - inject_Z (totalDeduction (issues r))).

(** What the evaluators subtract besides the table, for a defect of the
    document as a whole. *)
Definition fixedSchemaTypes (spec : OpenAPISpec) : Z :=
  if nonEmptyArr (SE.componentSchemas spec) then 0 else 5.

Definition fixedDocumentation (spec : OpenAPISpec) : Z :=
  match info spec with
  | Some i => if truthyStr (info_description i) then 0 else 2
  | None => 0
  end.

Definition fixedSecurity (spec : OpenAPISpec) : Z :=
  (if nonEmptyArr (SE.componentSecuritySchemes spec) then 0 else 5)
  + (if nonEmptyArr (spec_security spec) then 0 else 3).

Definition fixedBestPractices (spec : OpenAPISpec) : Z :=
  match info spec with
  | Some i =>
      (match version i with
       | Some v => if str_empty v || String.eqb v "1.0.0" then 1 else 0
       | None => 1
       end)
      + (if nonEmptyArr (servers spec) then 0 else 2)
  | None => 0
  end.

(** [r] is scored out of [w], with [fixed] subtracted besides the table. *)
Definition scoredOutOf (r : ScoreResult) (w : Q) (fixed : Z) : Prop :=
  weight r = w /\ maxScore r = w /\ weightedScore r = score r /\
  score r == Qmax 0 (w - inject_Z fixed - inject_Z (totalDeduction (issues r))).

Definition nonNegativeWeights (w : Weights) : Prop :=
  0 <= schemaTypes w /\ 0 <= documentation w /\ 0 <= pathsOperations w /\
  0 <= responseCodes w /\ 0 <= examples w /\ 0 <= security w /\
  0 <= bestPractices w.

Definition sumWeighted (l : list ScoreResult) : Q :=
  fold_right (fun r acc => weightedScore r + acc) 0 l.


(** ** Paths and configuration *)

Definition noPathsIssue : Issue :=
  {| path := "/paths";
     operation := None;
     location := "paths";
     description := "No paths defined";
     severity := critical;
     suggestion := "Define at least one path in your API specification";
     criterion := "Paths & Operations" |}.

(** The custom configuration of 'should handle custom scoring
    configuration': 30, 30, 10, 10, 5, 10, 5. *)
Definition customWeights : Weights :=
  {| schemaTypes := 30; documentation := 30; pathsOperations := 10;
     responseCodes := 10; examples := 5; security := 10; bestPractices := 5 |}.

(** ** Overlapping paths *)

(** [path.split('/').filter(s => s)] *)
Definition segmentsOf (p : string) : list string :=
  filter (fun s => negb (str_empty s)) (split "/" p).

(** The predicate of the specification: as many segments, and at every
    position equal segments or a placeholder on one side. *)
Definition overlapSpec (path1 path2 : string) : Prop :=
  List.length (segmentsOf path1) = List.length (segmentsOf path2) /\
  forall i, (i < List.length (segmentsOf path1))%nat ->
    nth i (segmentsOf path1) EmptyString = nth i (segmentsOf path2) EmptyString
    \/ startsWithChar "{" (nth i (segmentsOf path1) EmptyString) = true
    \/ startsWithChar "{" (nth i (segmentsOf path2) EmptyString) = true.

(** What the inner loop pushes for the key [k] and the keys after it. *)
Definition overlapsOf (k : string) (later : list string) : list Issue :=
  flat_map (fun q => if SE.pathsOverlap k q then [SE.overlapIssue k q] else []) later.

(** ** Response codes *)

(** [P m op] holds of every operation [op] the document has, under every
    one of the eight methods [m] of every path. *)
Definition everyOperation (P : Method -> Operation -> bool) (spec : OpenAPISpec) : Prop :=
  forall ps p item m op,
    paths spec = Some ps -> In (p, item) ps -> getOp item m = Some op ->
    P m op = true.

(** The hypothesis of the specification: among the status codes one starts
    with 2 or is [default], and one starts with 4 or with 5. *)
Definition definesSuccessAndError (m : Method) (op : Operation) : bool :=
  match op_responses op with
  | Some responses =>
      existsb (fun code => startsWithChar "2" code || String.eqb code "default")
              (map fst responses)
      && (existsb (fun code => startsWithChar "4" code) (map fst responses)
          || existsb (fun code => startsWithChar "5" code) (map fst responses))
  | None => false
  end.

(** What [checkMethodSpecificResponses] asks besides: 201 or 200 of a
    [post], 204 or 200 of a [delete]. *)
Definition followsMethodConvention (m : Method) (op : Operation) : bool :=
  let codes := match op_responses op with
               | Some responses => map fst responses
               | None => []
               end in
  match m with
  | POST => includes codes "201" || includes codes "200"
  | DELETE => includes codes "204" || includes codes "200"
  | _ => true
  end.

(** The document of 'should reward proper HTTP status codes': a [get] with
    200, 400, 404, 500 and a [post] with 201, 400. *)
Definition properStatusCodes : OpenAPISpec :=
  Samples.specWith (Some Samples.testInfo)
    (Some [("/users",
            {| pi_get := Some (Samples.operationWith
                                 (Some [("200", Some Samples.plainResponse);
                                        ("400", Some Samples.plainResponse);
                                        ("404", Some Samples.plainResponse);
                                        ("500", Some Samples.plainResponse)]));
               pi_put := None;
               pi_post := Some (Samples.operationWith
                                  (Some [("201", Some Samples.plainResponse);
                                         ("400", Some Samples.plainResponse)]));
               pi_delete := None; pi_options := None; pi_head := None;
               pi_patch := None; pi_trace := None; pi_nullish := [] |})]).

(** A [post] that answers 202 and 400 only. *)
Definition acceptedOnly : OpenAPISpec :=
  Samples.specWith (Some Samples.testInfo)
    (Some [("/jobs",
            {| pi_get := None; pi_put := None;
               pi_post := Some (Samples.operationWith
                                  (Some [("202", Some Samples.plainResponse);
                                         ("400", Some Samples.plainResponse)]));
               pi_delete := None; pi_options := None; pi_head := None;
               pi_patch := None; pi_trace := None; pi_nullish := [] |})]).

(** ** Grades *)

Definition gradeRank (g : Grade) : nat :=
  match g with F => 0 | D => 1 | C => 2 | B => 3 | A => 4 end.

(** The bands of the specification. *)
Definition inBand (s : Q) (g : Grade) : Prop :=
  match g with
  | A => 90 <= s
  | B => 80 <= s /\ s < 90
  | C => 70 <= s /\ s < 80
  | D => 60 <= s /\ s < 70
  | F => s < 60
  end.

(** A document that loses no point on Schema & Types: one well-typed
    reusable schema and no path. *)
Definition schemaOnly : OpenAPISpec :=
  {| openapi := Some "3.0.0";
     info := Some Samples.testInfo;
     servers := None;
     paths := Some [];
     components :=
       Some {| schemas :=
                 Some [("User",
                        {| s_type := AStr "object"; s_ref := AUndefined;
                           s_allOf := AUndefined; s_oneOf := AUndefined;
                           s_anyOf := AUndefined; s_properties := AObject;
                           s_additionalProperties := AUndefined |})];
               securitySchemes := None |};
     spec_security := None;
     tags := None |}.

(** All the weight on Schema & Types. *)
Definition onSchemaTypes (x : Q) : Weights :=
  {| schemaTypes := x; documentation := 0; pathsOperations := 0;
     responseCodes := 0; examples := 0; security := 0; bestPractices := 0 |}.

(** ** Documentation issues *)

Definition sameSeverity (a b : Severity) : bool :=
  match a, b with
  | low, low | medium, medium | high, high | critical, critical => true
  | _, _ => false
  end.

(** The issue [i] is about the operation under [m] at the path [p] and has
    the severity [sev]. *)
Definition isFor (p : string) (m : Method) (sev : Severity) (i : Issue) : bool :=
  String.eqb (path i) p
  && match operation i with
     | Some o => String.eqb o (methodName m)
     | None => false
     end
  && sameSeverity (severity i) sev.

Definition issuesFor (p : string) (m : Method) (sev : Severity) (l : list Issue) : nat :=
  List.length (filter (isFor p m sev) l).

Definition undocumented (op : Operation) : bool :=
  negb (truthyStr (op_summary op)) && negb (truthyStr (op_description op)).

(** The elements of an array that are objects. *)
Definition objects {T : Type} (l : list (option T)) : list T :=
  flat_map (fun x => match x with Some v => [v] | None => [] end) l.

Definition undescribedParameters (op : Operation) : list Param :=
  match op_parameters op with
  | Some parameters =>
      filter (fun q => negb (truthyStr (param_description q))) (objects parameters)
  | None => []
  end.

(** Every parameter of the operations under the five methods is an object. *)
Definition parametersAreObjects (item : PathItem) : bool :=
  forallb (fun m => match getOp item m with
                    | Some op =>
                        match op_parameters op with
                        | Some parameters => forallb present parameters
                        | None => true
                        end
                    | None => true
                    end) SE.methods.

Definition allParametersAreObjects (spec : OpenAPISpec) : bool :=
  match paths spec with
  | Some ps => forallb (fun entry => parametersAreObjects (snd entry)) ps
  | None => true
  end.

(** What the loop body of [checkPathDocumentation] pushes for one method. *)
Definition documentationIssues (p : string) (item : PathItem) (m : Method) : list Issue :=
  match getOp item m with
  | Some op =>
      (if undocumented op then [SE.undocumentedOperation p m] else [])
      ++ map (SE.undocumentedParameter p m) (undescribedParameters op)
  | None => []
  end.

(** What the loop of [scoreDocumentation] over the paths pushes. *)
Definition pathDocumentationIssues (spec : OpenAPISpec) : list Issue :=
  match paths spec with
  | Some ps =>
      flat_map (fun entry =>
                  flat_map (documentationIssues (fst entry) (snd entry)) SE.methods) ps
  | None => []
  end.

(** An operation with neither summary nor description and one parameter
    [id] without description. *)
Definition bareOperation : Operation :=
  {| op_tags := None; op_summary := None; op_description := None;
     op_parameters := Some [Some {| param_name := Some "id"; param_description := None |}];
     op_requestBody := None;
     op_responses := Some [("200", Some Samples.plainResponse)];
     op_security := None |}.

(** [/items/{id}] with that operation under [get] and under [options]. *)
Definition bareItem : PathItem :=
  {| pi_get := Some bareOperation; pi_put := None; pi_post := None;
     pi_delete := None; pi_options := Some bareOperation; pi_head := None;
     pi_patch := None; pi_trace := None; pi_nullish := [] |}.

Definition bareSpec : OpenAPISpec :=
  Samples.specWith (Some Samples.testInfo) (Some [("/items/{id}", bareItem)]).

(** The minimal document of the tests, its [get] with [parameters: [null]]. *)
Definition nullParameterSpec : OpenAPISpec :=
  Samples.specWith (Some Samples.testInfo)
    (Some [("/users",
            {| pi_get := Some {| op_tags := None; op_summary := None;
                                 op_description := None;
                                 op_parameters := Some [None];
                                 op_requestBody := None;
                                 op_responses := Some [("200", Some Samples.plainResponse)];
                                 op_security := None |};
               pi_put := None; pi_post := None; pi_delete := None;
               pi_options := None; pi_head := None; pi_patch := None;
               pi_trace := None; pi_nullish := [] |})]).

(** ** Counts and bounds of the report *)

(** The number of operations a path item has, over the eight methods. *)
Definition presentMethods (item : PathItem) : nat :=
  List.length (filter (fun m => present (getOp item m))
                      [GET; POST; PUT; PATCH; DELETE; OPTIONS; HEAD; TRACE]).

(** The path items of a document, none when [paths] is missing. *)
Definition pathItems (spec : OpenAPISpec) : list PathItem :=
  match paths spec with Some ps => map snd ps | None => [] end.

Definition totalWeight (w : Weights) : Q :=
  schemaTypes w + documentation w + pathsOperations w + responseCodes w
  + examples w + security w + bestPractices w.

(** ** Weights with which the engine computes exactly

    The engine computes in IEEE doubles, the embedding in rationals. The
    two agree as long as no operation rounds. Subtracting the penalties,
    which are whole numbers, from a weight below 2^53 does not round before
    the result is negative, and a negative result is replaced by 0 either
    way; the properties of one criterion's score are stated for such
    weights. The sum of the seven scores, its product by 100 and the
    quotient by 100 do not round when the weights are whole numbers whose
    total, times 100, stays within 2^53; the properties of the overall score
    and of the grade are stated for such weights, which the default ones
    are. With other weights the doubles may round (6.08 + 2.835 gives
    8.914999999999999, reported as 8.91), which a rational does not show. *)

Definition two53 : Q := 9007199254740992.

Definition belowTwo53 (w : Weights) : Prop :=
  schemaTypes w < two53 /\ documentation w < two53 /\ pathsOperations w < two53 /\
  responseCodes w < two53 /\ examples w < two53 /\ security w < two53 /\
  bestPractices w < two53.

(** A non-negative whole number. *)
Definition wholeNumber (q : Q) : Prop :=
  exists n : Z, (0 <= n)%Z /\ q == inject_Z n.

Definition wholeWeights (w : Weights) : Prop :=
  wholeNumber (schemaTypes w) /\ wholeNumber (documentation w) /\
  wholeNumber (pathsOperations w) /\ wholeNumber (responseCodes w) /\
  wholeNumber (examples w) /\ wholeNumber (security w) /\
  wholeNumber (bestPractices w) /\
  totalWeight w * 100 <= two53.

(** ** What the validator accepts *)

Definition versionSupported (spec : OpenAPISpec) : bool :=
  match openapi spec with Some v => String.prefix "3." v | None => false end.

Definition infoComplete (spec : OpenAPISpec) : bool :=
  match info spec with
  | Some i => truthyStr (title i) && truthyStr (version i)
  | None => false
  end.

(** Every operation of the path item, under the eight methods, has
    [responses]. *)
Definition operationsRespond (item : PathItem) : bool :=
  forallb (fun m => match getOp item m with
                    | Some op => present (op_responses op)
                    | None => true
                    end)
          [GET; PUT; POST; DELETE; OPTIONS; HEAD; PATCH; TRACE].

Definition pathsWellFormed (spec : OpenAPISpec) : bool :=
  match paths spec with
  | Some ps =>
      forallb (fun entry => startsWithChar "/" (fst entry) && operationsRespond (snd entry)) ps
  | None => false
  end.

Definition schemesTyped (spec : OpenAPISpec) : bool :=
  match components spec with
  | Some c =>
      match securitySchemes c with
      | Some schemes => forallb (fun entry => truthyStr (scheme_type (snd entry))) schemes
      | None => true
      end
  | None => true
  end.

Definition isNil {T : Type} (l : list T) : bool :=
  match l with [] => true | _ :: _ => false end.

(** ** The operations the evaluators examine *)

(** The operations under [get], [post], [put], [patch] and [delete], path
    by path, each with its path and method. *)
Definition examinedOperations (spec : OpenAPISpec) : list (string * Method * Operation) :=
  match paths spec with
  | Some ps =>
      flat_map (fun entry =>
                  flat_map (fun m => match getOp (snd entry) m with
                                     | Some op => [(fst entry, m, op)]
                                     | None => []
                                     end) SE.methods) ps
  | None => []
  end.

(** The request body or one of the responses carries an example. *)
Definition carriesExample (op : Operation) : bool :=
  SE.hasExamplesInContent (op_requestBody op)
  || match op_responses op with
     | Some responses => existsb (fun r => SE.hasExamplesInContent (snd r)) responses
     | None => false
     end.

(** The issue literal of [checkExamples]. *)
Definition exampleIssue (p : string) (m : Method) : Issue :=
  {| path := p;
     operation := Some (methodName m);
     location := "examples";
     description := "Operation lacks examples";
     severity := low;
     suggestion := "Add examples to request/response bodies for better documentation";
     criterion := "Examples & Samples" |}.

(** The three issue literals of [scoreSecurity] and [checkOperationSecurity]. *)
Definition noSchemesIssue : Issue :=
  {| path := "/components/securitySchemes";
     operation := None;
     location := "components";
     description := "No security schemes defined";
     severity := high;
     suggestion := "Define appropriate security schemes (OAuth2, API Key, etc.)";
     criterion := "Security" |}.

Definition noGlobalSecurityIssue : Issue :=
  {| path := "/security";
     operation := None;
     location := "root";
     description := "No global security requirements defined";
     severity := medium;
     suggestion := "Define global security requirements or ensure operations have individual security";
     criterion := "Security" |}.

Definition unsecuredOperationIssue (p : string) (m : Method) : Issue :=
  {| path := p;
     operation := Some (methodName m);
     location := "security";
     description := "Operation has no security requirements";
     severity := medium;
     suggestion := "Define security requirements for the operation";
     criterion := "Security" |}.

(** The issues of the examined operations that [flagged] holds of, one
    each, in order. *)
Definition issuesOfOperations (mk : string -> Method -> Issue)
    (flagged : Operation -> bool) (spec : OpenAPISpec) : list Issue :=
  map (fun e => mk (fst (fst e)) (snd (fst e)))
      (filter (fun e => flagged (snd e)) (examinedOperations spec)).

(** What a loop over the five methods pushes when it pushes [mk p method]
    for the operations [flagged] holds of. *)
Definition flaggedMethods (mk : string -> Method -> Issue) (flagged : Operation -> bool)
    (p : string) (item : PathItem) : list Issue :=
  flat_map (fun m => match getOp item m with
                     | Some op => if flagged op then [mk p m] else []
                     | None => []
                     end) SE.methods.

(** ** Schemas, colours *)

(** The schema says what it is: a type, a reference or a composition. *)
Definition discriminated (s : Schema) : bool :=
  truthy (s_type s) || truthy (s_ref s) || truthy (s_allOf s)
  || truthy (s_oneOf s) || truthy (s_anyOf s).

(** An [object] with neither properties nor additional properties. *)
Definition bareObject (s : Schema) : bool :=
  match s_type s with AStr t => String.eqb t "object" | _ => false end
  && negb (truthy (s_properties s)) && negb (truthy (s_additionalProperties s)).

(** The colour that goes with a grade. *)
Definition gradeColor (g : Grade) : string :=
  match g with
  | A => "#28a745" | B => "#17a2b8" | C => "#ffc107" | D => "#fd7e14" | F => "#dc3545"
  end.

(** ** Tags *)

(** The names of the top-level [tags], none when [tags] is missing. *)
Definition definedTagNames (spec : OpenAPISpec) : list string :=
  match tags spec with Some ts => map tag_name ts | None => [] end.

(** Some operation under the five methods lists the tag [t]. *)
Definition tagUsed (spec : OpenAPISpec) (t : string) : Prop :=
  exists e ts,
    In e (examinedOperations spec) /\ op_tags (snd e) = Some ts /\ In t ts.

(** The number of operations under the five methods without any tag. *)
Definition untaggedOperations (spec : OpenAPISpec) : nat :=
  List.length (filter (fun e => negb (nonEmptyArr (op_tags (snd e))))
                      (examinedOperations spec)).

(** The two issue literals of [checkTagsUsage]. *)
Definition undefinedTagIssue (usedTag : string) : Issue :=
  {| path := "/tags";
     operation := None;
     location := "tags";
     description := "Tag " ^^ dq ^^ usedTag ^^ dq ^^ " is used but not defined";
     severity := low;
     suggestion := "Define all tags in the tags array with descriptions";
     criterion := "Best Practices" |}.

Definition untaggedIssue (operationsWithoutTags : nat) : Issue :=
  {| path := "/paths";
     operation := None;
     location := "operations";
     description := showNat operationsWithoutTags ^^ " operations are not tagged";
     severity := low;
     suggestion := "Add tags to operations for better organization";
     criterion := "Best Practices" |}.

(** ** Resources and their operations *)

(** The resource a path belongs to: its last segment that is neither empty
    nor a placeholder, when there is one. *)
Definition resourceOf (p : string) : option string :=
  let segments := filter (fun s => negb (str_empty s) && negb (startsWithChar "{" s))
                         (split "/" p) in
  if (0 <? List.length segments)%nat then Some (last segments EmptyString) else None.

Definition hasResource (r : string) (p : string) : bool :=
  match resourceOf p with Some r' => String.eqb r' r | None => false end.

(** The number of keys a path item has among the five methods, whether
    the key holds an operation or a nullish value. *)
Definition crudMethods (item : PathItem) : nat :=
  List.length (filter (fun k => present (getOp item k)
                                || existsb (sameMethod k) (pi_nullish item))
                      SE.methods).

(** The issue literal of [checkCrudConsistency]. *)
Definition singleOperationIssue (resource_path : string * string) : Issue :=
  {| path := snd resource_path;
     operation := None;
     location := "operations";
     description := "Resource " ^^ dq ^^ fst resource_path ^^ dq ^^ " only has one operation";
     severity := low;
     suggestion := "Consider implementing full CRUD operations for resources";
     criterion := "Paths & Operations" |}.

(** The resource [r] has the single path [p], whose item has exactly one
    key among the five methods. *)
Definition singleOperationResource (ps : Paths) (r p : string) : Prop :=
  exists item,
    In (p, item) ps /\ resourceOf p = Some r /\
    (forall q, In q (map fst ps) -> resourceOf q = Some r -> q = p) /\
    crudMethods item = 1%nat.

(** The entries of the [resources] map after the paths [seen]: each
    resource with the paths of [seen] that belong to it, in order. *)
Definition groupsOf (seen : list string) (m : list (string * list string)) : Prop :=
  NoDup (map fst m) /\
  forall r v, In (r, v) m <-> v = filter (hasResource r) seen /\ v <> [].

(** ** What every issue carries *)

(** A helper that pushes only issues satisfying [P]. *)
Definition pushesOnly (P : Issue -> Prop) (c : Check) : Prop :=
  forall arr, Forall P arr -> Forall P (c arr).

(** The issue names no operation, or one under the five methods. *)
Definition namesExaminedOperation (i : Issue) : Prop :=
  operation i = None \/ exists m, In m SE.methods /\ operation i = Some (methodName m).

(** An issue of the criterion [name] that is not critical. *)
Definition ordinary (name : string) (i : Issue) : Prop :=
  criterion i = name /\ severity i <> critical /\ namesExaminedOperation i.

(** The names of the seven criteria, in the order of the report. *)
Definition criteriaNames : list string :=
  [ "Schema & Types"; "Descriptions & Documentation"; "Paths & Operations";
    "Response Codes"; "Examples & Samples"; "Security"; "Best Practices" ].

(** ** Operations that respond as Response Codes asks *)

(** The operation has no [responses], or its status codes pass the three
    checks of [checkOperationResponses]. *)
Definition respondsWell (m : Method) (op : Operation) : Prop :=
  op_responses op = None
  \/ (definesSuccessAndError m op = true /\ followsMethodConvention m op = true).

(** ** Bodies that carry a schema *)

(** The request body or response has a schema of its own, or one of its
    content types has. *)
Definition carriesSchema (b : Body) : Prop :=
  truthy (b_schema b) = true
  \/ exists content name m,
       b_content b = Some content /\ In (name, Some m) content
       /\ truthy (mt_schema m) = true.

(** The request body of the operation, when there is one, and each of its
    responses that is an object carry a schema. *)
Definition schemasDeclared (op : Operation) : Prop :=
  (forall b, op_requestBody op = Some b -> carriesSchema b) /\
  (forall responses code r,
     op_responses op = Some responses -> In (code, Some r) responses -> carriesSchema r).

(** There are reusable schemas, and each says what it is and, when an
    object, what it holds. *)
Definition reusableSchemasSound (spec : OpenAPISpec) : Prop :=
  nonEmptyArr (SE.componentSchemas spec) = true /\
  forall entries n s,
    SE.componentSchemas spec = Some entries -> In (n, s) entries ->
    discriminated s = true /\ bareObject s = false.

(** ** The part of a document the evaluators read *)

(** The path item without its operations under options, head and trace. *)
Definition withoutUnexamined (item : PathItem) : PathItem :=
  {| pi_get := pi_get item; pi_put := pi_put item; pi_post := pi_post item;
     pi_delete := pi_delete item; pi_options := None; pi_head := None;
     pi_patch := pi_patch item; pi_trace := None;
     pi_nullish := pi_nullish item |}.

Definition examinedEntry (entry : string * PathItem) : string * PathItem :=
  (fst entry, withoutUnexamined (snd entry)).

(** The document without the operations under options, head and trace. *)
Definition examinedPart (spec : OpenAPISpec) : OpenAPISpec :=
  {| openapi := openapi spec;
     info := info spec;
     servers := servers spec;
     paths := option_map (map examinedEntry) (paths spec);
     components := components spec;
     spec_security := spec_security spec;
     tags := tags spec |}.

(** Two reports that differ in their operation counts at most. *)
Definition sameButOperationCount (rep rep' : ScoringReport) : Prop :=
  results rep = results rep' /\ overallScore rep = overallScore rep' /\
  grade rep = grade rep' /\ report_maxScore rep = report_maxScore rep' /\
  totalIssues rep = totalIssues rep' /\ summary rep = summary rep' /\
  timestamp rep = timestamp rep' /\
  si_title (specInfo rep) = si_title (specInfo rep') /\
  si_version (specInfo rep) = si_version (specInfo rep') /\
  pathCount (specInfo rep) = pathCount (specInfo rep').

(** [bareSpec] without the operation under [options]. *)
Definition bareSpecGetOnly : OpenAPISpec :=
  Samples.specWith (Some Samples.testInfo)
    (Some [("/items/{id}",
            {| pi_get := Some bareOperation; pi_put := None; pi_post := None;
               pi_delete := None; pi_options := None; pi_head := None;
               pi_patch := None; pi_trace := None; pi_nullish := [] |})]).

(** ** Documents without operations *)



(** * Properties *)

(** ** Pushers only append *)

Section Pushers.
Context {T : Type}.

Lemma appendOnly_push (x : T) : appendOnly (push x).
Proof. intro arr. reflexivity. Qed.

Lemma appendOnly_skip : appendOnly (@skip T).
Proof. intro arr. unfold skip, emitted. now rewrite app_nil_r. Qed.

Lemma appendOnly_when (b : bool) (c : Pusher T) :
  appendOnly c -> appendOnly (when b c).
Proof. destruct b; simpl; auto using appendOnly_skip. Qed.

Lemma emitted_andThen (c1 c2 : Pusher T) :
  appendOnly c2 -> emitted (c1 ;; c2) = emitted c1 ++ emitted c2.
Proof. intros H2. unfold emitted, andThen. now rewrite H2. Qed.

Lemma appendOnly_andThen (c1 c2 : Pusher T) :
  appendOnly c1 -> appendOnly c2 -> appendOnly (c1 ;; c2).
Proof.
  intros H1 H2 arr. rewrite emitted_andThen by assumption.
  unfold andThen. rewrite H2, H1. now rewrite app_assoc.
Qed.

Lemma forEach_cons {X : Type} (x : X) (xs : list X) (body : X -> Pusher T) arr :
  forEach (x :: xs) body arr = forEach xs body (body x arr).
Proof. reflexivity. Qed.

Lemma forEach_flat_map {X : Type} (xs : list X) (body : X -> Pusher T) :
  (forall x, In x xs -> appendOnly (body x)) ->
  forall arr, forEach xs body arr = arr ++ flat_map (fun x => emitted (body x)) xs.
Proof.
  induction xs as [|x xs IH]; intros Hbody arr.
  - simpl. now rewrite app_nil_r.
  - rewrite forEach_cons, IH by (intros; apply Hbody; now right).
    rewrite (Hbody x) by now left. simpl. now rewrite app_assoc.
Qed.

Lemma emitted_forEach {X : Type} (xs : list X) (body : X -> Pusher T) :
  (forall x, In x xs -> appendOnly (body x)) ->
  emitted (forEach xs body) = flat_map (fun x => emitted (body x)) xs.
Proof. intros H. unfold emitted at 1. now rewrite forEach_flat_map. Qed.

Lemma appendOnly_forEach {X : Type} (xs : list X) (body : X -> Pusher T) :
  (forall x, appendOnly (body x)) -> appendOnly (forEach xs body).
Proof.
  intros H arr. rewrite emitted_forEach by auto. apply forEach_flat_map. auto.
Qed.

(** A loop whose body throws [e] on the elements that are not [good] and
    pushes [f x] on the others. *)
Lemma thrown_stays_thrown {X : Type} (xs : list X) (body : X -> Fallible T) (e : string) :
  fold_left (fun acc x => bind acc (body x)) xs (Throw e) = Throw e.
Proof. induction xs as [|x xs IH]; [reflexivity|exact IH]. Qed.

Lemma forEachF_cases {X : Type} (xs : list X) (body : X -> Fallible T)
    (good : X -> bool) (f : X -> list T) (e : string) :
  (forall x, In x xs ->
     forall arr, body x arr = if good x then Ok (arr ++ f x) else Throw e) ->
  forall arr,
    forEachF xs body arr
    = if forallb good xs then Ok (arr ++ flat_map f xs) else Throw e.
Proof.
  unfold forEachF. induction xs as [|x xs IH]; intros Hbody arr.
  - simpl. now rewrite app_nil_r.
  - simpl. rewrite (Hbody x) by now left. destruct (good x); simpl.
    + rewrite IH by (intros; apply Hbody; now right).
      destruct (forallb good xs); [|reflexivity]. now rewrite app_assoc.
    + apply thrown_stays_thrown.
Qed.
End Pushers.

(** Decides that a helper built from the combinators is append-only, going
    under the binders and the case analyses of its body. *)
Ltac append_only :=
  repeat
    (cbv zeta beta iota;
     lazymatch goal with
     | |- appendOnly (push _) => apply appendOnly_push
     | |- appendOnly skip => apply appendOnly_skip
     | |- appendOnly (when _ _) => apply appendOnly_when
     | |- appendOnly (_ ;; _) => apply appendOnly_andThen
     | |- appendOnly (forEach _ _) => apply appendOnly_forEach; intros
     | |- appendOnly (match ?x with _ => _ end) => destruct x; cbv iota beta
     end).

Module EngineFacts.
Import ScoringEngine.

Lemma validateSchemaTypes_appendOnly n s : appendOnly (validateSchemaTypes n s).
Proof. unfold validateSchemaTypes. append_only. Qed.

Lemma checkOperationSchemas_appendOnly spec : appendOnly (checkOperationSchemas spec).
Proof. unfold checkOperationSchemas. append_only. Qed.

Lemma undescribed_objects (p : string) (m : Method) (parameters : list (option Param)) :
  flat_map (fun param =>
              match param with
              | Some q => if negb (truthyStr (param_description q))
                          then [undocumentedParameter p m q] else []
              | None => []
              end) parameters
  = map (undocumentedParameter p m)
        (filter (fun q => negb (truthyStr (param_description q))) (objects parameters)).
Proof.
  induction parameters as [|[q|] parameters IH]; simpl; [reflexivity| |exact IH].
  destruct (negb (truthyStr (param_description q))); simpl; now rewrite IH.
Qed.

(** [checkPathDocumentation] returns exactly when every parameter of the
    operations it examines is an object, and then it has pushed the issues
    of each method in turn. *)
Lemma checkPathDocumentation_result p item arr :
  checkPathDocumentation p item arr
  = if parametersAreObjects item
    then Ok (arr ++ flat_map (documentationIssues p item) methods)
    else Throw TypeError.
Proof.
  unfold checkPathDocumentation, parametersAreObjects.
  apply forEachF_cases. intros m _ arr'.
  unfold documentationIssues, undescribedParameters, undocumented.
  destruct (getOp item m) as [op|];
    [|unfold returning, skip; now rewrite app_nil_r].
  unfold andThenF, returning. cbn [bind].
  destruct (op_parameters op) as [parameters|].
  - rewrite (forEachF_cases parameters _ present
               (fun param =>
                  match param with
                  | Some q => if negb (truthyStr (param_description q))
                              then [undocumentedParameter p m q] else []
                  | None => []
                  end) TypeError).
    + destruct (forallb present parameters); [|reflexivity].
      rewrite undescribed_objects.
      destruct (negb (truthyStr (op_summary op)) && negb (truthyStr (op_description op)));
        simpl; unfold push, skip; now rewrite <- ?app_assoc.
    + intros [q|] _ arr''; [|reflexivity]. simpl.
      destruct (negb (truthyStr (param_description q))); simpl; unfold push, skip;
        [reflexivity|now rewrite app_nil_r].
  - unfold skip.
    destruct (negb (truthyStr (op_summary op)) && negb (truthyStr (op_description op)));
      simpl; unfold push, skip; now rewrite ?app_nil_r.
Qed.

Lemma checkPathNaming_appendOnly ps : appendOnly (checkPathNaming ps).
Proof. unfold checkPathNaming. append_only. Qed.

Lemma checkCrudConsistency_appendOnly ps : appendOnly (checkCrudConsistency ps).
Proof.
  unfold checkCrudConsistency. apply appendOnly_forEach. intros [resource resourcePaths].
  destruct resourcePaths as [|p [|q rest]]; append_only.
Qed.

Lemma overlapLoop_appendOnly keys : appendOnly (overlapLoop keys).
Proof. induction keys; simpl; append_only. assumption. Qed.

Lemma checkOverlappingPaths_appendOnly ps : appendOnly (checkOverlappingPaths ps).
Proof. apply overlapLoop_appendOnly. Qed.

Lemma checkMethodSpecificResponses_appendOnly p m op :
  appendOnly (checkMethodSpecificResponses p m op).
Proof. unfold checkMethodSpecificResponses. destruct m; append_only. Qed.

Lemma checkOperationResponses_appendOnly p item :
  appendOnly (checkOperationResponses p item).
Proof.
  unfold checkOperationResponses. append_only.
  apply checkMethodSpecificResponses_appendOnly.
Qed.

Lemma checkExamples_appendOnly p item : appendOnly (checkExamples p item).
Proof.
  unfold checkExamples. apply appendOnly_forEach. intros m.
  destruct (getOp item m) as [op|]; [|append_only].
  cbv zeta. apply appendOnly_when. apply appendOnly_push.
Qed.

Lemma checkOperationSecurity_appendOnly spec : appendOnly (checkOperationSecurity spec).
Proof. unfold checkOperationSecurity. append_only. Qed.

Lemma checkTagsUsage_appendOnly spec : appendOnly (checkTagsUsage spec).
Proof.
  unfold checkTagsUsage. destruct (paths spec); [|append_only].
  cbv zeta. apply appendOnly_andThen; [|apply appendOnly_when, appendOnly_push].
  apply appendOnly_forEach. intros. apply appendOnly_when, appendOnly_push.
Qed.

Lemma checkComponentReuse_appendOnly spec : appendOnly (checkComponentReuse spec).
Proof. unfold checkComponentReuse. append_only. Qed.

End EngineFacts.

(** ** The severity table and the deduction *)

Lemma calculateDeduction_from (l : list Issue) (n : Z) :
  fold_left (fun sum issue =>
               match severity issue with
               | critical => sum + 5
               | high => sum + 3
               | medium => sum + 2
               | low => sum + 1
               end)%Z l n = (n + totalDeduction l)%Z.
Proof.
  revert n. induction l as [|i l IH]; intro n; simpl.
  - lia.
  - rewrite IH. unfold penalty. destruct (severity i); lia.
Qed.

Lemma calculateDeduction_total (l : list Issue) :
  SE.calculateDeduction l = totalDeduction l.
Proof. unfold SE.calculateDeduction. now rewrite calculateDeduction_from. Qed.

Lemma totalDeduction_nonneg (l : list Issue) : (0 <= totalDeduction l)%Z.
Proof.
  induction l as [|i l IH]; simpl; [lia|].
  unfold penalty. destruct (severity i); lia.
Qed.

Lemma totalDeduction_app (l1 l2 : list Issue) :
  totalDeduction (l1 ++ l2) = (totalDeduction l1 + totalDeduction l2)%Z.
Proof. induction l1 as [|i l1 IH]; simpl; [reflexivity|]. rewrite IH. lia. Qed.

(** ** The loop of [scoreDocumentation] *)

Lemma documentation_loop (spec : OpenAPISpec) (arr : list Issue) :
  match paths spec with
  | Some ps =>
      forEachF ps (fun '(path, pathItem) => SE.checkPathDocumentation path pathItem) arr
  | None => Ok arr
  end
  = if allParametersAreObjects spec
    then Ok (arr ++ pathDocumentationIssues spec)
    else Throw TypeError.
Proof.
  unfold allParametersAreObjects, pathDocumentationIssues.
  destruct (paths spec) as [ps|]; [|now rewrite app_nil_r].
  apply forEachF_cases. intros [p item] _ arr'.
  apply EngineFacts.checkPathDocumentation_result.
Qed.

(** ** C1: the score of a criterion *)

Lemma scoredOutOf_intro (w x : Q) (fixed : Z) (l : list Issue) (name : string) :
  x == w - inject_Z fixed ->
  scoredOutOf {| r_criterion := name;
                 score := SE.Math_max 0 (x - inject_Z (SE.calculateDeduction l));
                 maxScore := w; weight := w;
                 weightedScore := SE.Math_max 0 (x - inject_Z (SE.calculateDeduction l));
                 issues := l |} w fixed.
Proof.
  intro Hx. repeat (split; [reflexivity|]). simpl. unfold SE.Math_max.
  rewrite calculateDeduction_total. apply Q.max_compat; [reflexivity|].
  now rewrite Hx.
Qed.

Lemma scoreSchemaTypes_formula (this : Weights) (spec : OpenAPISpec) :
  scoredOutOf (SE.scoreSchemaTypes this spec) (schemaTypes this) (fixedSchemaTypes spec).
Proof.
  unfold SE.scoreSchemaTypes. cbv zeta. apply scoredOutOf_intro.
  unfold fixedSchemaTypes. destruct (nonEmptyArr _); simpl; ring.
Qed.

Lemma scoreDocumentation_formula (this : Weights) (spec : OpenAPISpec) (r : ScoreResult) :
  SE.scoreDocumentation this spec = Ok r ->
  scoredOutOf r (documentation this) (fixedDocumentation spec).
Proof.
  unfold SE.scoreDocumentation, fixedDocumentation. cbv zeta.
  destruct (info spec) as [i|]; [|discriminate].
  rewrite documentation_loop.
  destruct (allParametersAreObjects spec); [|discriminate].
  cbn [bind]. intros [= <-]. apply scoredOutOf_intro.
  destruct (truthyStr _); simpl; ring.
Qed.

Lemma scorePathsOperations_formula (this : Weights) (spec : OpenAPISpec) (ps : Paths) :
  paths spec = Some ps ->
  scoredOutOf (SE.scorePathsOperations this spec) (pathsOperations this) 0.
Proof.
  intro E. unfold SE.scorePathsOperations. cbv zeta. rewrite E.
  apply scoredOutOf_intro. simpl. ring.
Qed.

Lemma scoreResponseCodes_formula (this : Weights) (spec : OpenAPISpec) :
  scoredOutOf (SE.scoreResponseCodes this spec) (responseCodes this) 0.
Proof.
  unfold SE.scoreResponseCodes. cbv zeta. apply scoredOutOf_intro. simpl. ring.
Qed.

Lemma scoreExamples_formula (this : Weights) (spec : OpenAPISpec) :
  scoredOutOf (SE.scoreExamples this spec) (examples this) 0.
Proof.
  unfold SE.scoreExamples. cbv zeta. apply scoredOutOf_intro. simpl. ring.
Qed.

Lemma scoreSecurity_formula (this : Weights) (spec : OpenAPISpec) :
  scoredOutOf (SE.scoreSecurity this spec) (security this) (fixedSecurity spec).
Proof.
  unfold SE.scoreSecurity. cbv zeta. apply scoredOutOf_intro.
  unfold fixedSecurity.
  destruct (nonEmptyArr (SE.componentSecuritySchemes spec));
    destruct (nonEmptyArr (spec_security spec)); simpl; ring.
Qed.

Lemma scoreBestPractices_formula (this : Weights) (spec : OpenAPISpec) (r : ScoreResult) :
  SE.scoreBestPractices this spec = Ok r ->
  scoredOutOf r (bestPractices this) (fixedBestPractices spec).
Proof.
  unfold SE.scoreBestPractices, fixedBestPractices. cbv zeta.
  destruct (info spec) as [i|]; [|discriminate].
  intros [= <-]. apply scoredOutOf_intro.
  destruct (version i) as [v|]; simpl;
    [destruct (str_empty v); destruct (String.eqb v "1.0.0")|];
    destruct (nonEmptyArr (servers spec)); simpl; ring.
Qed.

(** The report of [score] holds the seven results, in the order of the
    evaluators. *)
Lemma score_results (this : Weights) (spec : OpenAPISpec) (now : string)
    (rep : ScoringReport) :
  SE.score this spec now = Ok rep ->
  exists doc best,
    SE.scoreDocumentation this spec = Ok doc /\
    SE.scoreBestPractices this spec = Ok best /\
    results rep =
      [ SE.scoreSchemaTypes this spec; doc; SE.scorePathsOperations this spec;
        SE.scoreResponseCodes this spec; SE.scoreExamples this spec;
        SE.scoreSecurity this spec; best ].
Proof.
  unfold SE.score. cbv zeta.
  destruct (SE.scoreDocumentation this spec) as [doc|]; [|discriminate].
  destruct (SE.scoreBestPractices this spec) as [best|]; [|discriminate].
  simpl. intros [= <-]. exists doc, best. auto.
Qed.

(** In the report of [score] each result is scored as its evaluator
    scores it. *)
Lemma results_scoredOutOf
    (this : Weights) (spec : OpenAPISpec) (now : string) (rep : ScoringReport) :
  SE.score this spec now = Ok rep ->
  exists r1 r2 r3 r4 r5 r6 r7,
    results rep = [r1; r2; r3; r4; r5; r6; r7] /\
    scoredOutOf r1 (schemaTypes this) (fixedSchemaTypes spec) /\
    scoredOutOf r2 (documentation this) (fixedDocumentation spec) /\
    match paths spec with
    | Some _ => scoredOutOf r3 (pathsOperations this) 0
    | None =>
        weight r3 = pathsOperations this /\ maxScore r3 = pathsOperations this /\
        weightedScore r3 = score r3 /\ score r3 == 0
    end /\
    scoredOutOf r4 (responseCodes this) 0 /\
    scoredOutOf r5 (examples this) 0 /\
    scoredOutOf r6 (security this) (fixedSecurity spec) /\
    scoredOutOf r7 (bestPractices this) (fixedBestPractices spec).
Proof.
  intro H. destruct (score_results _ _ _ _ H) as (doc & best & Hd & Hb & Hr).
  exists (SE.scoreSchemaTypes this spec), doc, (SE.scorePathsOperations this spec),
    (SE.scoreResponseCodes this spec), (SE.scoreExamples this spec),
    (SE.scoreSecurity this spec), best.
  split; [exact Hr|].
  split; [apply scoreSchemaTypes_formula|].
  split; [now apply scoreDocumentation_formula|].
  split.
  { destruct (paths spec) as [ps|] eqn:E.
    - now apply scorePathsOperations_formula with ps.
    - unfold SE.scorePathsOperations. cbv zeta. rewrite E. simpl.
      repeat split; reflexivity. }
  split; [apply scoreResponseCodes_formula|].
  split; [apply scoreExamples_formula|].
  split; [apply scoreSecurity_formula|].
  now apply scoreBestPractices_formula.
Qed.

(** C1, as the code has it: in the report of every document each of the
    seven criteria is scored [max(0, weight - fixed - deduction)], where
    [deduction] sums the severity table (critical 5, high 3, medium 2, low 1)
    over the criterion's issues and [fixed] is what the evaluator subtracts
    besides: 5 for Schema & Types without reusable schemas, 2 for
    Documentation without [info.description], 5 and 3 for Security without
    security schemes and without global security, 1 and 2 for Best Practices
    with a default or empty version and without servers, and nothing for
    Paths & Operations, Response Codes and Examples; when [paths] is missing
    Paths & Operations scores 0 whatever the weight. The weights are below
    2^53, where the engine's subtractions are exact. *)
Theorem criterion_score_is_weight_less_fixed_and_table
    (this : Weights) (spec : OpenAPISpec) (now : string) (rep : ScoringReport) :
  belowTwo53 this ->
  SE.score this spec now = Ok rep ->
  exists r1 r2 r3 r4 r5 r6 r7,
    results rep = [r1; r2; r3; r4; r5; r6; r7] /\
    scoredOutOf r1 (schemaTypes this) (fixedSchemaTypes spec) /\
    scoredOutOf r2 (documentation this) (fixedDocumentation spec) /\
    match paths spec with
    | Some _ => scoredOutOf r3 (pathsOperations this) 0
    | None =>
        weight r3 = pathsOperations this /\ maxScore r3 = pathsOperations this /\
        weightedScore r3 = score r3 /\ score r3 == 0
    end /\
    scoredOutOf r4 (responseCodes this) 0 /\
    scoredOutOf r5 (examples this) 0 /\
    scoredOutOf r6 (security this) (fixedSecurity spec) /\
    scoredOutOf r7 (bestPractices this) (fixedBestPractices spec).
Proof. intros _. exact (results_scoredOutOf this spec now rep). Qed.

Lemma default_weights_belowTwo53 : belowTwo53 SE.defaultWeights.
Proof. unfold belowTwo53. simpl. repeat split; reflexivity. Qed.

(** The minimal document of the tests under the default weights: Schema &
    Types is scored 11 = 20 - 5 - (2 + 2). *)
Lemma criterion_score_witness :
  exists rep r1 r2 r3 r4 r5 r6 r7,
    SE.score SE.defaultWeights Samples.minimalSpec "2024-01-01T00:00:00.000Z" = Ok rep /\
    results rep = [r1; r2; r3; r4; r5; r6; r7] /\
    scoredOutOf r1 20 5 /\ score r1 == 11.
Proof.
  destruct (SE.score SE.defaultWeights Samples.minimalSpec "2024-01-01T00:00:00.000Z")
    as [rep|e] eqn:E; [|discriminate E].
  destruct (criterion_score_is_weight_less_fixed_and_table _ _ _ _
              default_weights_belowTwo53 E)
    as (r1 & r2 & r3 & r4 & r5 & r6 & r7 & Hr & H1 & _).
  exists rep, r1, r2, r3, r4, r5, r6, r7.
  split; [reflexivity|]. split; [exact Hr|]. split; [exact H1|].
  vm_compute in E. injection E as <-. injection Hr as <- _.
  vm_compute. reflexivity.
Defined.

(** C1 as the specification words it fails: for the minimal document of
    the tests Schema & Types is scored 11, and the table's formula gives
    16 = 20 - (2 + 2). *)
Lemma table_formula_fails_on_minimal_spec :
  exists rep,
    SE.score SE.defaultWeights Samples.minimalSpec "2024-01-01T00:00:00.000Z" = Ok rep /\
    ~ Forall (fun r => score r == tableScore r) (results rep).
Proof.
  eexists. split; [vm_compute; reflexivity|].
  intro H. inversion H as [|r l H1 _]. vm_compute in H1. discriminate H1.
Qed.

(** ** C2: the overall score and the range of a criterion's score *)

Lemma reduce_sumWeighted (l : list ScoreResult) (start : Q) :
  fold_left (fun sum result => sum + weightedScore result) l start
  == start + sumWeighted l.
Proof.
  revert start. induction l as [|r l IH]; intro start; simpl.
  - ring.
  - rewrite IH. ring.
Qed.


Lemma scoredOutOf_range (r : ScoreResult) (w : Q) (fixed : Z) :
  0 <= w -> (0 <= fixed)%Z -> scoredOutOf r w fixed ->
  0 <= score r /\ score r <= weight r.
Proof.
  intros Hw Hf (Hweight & _ & _ & Hs). rewrite Hs, Hweight. split.
  - apply Q.le_max_l.
  - apply Q.max_lub; [exact Hw|].
    pose proof (totalDeduction_nonneg (issues r)) as Hd.
    assert (0 <= inject_Z fixed) as Hf' by (change 0 with (inject_Z 0); now rewrite <- Zle_Qle).
    assert (0 <= inject_Z (totalDeduction (issues r))) as Hd'
        by (change 0 with (inject_Z 0); now rewrite <- Zle_Qle).
    setoid_replace w with (w - 0 - 0) at 2 by ring.
    apply Qplus_le_compat; [apply Qplus_le_compat; [apply Qle_refl|]|];
      now apply Qopp_le_compat.
Qed.

Lemma fixedPenalties_nonneg (spec : OpenAPISpec) :
  (0 <= fixedSchemaTypes spec)%Z /\ (0 <= fixedDocumentation spec)%Z /\
  (0 <= fixedSecurity spec)%Z /\ (0 <= fixedBestPractices spec)%Z.
Proof.
  unfold fixedSchemaTypes, fixedDocumentation, fixedSecurity, fixedBestPractices.
  repeat split;
    repeat match goal with
           | |- context [match ?x with _ => _ end] => destruct x
           end; lia.
Qed.

(** The aggregate fields of the report, in terms of its results. *)
Lemma score_aggregates (this : Weights) (spec : OpenAPISpec) (now : string)
    (rep : ScoringReport) :
  SE.score this spec now = Ok rep ->
  let overall := fold_left (fun sum result => sum + weightedScore result) (results rep) 0 in
  overallScore rep = inject_Z (SE.Math_round (overall * 100)) / 100 /\
  grade rep = SE.calculateGrade overall /\
  report_maxScore rep = 100 /\
  timestamp rep = now.
Proof.
  unfold SE.score. cbv zeta.
  destruct (SE.scoreDocumentation this spec) as [doc|]; [|discriminate].
  destruct (SE.scoreBestPractices this spec) as [best|]; [|discriminate].
  simpl. intros [= <-]. simpl. auto.
Qed.

Lemma Qmax_inject_Z (a b : Z) : Qmax (inject_Z a) (inject_Z b) == inject_Z (Z.max a b).
Proof.
  destruct (Z.max_spec a b) as [[H ->]|[H ->]].
  - apply Q.max_r. rewrite <- Zle_Qle. lia.
  - apply Q.max_l. now rewrite <- Zle_Qle.
Qed.

(** With a whole weight the score of a criterion is a whole number. *)
Lemma scoredOutOf_whole (r : ScoreResult) (w : Q) (fixed n : Z) :
  scoredOutOf r w fixed -> w == inject_Z n ->
  weightedScore r == inject_Z (Z.max 0 (n - fixed - totalDeduction (issues r))).
Proof.
  intros (_ & _ & -> & Hs) Hw. rewrite Hs, Hw, <- Qmax_inject_Z.
  apply Q.max_compat; [reflexivity|].
  unfold Z.sub. rewrite !inject_Z_plus, !inject_Z_opp. reflexivity.
Qed.

Lemma wholeWeights_nonNegative (w : Weights) : wholeWeights w -> nonNegativeWeights w.
Proof.
  intros ((n1 & P1 & E1) & (n2 & P2 & E2) & (n3 & P3 & E3) & (n4 & P4 & E4)
          & (n5 & P5 & E5) & (n6 & P6 & E6) & (n7 & P7 & E7) & _).
  unfold nonNegativeWeights. rewrite E1, E2, E3, E4, E5, E6, E7.
  change 0 with (inject_Z 0). rewrite <- !Zle_Qle. auto 10.
Qed.

(** With whole weights the sum of the weighted scores is a whole number. *)
Lemma sumWeighted_whole (this : Weights) (spec : OpenAPISpec) (now : string)
    (rep : ScoringReport) :
  wholeWeights this ->
  SE.score this spec now = Ok rep ->
  wholeNumber (sumWeighted (results rep)).
Proof.
  intros ((n1 & P1 & E1) & (n2 & P2 & E2) & (n3 & P3 & E3) & (n4 & P4 & E4)
          & (n5 & P5 & E5) & (n6 & P6 & E6) & (n7 & P7 & E7) & _) H.
  destruct (results_scoredOutOf _ _ _ _ H)
    as (r1 & r2 & r3 & r4 & r5 & r6 & r7 & Hr & H1 & H2 & H3 & H4 & H5 & H6 & H7).
  assert (exists k3, (0 <= k3)%Z /\ weightedScore r3 == inject_Z k3) as (k3 & Q3 & W3).
  { destruct (paths spec).
    - eexists. split; [|exact (scoredOutOf_whole _ _ _ _ H3 E3)]. lia.
    - exists 0%Z. split; [lia|]. destruct H3 as (_ & _ & -> & ->). reflexivity. }
  pose proof (scoredOutOf_whole _ _ _ _ H1 E1) as W1.
  pose proof (scoredOutOf_whole _ _ _ _ H2 E2) as W2.
  pose proof (scoredOutOf_whole _ _ _ _ H4 E4) as W4.
  pose proof (scoredOutOf_whole _ _ _ _ H5 E5) as W5.
  pose proof (scoredOutOf_whole _ _ _ _ H6 E6) as W6.
  pose proof (scoredOutOf_whole _ _ _ _ H7 E7) as W7.
  rewrite Hr. unfold sumWeighted. cbn [fold_right].
  eexists. split; [|rewrite W1, W2, W3, W4, W5, W6, W7;
                    change 0 with (inject_Z 0) at 1;
                    rewrite <- !inject_Z_plus; reflexivity].
  lia.
Qed.

Lemma round_of_hundredths (x : Q) (n : Z) :
  x * 100 == inject_Z n -> inject_Z (SE.Math_round (x * 100)) / 100 == x.
Proof.
  intro H. unfold SE.Math_round.
  assert (Qfloor (x * 100 + (1 # 2)) = n) as ->.
  { rewrite (Qfloor_comp _ (inject_Z n + (1 # 2))) by (rewrite H; reflexivity).
    pose proof (Qfloor_le (inject_Z n + (1 # 2))) as Hle.
    pose proof (Qlt_floor (inject_Z n + (1 # 2))) as Hlt.
    set (k := Qfloor (inject_Z n + (1 # 2))) in *.
    rewrite inject_Z_plus in Hlt. change (inject_Z 1) with 1 in Hlt.
    assert (inject_Z k < inject_Z (n + 1)) as H1
        by (rewrite inject_Z_plus; change (inject_Z 1) with 1; lra).
    assert (inject_Z (n - 1) < inject_Z k) as H2
        by (unfold Z.sub; rewrite inject_Z_plus; change (inject_Z (- (1))) with (- (1)); lra).
    rewrite <- Zlt_Qlt in H1, H2. lia. }
  rewrite <- H. field.
Qed.

(** With whole weights nothing is lost in the rounding: the reported score
    is the sum itself. *)
Lemma overallScore_whole (this : Weights) (spec : OpenAPISpec) (now : string)
    (rep : ScoringReport) :
  wholeWeights this ->
  SE.score this spec now = Ok rep ->
  overallScore rep == sumWeighted (results rep).
Proof.
  intros W H. destruct (sumWeighted_whole _ _ _ _ W H) as (n & _ & Hn).
  destruct (score_aggregates _ _ _ _ H) as (Ho & _).
  assert (fold_left (fun sum result => sum + weightedScore result) (results rep) 0
          == sumWeighted (results rep)) as Hsum
      by (rewrite reduce_sumWeighted; ring).
  rewrite Ho, <- Hsum. apply round_of_hundredths with (n * 100)%Z.
  rewrite Hsum, Hn, inject_Z_mult. reflexivity.
Qed.

Lemma default_weights_whole : wholeWeights SE.defaultWeights.
Proof.
  unfold wholeWeights, wholeNumber. simpl.
  repeat (split; [eexists; split; [|reflexivity]; lia|]).
  vm_compute. discriminate.
Qed.




(** ** C3: a document without paths *)

(** When [paths] is missing the evaluator returns at once: score 0 and the
    one critical issue, whatever else the document holds. *)
Lemma missing_paths_short_circuit (this : Weights) (spec : OpenAPISpec) :
  paths spec = None ->
  score (SE.scorePathsOperations this spec) = 0 /\
  weightedScore (SE.scorePathsOperations this spec) = 0 /\
  issues (SE.scorePathsOperations this spec) = [noPathsIssue].
Proof.
  intro E. unfold SE.scorePathsOperations. cbv zeta. rewrite E. simpl. auto.
Qed.

(** C3, what the code does: when [paths] is an object without keys the
    guard [!spec.paths] does not fire, the three checks run over no path,
    and Paths & Operations keeps its whole weight with no issue at all. *)
Theorem empty_paths_object_scores_full_weight (this : Weights) (spec : OpenAPISpec) :
  paths spec = Some [] ->
  issues (SE.scorePathsOperations this spec) = [] /\
  score (SE.scorePathsOperations this spec) == Qmax 0 (pathsOperations this).
Proof.
  intro E. unfold SE.scorePathsOperations. cbv zeta. rewrite E. simpl.
  split; [reflexivity|]. unfold SE.Math_max. apply Q.max_compat; [reflexivity|].
  change (SE.calculateDeduction _) with 0%Z. change (inject_Z 0) with 0. ring.
Qed.

(** The [mockSpec] of the tests ([paths: {}]) under the default weights:
    15 and no issue. *)
Lemma empty_paths_object_witness :
  paths Samples.mockSpec = Some [] /\
  issues (SE.scorePathsOperations SE.defaultWeights Samples.mockSpec) = [] /\
  score (SE.scorePathsOperations SE.defaultWeights Samples.mockSpec) == 15.
Proof.
  split; [reflexivity|].
  destruct (empty_paths_object_scores_full_weight SE.defaultWeights Samples.mockSpec
              eq_refl) as [Hi Hs].
  split; [exact Hi|]. rewrite Hs. reflexivity.
Defined.

(** ** C4: the configuration given to the constructor *)

(** The report carries the weights it was scored with: no renormalization. *)
Lemma weights_carried (w : Weights) (spec : OpenAPISpec) (now : string)
    (rep : ScoringReport) :
  SE.score w spec now = Ok rep ->
  map weight (results rep)
    = [schemaTypes w; documentation w; pathsOperations w; responseCodes w;
       examples w; security w; bestPractices w] /\
  map maxScore (results rep) = map weight (results rep) /\
  report_maxScore rep = 100.
Proof.
  intro H.
  destruct (results_scoredOutOf _ _ _ _ H)
    as (r1 & r2 & r3 & r4 & r5 & r6 & r7 & Hr & H1 & H2 & H3 & H4 & H5 & H6 & H7).
  destruct (score_aggregates _ _ _ _ H) as (_ & _ & Hm & _).
  assert (weight r3 = pathsOperations w /\ maxScore r3 = pathsOperations w) as [H3w H3m].
  { destruct (paths spec); [destruct H3 as (? & ? & _)|destruct H3 as (? & ? & _)]; auto. }
  destruct H1 as (? & ? & _), H2 as (? & ? & _), H4 as (? & ? & _),
    H5 as (? & ? & _), H6 as (? & ? & _), H7 as (? & ? & _).
  rewrite Hr. simpl. repeat split; try assumption; congruence.
Qed.

(** C4 on the code. Without a configuration, or with one that has no
    [weights] property, the seven weights are the defaults 20, 20, 15, 15,
    10, 10, 10; with a [weights] object they are its seven numbers, whatever
    they are and whatever they sum to, and the engine never renormalizes:
    each result carries the configured weight as its weight and maximum, and
    the report's maximum is 100. With [weights: undefined], which the type
    [Partial<ScoringConfig>] admits, nothing falls back: the spread copies
    [undefined] over the defaults and [score] throws a [TypeError] on every
    document. *)
Theorem undefined_weights_replace_the_defaults :
  SE.defaultWeights =
    {| schemaTypes := 20; documentation := 20; pathsOperations := 15;
       responseCodes := 15; examples := 10; security := 10; bestPractices := 10 |} /\
  weights (SE.constructor None) = Some SE.defaultWeights /\
  (forall c, weights (SE.constructor (Some {| p_criteria := c; p_weights := absent |}))
             = Some SE.defaultWeights) /\
  (forall c (w : Weights),
      weights (SE.constructor (Some {| p_criteria := c; p_weights := given w |})) = Some w) /\
  (forall (w : Weights) spec now rep,
      SE.scoreWith (SE.constructor (Some {| p_criteria := absent; p_weights := given w |}))
                   spec now = Ok rep ->
      map weight (results rep)
        = [schemaTypes w; documentation w; pathsOperations w; responseCodes w;
           examples w; security w; bestPractices w] /\
      map maxScore (results rep) = map weight (results rep) /\
      report_maxScore rep = 100) /\
  (forall c spec now,
      weights (SE.constructor (Some {| p_criteria := c; p_weights := undefinedValue |})) = None /\
      SE.scoreWith (SE.constructor (Some {| p_criteria := c; p_weights := undefinedValue |}))
                   spec now = Throw TypeError).
Proof.
  split; [reflexivity|]. split; [reflexivity|]. split; [reflexivity|].
  split; [reflexivity|]. split.
  - intros w spec now rep H. now apply weights_carried with spec now.
  - intros c spec now. split; reflexivity.
Qed.

(** The configuration of 'should handle custom scoring configuration' on
    the minimal document of the tests, and the same engine built with
    [weights: undefined]. *)
Lemma undefined_weights_witness :
  (exists rep,
     SE.scoreWith (SE.constructor (Some {| p_criteria := absent; p_weights := given customWeights |}))
                  Samples.minimalSpec "2024-01-01T00:00:00.000Z" = Ok rep /\
     map weight (results rep) = [30; 30; 10; 10; 5; 10; 5] /\
     report_maxScore rep = 100) /\
  SE.scoreWith (SE.constructor (Some {| p_criteria := absent; p_weights := undefinedValue |}))
               Samples.minimalSpec "2024-01-01T00:00:00.000Z" = Throw TypeError.
Proof.
  destruct undefined_weights_replace_the_defaults as (_ & _ & _ & _ & Hreport & Hundefined).
  split; [|apply Hundefined].
  destruct (SE.scoreWith
              (SE.constructor (Some {| p_criteria := absent; p_weights := given customWeights |}))
              Samples.minimalSpec "2024-01-01T00:00:00.000Z")
    as [rep|e] eqn:E; [|discriminate E].
  exists rep. split; [reflexivity|].
  destruct (Hreport customWeights Samples.minimalSpec _ rep E) as (Hw & _ & Hm).
  split; assumption.
Defined.

(** ** C5: overlapping paths *)

Lemma segmentsOverlap_spec (s1 s2 : list string) :
  List.length s1 = List.length s2 ->
  SE.segmentsOverlap s1 s2 = true <->
  forall i, (i < List.length s1)%nat ->
    nth i s1 EmptyString = nth i s2 EmptyString
    \/ startsWithChar "{" (nth i s1 EmptyString) = true
    \/ startsWithChar "{" (nth i s2 EmptyString) = true.
Proof.
  revert s2. induction s1 as [|a s1 IH]; intros [|b s2] Hlen; try discriminate Hlen.
  - simpl. split; [intros _ i Hi; lia|reflexivity].
  - injection Hlen as Hlen. specialize (IH s2 Hlen). simpl SE.segmentsOverlap.
    destruct (String.eqb a b) eqn:Eab; simpl negb; simpl andb.
    + apply String.eqb_eq in Eab. subst b. rewrite IH. split.
      * intros H [|i] Hi; [now left|]. simpl. apply H. simpl in Hi. lia.
      * intros H i Hi. apply (H (S i)). simpl. lia.
    + apply String.eqb_neq in Eab.
      destruct (startsWithChar "{" a) eqn:Ea; simpl.
      * rewrite IH. split.
        -- intros H [|i] Hi; [now right; left|]. simpl. apply H. simpl in Hi. lia.
        -- intros H i Hi. apply (H (S i)). simpl. lia.
      * destruct (startsWithChar "{" b) eqn:Eb; simpl.
        -- rewrite IH. split.
           ++ intros H [|i] Hi; [now right; right|]. simpl. apply H. simpl in Hi. lia.
           ++ intros H i Hi. apply (H (S i)). simpl. lia.
        -- split; [discriminate|]. intro H.
           destruct (H O) as [H0|[H0|H0]]; simpl in *; try lia; congruence.
Qed.

Lemma pathsOverlap_spec (path1 path2 : string) :
  SE.pathsOverlap path1 path2 = true <-> overlapSpec path1 path2.
Proof.
  unfold SE.pathsOverlap, overlapSpec. cbv zeta. fold (segmentsOf path1) (segmentsOf path2).
  destruct (Nat.eqb_spec (List.length (segmentsOf path1)) (List.length (segmentsOf path2)))
    as [Hlen|Hlen]; simpl.
  - rewrite (segmentsOverlap_spec _ _ Hlen). tauto.
  - split; [discriminate|]. intros [H _]. contradiction.
Qed.

Lemma segmentsOverlap_sym (s1 s2 : list string) :
  SE.segmentsOverlap s1 s2 = SE.segmentsOverlap s2 s1.
Proof.
  revert s2. induction s1 as [|a s1 IH]; intros [|b s2]; simpl; try reflexivity.
  rewrite (String.eqb_sym b a), IH.
  destruct (String.eqb a b), (startsWithChar "{" a), (startsWithChar "{" b); reflexivity.
Qed.

Lemma pathsOverlap_sym (path1 path2 : string) :
  SE.pathsOverlap path1 path2 = SE.pathsOverlap path2 path1.
Proof.
  unfold SE.pathsOverlap. cbv zeta. rewrite segmentsOverlap_sym.
  now rewrite (Nat.eqb_sym (List.length (filter _ (split "/" path2)))).
Qed.

Lemma Issue_eq_dec (x y : Issue) : {x = y} + {x <> y}.
Proof.
  decide equality; try apply string_dec.
  - decide equality.
  - decide equality. apply string_dec.
Qed.

Lemma overlapIssue_inj (a b c d : string) :
  SE.overlapIssue a b = SE.overlapIssue c d -> a = c /\ b = d.
Proof. unfold SE.overlapIssue. simpl. intros [= -> ->]. auto. Qed.

Lemma emitted_overlapLoop_cons (k : string) (later : list string) :
  emitted (SE.overlapLoop (k :: later))
  = overlapsOf k later ++ emitted (SE.overlapLoop later).
Proof.
  simpl SE.overlapLoop. rewrite emitted_andThen by apply EngineFacts.overlapLoop_appendOnly.
  f_equal. rewrite emitted_forEach by (intros; append_only).
  unfold overlapsOf. apply flat_map_ext. intro q.
  destruct (SE.pathsOverlap k q); reflexivity.
Qed.

Lemma count_overlapsOf (k a b : string) (later : list string) :
  count_occ Issue_eq_dec (overlapsOf k later) (SE.overlapIssue a b)
  = if string_dec a k
    then if SE.pathsOverlap k b then count_occ string_dec later b else O
    else O.
Proof.
  induction later as [|q later IH]; simpl.
  - destruct (string_dec a k), (SE.pathsOverlap k b); reflexivity.
  - rewrite count_occ_app, IH. clear IH.
    destruct (string_dec a k) as [->|Hak].
    + destruct (string_dec q b) as [->|Hqb].
      * destruct (SE.pathsOverlap k b); simpl; [|reflexivity].
        destruct (Issue_eq_dec _ _); [reflexivity|contradiction].
      * destruct (SE.pathsOverlap k q); simpl.
        -- destruct (Issue_eq_dec _ _) as [E|_].
           ++ apply overlapIssue_inj in E. destruct E; contradiction.
           ++ reflexivity.
        -- reflexivity.
    + destruct (SE.pathsOverlap k q); simpl; [|reflexivity].
      destruct (Issue_eq_dec _ _) as [E|_]; [|reflexivity].
      apply overlapIssue_inj in E. destruct E as [E _]. congruence.
Qed.

Lemma in_emitted_overlapLoop (keys : list string) (a b : string) :
  In (SE.overlapIssue a b) (emitted (SE.overlapLoop keys)) ->
  In a keys /\ In b keys.
Proof.
  induction keys as [|k later IH]; [intros []|].
  rewrite emitted_overlapLoop_cons, in_app_iff. intros [H|H].
  - unfold overlapsOf in H. apply in_flat_map in H. destruct H as (q & Hq & H).
    destruct (SE.pathsOverlap k q); [|destruct H].
    destruct H as [H|[]]. apply overlapIssue_inj in H. destruct H as [<- <-].
    split; [now left|now right].
  - destruct (IH H). split; now right.
Qed.

Lemma overlapping_pair_counted_once (keys : list string) (p q : string) :
  NoDup keys -> In p keys -> In q keys -> p <> q ->
  (count_occ Issue_eq_dec (emitted (SE.overlapLoop keys)) (SE.overlapIssue p q)
   + count_occ Issue_eq_dec (emitted (SE.overlapLoop keys)) (SE.overlapIssue q p))%nat
  = if SE.pathsOverlap p q then 1%nat else 0%nat.
Proof.
  intros Hnd. induction Hnd as [|k later Hk Hnd IH]; [intros []|].
  intros Hp Hq Hpq.
  rewrite emitted_overlapLoop_cons, !count_occ_app, !count_overlapsOf.
  assert (forall a b, ~ In a later \/ ~ In b later ->
            count_occ Issue_eq_dec (emitted (SE.overlapLoop later)) (SE.overlapIssue a b) = O)
    as Hzero.
  { intros a b Hab. apply count_occ_not_In. intro Hin.
    apply in_emitted_overlapLoop in Hin. tauto. }
  destruct (string_dec p k) as [->|Hpk].
  - destruct (string_dec q k) as [->|Hqk]; [contradiction|].
    assert (In q later) as Hq' by (destruct Hq as [Hq|Hq]; [congruence|exact Hq]).
    rewrite (Hzero k q), (Hzero q k) by auto.
    destruct (SE.pathsOverlap k q); [|reflexivity].
    pose proof (proj1 (NoDup_count_occ' string_dec later) Hnd q Hq') as ->. reflexivity.
  - assert (In p later) as Hp' by (destruct Hp as [Hp|Hp]; [congruence|exact Hp]).
    destruct (string_dec q k) as [->|Hqk].
    + rewrite (Hzero p k), (Hzero k p) by auto.
      rewrite (pathsOverlap_sym p k).
      destruct (SE.pathsOverlap k p); [|reflexivity].
      pose proof (proj1 (NoDup_count_occ' string_dec later) Hnd p Hp') as ->. reflexivity.
    + assert (In q later) as Hq' by (destruct Hq as [Hq|Hq]; [congruence|exact Hq]).
      simpl. apply IH; assumption.
Qed.

(** C5: [pathsOverlap] holds exactly when the two paths have as many
    segments and at every position the segments are equal or one of them
    starts with an opening brace; it is symmetric; over the distinct keys of
    [paths], each pair of two different paths that overlap gets exactly one
    issue (and a pair that does not overlap gets none);
    [/users/{id}] and [/users/{userId}] overlap; [/users] and [/orders] do
    not. *)
Theorem pathsOverlap_characterisation :
  (forall path1 path2, SE.pathsOverlap path1 path2 = true <-> overlapSpec path1 path2) /\
  (forall path1 path2, SE.pathsOverlap path1 path2 = SE.pathsOverlap path2 path1) /\
  (forall (ps : Paths) (p q : string),
      NoDup (map fst ps) -> In p (map fst ps) -> In q (map fst ps) -> p <> q ->
      (count_occ Issue_eq_dec (emitted (SE.checkOverlappingPaths ps)) (SE.overlapIssue p q)
       + count_occ Issue_eq_dec (emitted (SE.checkOverlappingPaths ps)) (SE.overlapIssue q p))%nat
      = if SE.pathsOverlap p q then 1%nat else 0%nat) /\
  SE.pathsOverlap "/users/{id}" "/users/{userId}" = true /\
  SE.pathsOverlap "/users" "/orders" = false.
Proof.
  split; [exact pathsOverlap_spec|]. split; [exact pathsOverlap_sym|].
  split; [|split; reflexivity].
  intros ps p q. unfold SE.checkOverlappingPaths. cbv zeta.
  apply overlapping_pair_counted_once.
Qed.

(** Three paths, of which the two under [/users] overlap: one issue. *)
Lemma pathsOverlap_witness :
  let ps := [("/users/{id}", Samples.noOperations);
             ("/orders", Samples.noOperations);
             ("/users/{userId}", Samples.noOperations)] in
  emitted (SE.checkOverlappingPaths ps)
    = [SE.overlapIssue "/users/{id}" "/users/{userId}"] /\
  (count_occ Issue_eq_dec (emitted (SE.checkOverlappingPaths ps))
     (SE.overlapIssue "/users/{userId}" "/users/{id}")
   + count_occ Issue_eq_dec (emitted (SE.checkOverlappingPaths ps))
       (SE.overlapIssue "/users/{id}" "/users/{userId}"))%nat = 1%nat.
Proof.
  cbv zeta. split; [reflexivity|].
  destruct pathsOverlap_characterisation as (_ & _ & H & _).
  rewrite H.
  - reflexivity.
  - simpl. repeat constructor; simpl; intuition discriminate.
  - simpl. auto.
  - simpl. auto.
  - discriminate.
Defined.

(** ** C6: documents whose operations define success and error responses *)

Lemma flat_map_nil {X Y : Type} (f : X -> list Y) (l : list X) :
  (forall x, In x l -> f x = []) -> flat_map f l = [].
Proof.
  induction l as [|x l IH]; intro H; simpl; [reflexivity|].
  rewrite (H x) by now left. apply IH. intros; apply H; now right.
Qed.

Lemma checkOperationResponses_silent (p : string) (item : PathItem) :
  (forall m op, getOp item m = Some op ->
                definesSuccessAndError m op = true /\ followsMethodConvention m op = true) ->
  emitted (SE.checkOperationResponses p item) = [].
Proof.
  intro H. unfold SE.checkOperationResponses.
  rewrite emitted_forEach.
  2:{ intros m _. destruct (getOp item m) as [op|]; [|append_only].
      destruct (op_responses op); append_only.
      apply EngineFacts.checkMethodSpecificResponses_appendOnly. }
  apply flat_map_nil. intros m _.
  destruct (getOp item m) as [op|] eqn:E; [|reflexivity].
  destruct (H m op E) as [Hd Hc]. clear H.
  unfold definesSuccessAndError in Hd. unfold followsMethodConvention in Hc.
  unfold emitted, andThen. cbv zeta.
  destruct (op_responses op) as [responses|] eqn:Er; [|discriminate Hd].
  apply andb_true_iff in Hd. destruct Hd as [Hs He].
  rewrite Hs. simpl negb. simpl when.
  apply orb_true_iff in He.
  assert (negb (existsb (fun code => startsWithChar "4" code) (map fst responses))
          && negb (existsb (fun code => startsWithChar "5" code) (map fst responses)) = false)
    as -> by (destruct He as [-> | ->]; simpl; [reflexivity|apply andb_false_r]).
  simpl when. unfold skip. unfold SE.checkMethodSpecificResponses. rewrite Er.
  cbv zeta in Hc |- *.
  destruct m; try reflexivity.
  - apply orb_true_iff in Hc.
    destruct Hc as [-> | ->]; simpl; [reflexivity|]. now rewrite andb_false_r.
  - apply orb_true_iff in Hc.
    destruct Hc as [-> | ->]; simpl; [reflexivity|]. now rewrite andb_false_r.
Qed.

(** C6, as the code has it: when every operation defines a 2xx or
    [default] response and a 4xx or 5xx response, and besides every [post]
    answers 201 or 200 and every [delete] answers 204 or 200, Response Codes
    has no issue. *)
Theorem response_codes_without_issue (this : Weights) (spec : OpenAPISpec) :
  everyOperation definesSuccessAndError spec ->
  everyOperation followsMethodConvention spec ->
  issues (SE.scoreResponseCodes this spec) = [].
Proof.
  intros Hd Hc. unfold SE.scoreResponseCodes. cbv zeta. simpl issues.
  destruct (paths spec) as [ps|] eqn:E; [|reflexivity].
  rewrite forEach_flat_map
    by (intros [p item] _; apply EngineFacts.checkOperationResponses_appendOnly).
  simpl. apply flat_map_nil. intros [p item] Hin.
  apply checkOperationResponses_silent. intros m op Hop. split.
  - exact (Hd ps p item m op E Hin Hop).
  - exact (Hc ps p item m op E Hin Hop).
Qed.

(** Settles [everyOperation P spec] for a concrete document. *)
Ltac every_operation :=
  intros ps p item m op Hps Hin Hop; injection Hps as <-;
  repeat (destruct Hin as [Hin|Hin]; [injection Hin as <- <-|]); [..|destruct Hin];
  destruct m; simpl in Hop; try discriminate Hop; injection Hop as <-; reflexivity.

Lemma response_codes_witness :
  everyOperation definesSuccessAndError properStatusCodes /\
  everyOperation followsMethodConvention properStatusCodes /\
  issues (SE.scoreResponseCodes SE.defaultWeights properStatusCodes) = [].
Proof.
  assert (everyOperation definesSuccessAndError properStatusCodes) as Hd by every_operation.
  assert (everyOperation followsMethodConvention properStatusCodes) as Hc by every_operation.
  split; [exact Hd|]. split; [exact Hc|].
  exact (response_codes_without_issue SE.defaultWeights properStatusCodes Hd Hc).
Defined.

(** C6 as the specification words it fails: the [post] of [acceptedOnly]
    defines a 2xx and a 4xx response, and Response Codes still has an issue,
    the low one for a [post] without 201 or 200. *)
Lemma success_and_error_responses_do_not_suffice :
  everyOperation definesSuccessAndError acceptedOnly /\
  List.length (issues (SE.scoreResponseCodes SE.defaultWeights acceptedOnly)) = 1%nat /\
  map severity (issues (SE.scoreResponseCodes SE.defaultWeights acceptedOnly)) = [low] /\
  issues (SE.scoreResponseCodes SE.defaultWeights acceptedOnly) <> [].
Proof.
  split; [every_operation|]. split; [reflexivity|]. split; [reflexivity|].
  discriminate.
Qed.

(** ** C7: the grade *)

Lemma Qle_bool_reflect (x y : Q) : reflect (x <= y) (Qle_bool x y).
Proof. apply iff_reflect. symmetry. apply Qle_bool_iff. Qed.

Lemma calculateGrade_band (s : Q) (g : Grade) :
  SE.calculateGrade s = g <-> inBand s g.
Proof.
  unfold SE.calculateGrade.
  destruct (Qle_bool_reflect 90 s); [destruct g; simpl; split; intro; try discriminate; try lra; reflexivity|].
  destruct (Qle_bool_reflect 80 s); [destruct g; simpl; split; intro; try discriminate; try lra; reflexivity|].
  destruct (Qle_bool_reflect 70 s); [destruct g; simpl; split; intro; try discriminate; try lra; reflexivity|].
  destruct (Qle_bool_reflect 60 s); destruct g; simpl; split; intro; try discriminate; try lra; reflexivity.
Qed.

Lemma calculateGrade_monotone (s1 s2 : Q) :
  s1 <= s2 -> (gradeRank (SE.calculateGrade s1) <= gradeRank (SE.calculateGrade s2))%nat.
Proof.
  intro H.
  pose proof (proj1 (calculateGrade_band s1 _) eq_refl) as H1.
  pose proof (proj1 (calculateGrade_band s2 _) eq_refl) as H2.
  destruct (SE.calculateGrade s1), (SE.calculateGrade s2); simpl in *; try lia; lra.
Qed.

Lemma calculateGrade_compat (s1 s2 : Q) :
  s1 == s2 -> SE.calculateGrade s1 = SE.calculateGrade s2.
Proof.
  intro H. apply calculateGrade_band.
  pose proof (proj1 (calculateGrade_band s2 _) eq_refl) as H2.
  destruct (SE.calculateGrade s2); simpl in *; lra.
Qed.

(** Rounding to two decimals leaves a whole number of hundredths as it is. *)
(** C7, as the code has it. [calculateGrade] depends on the value of its
    argument alone, is monotone, and its bands are exactly 90 and above A,
    80 up to 90 B, 70 up to 80 C, 60 up to 70 D, below 60 F, each lower
    bound included. The engine applies it to the sum of the weighted scores
    before the rounding that gives the report's [overallScore]: with
    whole-number weights, as the default ones are, that sum is the reported
    [overallScore] itself, and the grade of the report is the band of its
    [overallScore]. *)
Theorem grade_is_band_of_overall_score_under_whole_weights :
  (forall s g, SE.calculateGrade s = g <-> inBand s g) /\
  (forall s1 s2, s1 <= s2 ->
     (gradeRank (SE.calculateGrade s1) <= gradeRank (SE.calculateGrade s2))%nat) /\
  (forall s1 s2, s1 == s2 -> SE.calculateGrade s1 = SE.calculateGrade s2) /\
  (forall this spec now rep,
     wholeWeights this ->
     SE.score this spec now = Ok rep ->
     overallScore rep == sumWeighted (results rep) /\
     grade rep = SE.calculateGrade (overallScore rep) /\
     inBand (overallScore rep) (grade rep)).
Proof.
  split; [exact calculateGrade_band|]. split; [exact calculateGrade_monotone|].
  split; [exact calculateGrade_compat|].
  intros this spec now rep W H.
  pose proof (overallScore_whole _ _ _ _ W H) as Ho.
  destruct (score_aggregates _ _ _ _ H) as (_ & Hg & _).
  assert (fold_left (fun sum result => sum + weightedScore result) (results rep) 0
          == sumWeighted (results rep)) as Hsum
      by (rewrite reduce_sumWeighted; ring).
  assert (grade rep = SE.calculateGrade (overallScore rep)) as Hg'.
  { rewrite Hg. apply calculateGrade_compat. now rewrite Hsum, Ho. }
  split; [exact Ho|]. split; [exact Hg'|].
  now apply calculateGrade_band.
Qed.

(** The minimal document of the tests under the default weights: the sum
    is 63, so is the reported score, and the grade is D. *)
Lemma grade_witness :
  exists rep,
    SE.score SE.defaultWeights Samples.minimalSpec "2024-01-01T00:00:00.000Z" = Ok rep /\
    grade rep = D /\
    overallScore rep == sumWeighted (results rep) /\
    inBand (overallScore rep) (grade rep).
Proof.
  destruct grade_is_band_of_overall_score_under_whole_weights as (_ & _ & _ & Hreport).
  destruct (SE.score SE.defaultWeights Samples.minimalSpec "2024-01-01T00:00:00.000Z")
    as [rep|e] eqn:E; [|discriminate E].
  exists rep. split; [reflexivity|].
  destruct (Hreport _ _ _ _ default_weights_whole E) as (Ho & _ & Hb).
  split; [|split; assumption].
  vm_compute in E. injection E as <-. reflexivity.
Defined.

(** C7 as the specification words it fails: with the weight 89.996 on
    Schema & Types the report of [schemaOnly] has [overallScore] 90 and grade
    B, and with the weight 90 it has [overallScore] 90 and grade A. *)
Lemma grade_is_not_band_of_reported_score :
  exists rep1 rep2,
    SE.score (onSchemaTypes (89996 # 1000)) schemaOnly "2024-01-01T00:00:00.000Z" = Ok rep1 /\
    SE.score (onSchemaTypes 90) schemaOnly "2024-01-01T00:00:00.000Z" = Ok rep2 /\
    overallScore rep1 == 90 /\ grade rep1 = B /\
    overallScore rep2 == 90 /\ grade rep2 = A /\
    ~ inBand (overallScore rep1) (grade rep1).
Proof.
  eexists. eexists.
  split; [vm_compute; reflexivity|]. split; [vm_compute; reflexivity|].
  vm_compute. repeat split; try reflexivity. intros [_ H]. discriminate H.
Qed.

(** ** C8: the issues of an undocumented operation *)

Lemma flat_map_when_filter {X Y : Type} (c : X -> bool) (f : X -> Y) (l : list X) :
  flat_map (fun x => if c x then [f x] else []) l = map f (filter c l).
Proof.
  induction l as [|x l IH]; simpl; [reflexivity|].
  destruct (c x); simpl; now rewrite IH.
Qed.

Lemma methodName_inj (m1 m2 : Method) :
  String.eqb (methodName m1) (methodName m2) = true -> m1 = m2.
Proof. destruct m1, m2; simpl; intro H; try discriminate H; reflexivity. Qed.

Lemma issuesFor_app (p : string) (m : Method) (sev : Severity) (l1 l2 : list Issue) :
  issuesFor p m sev (l1 ++ l2) = (issuesFor p m sev l1 + issuesFor p m sev l2)%nat.
Proof. unfold issuesFor. now rewrite filter_app, length_app. Qed.

Lemma issuesFor_none (p : string) (m : Method) (sev : Severity) (l : list Issue) :
  (forall i, In i l -> isFor p m sev i = false) -> issuesFor p m sev l = O.
Proof.
  intro H. unfold issuesFor. induction l as [|i l IH]; simpl; [reflexivity|].
  rewrite (H i) by now left. apply IH. intros; apply H; now right.
Qed.

Lemma in_documentationIssues (p : string) (item : PathItem) (m : Method) (i : Issue) :
  In i (documentationIssues p item m) ->
  path i = p /\ operation i = Some (methodName m).
Proof.
  unfold documentationIssues. destruct (getOp item m) as [op|]; [|intros []].
  rewrite in_app_iff, in_map_iff. intros [H|(q & <- & _)]; [|auto].
  destruct (undocumented op); [|destruct H]. destruct H as [<-|[]]. auto.
Qed.

(** The issues of one operation, counted: the medium one when it is
    undocumented, a low one for each parameter without description. *)
Lemma issuesFor_documentationIssues (p : string) (item : PathItem) (m : Method)
    (op : Operation) :
  getOp item m = Some op ->
  issuesFor p m medium (documentationIssues p item m) = (if undocumented op then 1 else 0)%nat /\
  issuesFor p m low (documentationIssues p item m) = List.length (undescribedParameters op).
Proof.
  intro E. unfold documentationIssues. rewrite E. rewrite !issuesFor_app.
  assert (forall sev l, issuesFor p m sev (map (SE.undocumentedParameter p m) l)
                        = if sameSeverity low sev then List.length l else O) as Hparams.
  { intros sev l. unfold issuesFor. induction l as [|q l IH].
    - destruct sev; reflexivity.
    - simpl map. simpl filter. unfold isFor at 1. simpl path. simpl operation.
      simpl severity. rewrite !String.eqb_refl. simpl andb.
      destruct sev; simpl in *; now rewrite ?IH. }
  rewrite !Hparams. simpl sameSeverity. cbv iota.
  destruct (undocumented op); unfold issuesFor, isFor; simpl;
    rewrite ?String.eqb_refl; simpl; auto.
Qed.

Lemma issuesFor_other_method (p p' : string) (item : PathItem) (m m' : Method)
    (sev : Severity) :
  m' <> m \/ p' <> p ->
  issuesFor p m sev (documentationIssues p' item m') = O.
Proof.
  intro H. apply issuesFor_none. intros i Hi.
  apply in_documentationIssues in Hi. destruct Hi as [Hp Ho].
  unfold isFor. rewrite Hp, Ho.
  destruct (String.eqb p' p) eqn:Ep; [|reflexivity].
  destruct (String.eqb (methodName m') (methodName m)) eqn:Em; [|reflexivity].
  apply String.eqb_eq in Ep. apply methodName_inj in Em. tauto.
Qed.

Lemma issuesFor_flat_map_methods (p : string) (item : PathItem) (m : Method)
    (sev : Severity) (ms : list Method) :
  NoDup ms -> In m ms ->
  issuesFor p m sev (flat_map (documentationIssues p item) ms)
  = issuesFor p m sev (documentationIssues p item m).
Proof.
  intro Hnd. induction Hnd as [|m' ms Hm' Hnd IH]; [intros []|].
  intros [->|Hin]; simpl; rewrite issuesFor_app.
  - replace (issuesFor p m sev (flat_map (documentationIssues p item) ms)) with O; [lia|].
    symmetry. apply issuesFor_none. intros i Hi. apply in_flat_map in Hi.
    destruct Hi as (m' & Hin' & Hi). apply in_documentationIssues in Hi.
    destruct Hi as [Hp Ho]. unfold isFor. rewrite Ho.
    destruct (String.eqb (methodName m') (methodName m)) eqn:Em.
    + apply methodName_inj in Em. subst m'. contradiction.
    + now rewrite andb_false_r.
  - rewrite issuesFor_other_method by (left; intros ->; contradiction).
    now apply IH.
Qed.

Lemma issuesFor_flat_map_paths (p : string) (item : PathItem) (m : Method)
    (sev : Severity) (ps : Paths) :
  NoDup (map fst ps) -> In (p, item) ps ->
  issuesFor p m sev
    (flat_map (fun entry =>
                 flat_map (documentationIssues (fst entry) (snd entry)) SE.methods) ps)
  = issuesFor p m sev (flat_map (documentationIssues p item) SE.methods).
Proof.
  assert (forall p' item', p' <> p ->
            issuesFor p m sev (flat_map (documentationIssues p' item') SE.methods) = O)
    as Hother.
  { intros p' item' Hp.
    apply issuesFor_none. intros i Hi. apply in_flat_map in Hi.
    destruct Hi as (m' & _ & Hi). apply in_documentationIssues in Hi.
    destruct Hi as [Hpi _]. unfold isFor. rewrite Hpi.
    destruct (String.eqb p' p) eqn:E; [|reflexivity].
    apply String.eqb_eq in E. contradiction. }
  induction ps as [|[k it] ps IH]; [intros _ []|].
  simpl map. intros Hnd Hin. inversion Hnd as [|? ? Hk Hnd']; subst.
  cbn [flat_map fst snd]. rewrite issuesFor_app.
  destruct Hin as [[= -> ->]|Hin].
  - replace (issuesFor p m sev (flat_map _ ps)) with O; [lia|].
    symmetry. apply issuesFor_none. intros i Hi. apply in_flat_map in Hi.
    destruct Hi as ([p' item'] & Hin' & Hi). cbn [fst snd] in Hi.
    assert (p' <> p) as Hp by (intros ->; apply Hk; apply (in_map fst _ _ Hin')).
    specialize (Hother p' item' Hp). unfold issuesFor in Hother.
    apply length_zero_iff_nil in Hother.
    destruct (isFor p m sev i) eqn:Ei; [|reflexivity].
    assert (In i (filter (isFor p m sev) (flat_map (documentationIssues p' item') SE.methods)))
      as Hf by (apply filter_In; auto).
    rewrite Hother in Hf. destruct Hf.
  - rewrite Hother.
    + now apply IH.
    + intros ->. apply Hk. apply (in_map fst _ _ Hin).
Qed.

(** The issues of the Documentation result: the one about
    [info.description], then those of the paths in order. *)
Lemma scoreDocumentation_issues (this : Weights) (spec : OpenAPISpec) (r : ScoreResult)
    (ps : Paths) :
  SE.scoreDocumentation this spec = Ok r -> paths spec = Some ps ->
  exists top,
    (forall i, In i top -> operation i = None) /\
    issues r = top ++ flat_map (fun entry =>
                                  flat_map (documentationIssues (fst entry) (snd entry))
                                           SE.methods) ps.
Proof.
  unfold SE.scoreDocumentation. cbv zeta. intros H E.
  destruct (info spec) as [i|]; [|discriminate H].
  rewrite documentation_loop in H.
  destruct (allParametersAreObjects spec); [|discriminate H].
  cbn [bind] in H. injection H as <-. simpl issues.
  unfold pathDocumentationIssues. rewrite E.
  eexists. split; [|reflexivity].
  intros i0. destruct (negb (truthyStr (info_description i))); simpl.
  - intros [<-|[]]. reflexivity.
  - intros [].
Qed.

Lemma methods_NoDup : NoDup SE.methods.
Proof. unfold SE.methods. repeat constructor; simpl; intuition discriminate. Qed.

(** C8, as the code has it: in the Documentation result of a document
    whose path keys are distinct, an operation under [get], [post], [put],
    [patch] or [delete] has exactly one medium issue when it has neither
    summary nor description (and none otherwise), and one low issue for
    each of its parameters without description; an operation under
    [options], [head] or [trace] has no issue at all. *)
Theorem documentation_issues_of_an_operation
    (this : Weights) (spec : OpenAPISpec) (r : ScoreResult) (ps : Paths)
    (p : string) (item : PathItem) (m : Method) (op : Operation) :
  SE.scoreDocumentation this spec = Ok r ->
  paths spec = Some ps ->
  NoDup (map fst ps) ->
  In (p, item) ps ->
  getOp item m = Some op ->
  (In m SE.methods ->
   issuesFor p m medium (issues r) = (if undocumented op then 1 else 0)%nat /\
   issuesFor p m low (issues r) = List.length (undescribedParameters op)) /\
  (~ In m SE.methods -> forall sev, issuesFor p m sev (issues r) = O).
Proof.
  intros H E Hnd Hin Hop.
  destruct (scoreDocumentation_issues _ _ _ _ H E) as (top & Htop & ->).
  assert (forall sev, issuesFor p m sev top = O) as Htop0.
  { intro sev. apply issuesFor_none. intros i Hi. unfold isFor.
    rewrite (Htop i Hi). now rewrite andb_false_r. }
  split.
  - intro Hm.
    rewrite !issuesFor_app, !Htop0.
    rewrite !(fun sev => issuesFor_flat_map_paths p item m sev ps Hnd Hin).
    rewrite !issuesFor_flat_map_methods by (assumption || apply methods_NoDup).
    simpl. now apply issuesFor_documentationIssues.
  - intros Hm sev. rewrite issuesFor_app, Htop0. cbn [Nat.add].
    apply issuesFor_none. intros i Hi. apply in_flat_map in Hi.
    destruct Hi as ([p' item'] & _ & Hi). cbn [fst snd] in Hi.
    apply in_flat_map in Hi.
    destruct Hi as (m' & Hm' & Hi). apply in_documentationIssues in Hi.
    destruct Hi as [_ Ho]. unfold isFor. rewrite Ho.
    destruct (String.eqb (methodName m') (methodName m)) eqn:Em.
    + apply methodName_inj in Em. subst m'. contradiction.
    + now rewrite andb_false_r.
Qed.

Lemma documentation_issues_witness :
  exists r,
    SE.scoreDocumentation SE.defaultWeights bareSpec = Ok r /\
    issuesFor "/items/{id}" GET medium (issues r) = 1%nat /\
    issuesFor "/items/{id}" GET low (issues r) = 1%nat.
Proof.
  destruct (SE.scoreDocumentation SE.defaultWeights bareSpec) as [r|e] eqn:E;
    [|discriminate E].
  exists r. split; [reflexivity|].
  assert (NoDup (map fst [("/items/{id}", bareItem)])) as Hnd
      by (repeat constructor; intros []).
  destruct (documentation_issues_of_an_operation SE.defaultWeights bareSpec r
              [("/items/{id}", bareItem)] "/items/{id}" bareItem GET bareOperation
              E eq_refl Hnd (or_introl eq_refl) eq_refl) as [H _].
  apply H. simpl. auto.
Defined.

(** C8 as the specification words it fails: the operation under [options]
    has neither summary nor description and a parameter without
    description, and the Documentation result holds no issue for it. *)
Lemma options_operation_is_not_examined :
  exists r,
    SE.scoreDocumentation SE.defaultWeights bareSpec = Ok r /\
    getOp bareItem OPTIONS = Some bareOperation /\
    undocumented bareOperation = true /\
    List.length (undescribedParameters bareOperation) = 1%nat /\
    issuesFor "/items/{id}" OPTIONS medium (issues r) = 0%nat /\
    issuesFor "/items/{id}" OPTIONS low (issues r) = 0%nat.
Proof. eexists. split; [vm_compute; reflexivity|]. repeat split. Qed.

(** ** C10: exceptions on a structurally valid document *)


(** Without [info] the second evaluator reads [spec.info.description] and
    throws, whatever [paths] and [responses] are. *)
Lemma score_throws_when_info_missing (this : Weights) (spec : OpenAPISpec) (now : string) :
  info spec = None -> SE.score this spec now = Throw TypeError.
Proof.
  intro E. unfold SE.score, SE.scoreDocumentation. cbv zeta. rewrite E. reflexivity.
Qed.

(** A parameter that is [null] or [undefined] makes [checkPathDocumentation]
    throw, whatever else the document holds. *)
Lemma scoreDocumentation_throws (this : Weights) (spec : OpenAPISpec) :
  allParametersAreObjects spec = false ->
  SE.scoreDocumentation this spec = Throw TypeError.
Proof.
  intro H. unfold SE.scoreDocumentation. cbv zeta.
  destruct (info spec) as [i|]; [|reflexivity].
  now rewrite documentation_loop, H.
Qed.

Lemma validatePaths_appendOnly (ps : Paths) : appendOnly (OpenAPILoader.validatePaths ps).
Proof.
  unfold OpenAPILoader.validatePaths, OpenAPILoader.validateOperation. append_only.
Qed.

Lemma validateComponents_appendOnly (c : Components) :
  appendOnly (OpenAPILoader.validateComponents c).
Proof. unfold OpenAPILoader.validateComponents. append_only. Qed.

(** The validator reports a missing [info], a missing [paths], and an
    operation without [responses]. *)
Lemma valid_has_info (spec : OpenAPISpec) :
  OpenAPILoader.isValid (OpenAPILoader.validate spec) = true ->
  exists i, info spec = Some i.
Proof.
  unfold OpenAPILoader.validate. cbv zeta. simpl OpenAPILoader.isValid.
  destruct (info spec) as [i|]; [intros _; now exists i|].
  intro H. exfalso. apply Nat.eqb_eq in H. apply length_zero_iff_nil in H.
  destruct (paths spec) as [ps|]; destruct (components spec) as [c|];
    rewrite ?validateComponents_appendOnly, ?validatePaths_appendOnly in H;
    unfold push in H; repeat rewrite <- app_assoc in H;
    apply app_eq_nil in H; destruct H as [_ H]; discriminate H.
Qed.

(** C10 on the code: [score] throws a [TypeError] on every document one of
    whose operations under [get], [post], [put], [patch] or [delete] has a
    parameter that is [null] or [undefined], also when the structural
    validator accepts the document: [checkPathDocumentation] reads
    [param.description] without the guard that [checkOperationSchemas] has
    for a response ([response && ...]). Otherwise it returns exactly when
    [info] is there. *)
Theorem score_throws_on_a_null_parameter
    (this : Weights) (spec : OpenAPISpec) (now : string) :
  allParametersAreObjects spec = false ->
  SE.score this spec now = Throw TypeError.
Proof.
  intro H. unfold SE.score. cbv zeta.
  now rewrite (scoreDocumentation_throws this spec H).
Qed.

(** The minimal document of the tests with [parameters: [null]] on its
    [get]: the validator accepts it, and [score] throws. *)
Lemma score_throws_witness :
  OpenAPILoader.isValid (OpenAPILoader.validate nullParameterSpec) = true /\
  allParametersAreObjects nullParameterSpec = false /\
  SE.score SE.defaultWeights nullParameterSpec "2024-01-01T00:00:00.000Z" = Throw TypeError.
Proof.
  split; [reflexivity|]. split; [reflexivity|].
  apply (score_throws_on_a_null_parameter SE.defaultWeights nullParameterSpec
           "2024-01-01T00:00:00.000Z"). reflexivity.
Defined.

(** * Further properties of the engine, the validator and the reporter *)

(** ** The counts of the report *)

(** The fields of the report that count, in terms of its results and of
    the document. *)
Lemma score_counts (this : Weights) (spec : OpenAPISpec) (now : string)
    (rep : ScoringReport) :
  SE.score this spec now = Ok rep ->
  let allIssues := flat_map issues (results rep) in
  totalIssues rep = List.length allIssues /\
  summary rep =
    {| criticalIssues := SE.countSeverity critical allIssues;
       highIssues := SE.countSeverity high allIssues;
       mediumIssues := SE.countSeverity medium allIssues;
       lowIssues := SE.countSeverity low allIssues |} /\
  pathCount (specInfo rep)
    = List.length (match paths spec with Some ps => ps | None => [] end) /\
  operationCount (specInfo rep) = SE.countOperations spec /\
  si_title (specInfo rep)
    = SE.orUnknown (match info spec with Some i => title i | None => None end) /\
  si_version (specInfo rep)
    = SE.orUnknown (match info spec with Some i => version i | None => None end).
Proof.
  unfold SE.score. cbv zeta.
  destruct (SE.scoreDocumentation this spec) as [doc|]; [|discriminate].
  destruct (SE.scoreBestPractices this spec) as [best|]; [|discriminate].
  simpl. intros [= <-]. simpl. rewrite length_map. repeat split; reflexivity.
Qed.

Lemma countSeverity_partition (l : list Issue) :
  List.length l
  = (SE.countSeverity critical l + SE.countSeverity high l
     + SE.countSeverity medium l + SE.countSeverity low l)%nat.
Proof.
  unfold SE.countSeverity. induction l as [|i l IH]; [reflexivity|].
  simpl. destruct (severity i); simpl; lia.
Qed.

Lemma length_flat_map_sum {X Y : Type} (f : X -> list Y) (l : list X) :
  List.length (flat_map f l) = list_sum (map (fun x => List.length (f x)) l).
Proof.
  induction l as [|x l IH]; [reflexivity|].
  simpl. now rewrite length_app, IH.
Qed.

(** X1: in every report the total number of issues is the sum of the four
    counts of the summary, and the sum of the lengths of the seven issue
    lists. *)
Theorem total_issues_is_sum_of_summary_and_of_results
    (this : Weights) (spec : OpenAPISpec) (now : string) (rep : ScoringReport) :
  SE.score this spec now = Ok rep ->
  totalIssues rep
  = (criticalIssues (summary rep) + highIssues (summary rep)
     + mediumIssues (summary rep) + lowIssues (summary rep))%nat /\
  totalIssues rep = list_sum (map (fun r => List.length (issues r)) (results rep)).
Proof.
  intro H. destruct (score_counts _ _ _ _ H) as (Ht & Hs & _).
  rewrite Ht, Hs. simpl. split.
  - apply countSeverity_partition.
  - apply length_flat_map_sum.
Qed.

(** The minimal document of the tests: 14 issues, 0 + 1 + 8 + 5. *)
Lemma total_issues_witness :
  exists rep,
    SE.score SE.defaultWeights Samples.minimalSpec "2024-01-01T00:00:00.000Z" = Ok rep /\
    totalIssues rep = 14%nat /\
    totalIssues rep
    = (criticalIssues (summary rep) + highIssues (summary rep)
       + mediumIssues (summary rep) + lowIssues (summary rep))%nat.
Proof.
  destruct (SE.score SE.defaultWeights Samples.minimalSpec "2024-01-01T00:00:00.000Z")
    as [rep|e] eqn:E; [|discriminate E].
  exists rep. split; [reflexivity|].
  destruct (total_issues_is_sum_of_summary_and_of_results _ _ _ _ E) as [H _].
  split; [|exact H].
  vm_compute in E. injection E as <-. reflexivity.
Defined.

(** ** The operation count *)

Lemma countOperations_inner (item : PathItem) (ms : list Method) (count : nat) :
  fold_left (fun count method =>
               if present (getOp item method) then S count else count) ms count
  = (count + List.length (filter (fun m => present (getOp item m)) ms))%nat.
Proof.
  revert count. induction ms as [|m ms IH]; intro count; simpl; [lia|].
  rewrite IH. destruct (present (getOp item m)); simpl; lia.
Qed.

Lemma fold_left_counts {X : Type} (g : X -> nat) (f : nat -> X -> nat) :
  (forall count x, f count x = (count + g x)%nat) ->
  forall l count, fold_left f l count = (count + list_sum (map g l))%nat.
Proof.
  intros Hf l. induction l as [|x l IH]; intro count; simpl; [lia|].
  rewrite IH, Hf. lia.
Qed.

Lemma countOperations_sum (spec : OpenAPISpec) :
  SE.countOperations spec = list_sum (map presentMethods (pathItems spec)).
Proof.
  unfold SE.countOperations, pathItems. destruct (paths spec) as [ps|]; [|reflexivity].
  rewrite (fold_left_counts presentMethods); [reflexivity|].
  intros count item. apply countOperations_inner.
Qed.

Lemma presentMethods_le_8 (item : PathItem) : (presentMethods item <= 8)%nat.
Proof. unfold presentMethods. etransitivity; [apply filter_length_le|]. simpl. lia. Qed.

Lemma list_sum_bounded {X : Type} (g : X -> nat) (k : nat) (l : list X) :
  (forall x, g x <= k)%nat -> (list_sum (map g l) <= k * List.length l)%nat.
Proof.
  intro H. induction l as [|x l IH].
  - simpl. lia.
  - change (g x + list_sum (map g l) <= k * S (List.length l))%nat.
    specialize (H x). nia.
Qed.

(** X2: the operation count of a report is the number of operations the
    path items have under the eight methods, so at most eight for each
    path; the path count is the number of keys of [paths]; both are 0 when
    [paths] is missing. *)
Theorem operation_count_is_sum_over_paths
    (this : Weights) (spec : OpenAPISpec) (now : string) (rep : ScoringReport) :
  SE.score this spec now = Ok rep ->
  pathCount (specInfo rep) = List.length (pathItems spec) /\
  operationCount (specInfo rep) = list_sum (map presentMethods (pathItems spec)) /\
  (operationCount (specInfo rep) <= 8 * pathCount (specInfo rep))%nat /\
  (paths spec = None ->
   pathCount (specInfo rep) = O /\ operationCount (specInfo rep) = O).
Proof.
  intro H. destruct (score_counts _ _ _ _ H) as (_ & _ & Hp & Ho & _).
  assert (pathCount (specInfo rep) = List.length (pathItems spec)) as Hp'.
  { rewrite Hp. unfold pathItems. destruct (paths spec); [now rewrite length_map|reflexivity]. }
  rewrite Ho, countOperations_sum. split; [exact Hp'|]. split; [reflexivity|]. split.
  - rewrite Hp'. apply list_sum_bounded. apply presentMethods_le_8.
  - intro E. rewrite Hp. unfold pathItems. rewrite E. auto.
Qed.

Lemma operation_count_witness :
  exists rep,
    SE.score SE.defaultWeights bareSpec "2024-01-01T00:00:00.000Z" = Ok rep /\
    pathCount (specInfo rep) = 1%nat /\ operationCount (specInfo rep) = 2%nat.
Proof.
  destruct (SE.score SE.defaultWeights bareSpec "2024-01-01T00:00:00.000Z")
    as [rep|e] eqn:E; [|discriminate E].
  exists rep. split; [reflexivity|].
  destruct (operation_count_is_sum_over_paths _ _ _ _ E) as (Hp & Ho & _).
  rewrite Hp, Ho. split; reflexivity.
Defined.

(** ** Full marks and the bounds of the overall score *)

Lemma appendOnly_nil {T : Type} (c : Pusher T) (arr : list T) :
  appendOnly c -> c arr = [] -> arr = [].
Proof. intros H E. rewrite H in E. now apply app_eq_nil in E. Qed.

Lemma totalDeduction_zero (l : list Issue) : totalDeduction l = 0%Z <-> l = [].
Proof.
  split; [|intros ->; reflexivity].
  destruct l as [|i l]; [reflexivity|]. simpl.
  pose proof (totalDeduction_nonneg l). unfold penalty. destruct (severity i); lia.
Qed.

Lemma max_keeps_weight (w : Q) (k : Z) :
  0 < w -> (0 <= k)%Z -> (Qmax 0 (w - inject_Z k) == w <-> k = 0%Z).
Proof.
  intros Hw Hk. split.
  - intro H. destruct (Q.max_spec 0 (w - inject_Z k)) as [[_ E]|[_ E]];
      rewrite E in H; [|exfalso; lra].
    assert (inject_Z k == inject_Z 0) as H0.
    { change (inject_Z 0) with 0. clear E Hk. revert H.
      generalize (inject_Z k) as q. intros q H. lra. }
    exact (proj1 (inject_Z_injective k 0) H0).
  - intros ->. change (inject_Z 0) with 0. rewrite Q.max_r; lra.
Qed.

Lemma scoredOutOf_full_marks (r : ScoreResult) (w : Q) (fixed : Z) :
  scoredOutOf r w fixed -> (0 <= fixed)%Z -> (issues r = [] -> fixed = 0%Z) ->
  0 < w -> (score r == weight r <-> issues r = []).
Proof.
  intros (Hw & _ & _ & Hs) Hf Hempty Hpos. rewrite Hs, Hw.
  pose proof (totalDeduction_nonneg (issues r)) as Hd.
  assert (w - inject_Z fixed - inject_Z (totalDeduction (issues r))
          == w - inject_Z (fixed + totalDeduction (issues r))) as ->
      by (rewrite inject_Z_plus; ring).
  rewrite max_keeps_weight by (assumption || lia). split.
  - intro H. apply totalDeduction_zero. lia.
  - intro E. specialize (Hempty E). apply totalDeduction_zero in E. lia.
Qed.

Lemma scoreSchemaTypes_no_issue (this : Weights) (spec : OpenAPISpec) :
  issues (SE.scoreSchemaTypes this spec) = [] -> fixedSchemaTypes spec = 0%Z.
Proof.
  unfold SE.scoreSchemaTypes, fixedSchemaTypes. cbv zeta. simpl issues. intro H.
  apply appendOnly_nil in H; [|apply EngineFacts.checkOperationSchemas_appendOnly].
  destruct (SE.componentSchemas spec) as [entries|] eqn:E.
  - apply appendOnly_nil in H;
      [|apply appendOnly_forEach; intros [n s]; apply EngineFacts.validateSchemaTypes_appendOnly].
    destruct (nonEmptyArr (Some entries)); [reflexivity|discriminate H].
  - discriminate H.
Qed.

Lemma scoreDocumentation_no_issue (this : Weights) (spec : OpenAPISpec) (r : ScoreResult) :
  SE.scoreDocumentation this spec = Ok r ->
  issues r = [] -> fixedDocumentation spec = 0%Z.
Proof.
  unfold SE.scoreDocumentation, fixedDocumentation. cbv zeta.
  destruct (info spec) as [i|]; [|discriminate].
  rewrite documentation_loop.
  destruct (allParametersAreObjects spec); [|discriminate].
  cbn [bind]. intros [= <-]. simpl issues. intro H.
  apply app_eq_nil in H. destruct H as [H0 _].
  destruct (truthyStr (info_description i)); [reflexivity|discriminate H0].
Qed.

Lemma scoreSecurity_no_issue (this : Weights) (spec : OpenAPISpec) :
  issues (SE.scoreSecurity this spec) = [] -> fixedSecurity spec = 0%Z.
Proof.
  unfold SE.scoreSecurity, fixedSecurity. cbv zeta. simpl issues. intro H.
  destruct (present (paths spec));
    [apply appendOnly_nil in H; [|apply EngineFacts.checkOperationSecurity_appendOnly]|];
    destruct (nonEmptyArr (SE.componentSecuritySchemes spec));
    destruct (nonEmptyArr (spec_security spec));
    try reflexivity; discriminate H.
Qed.

Lemma scoreBestPractices_no_issue (this : Weights) (spec : OpenAPISpec) (r : ScoreResult) :
  SE.scoreBestPractices this spec = Ok r ->
  issues r = [] -> fixedBestPractices spec = 0%Z.
Proof.
  unfold SE.scoreBestPractices, fixedBestPractices. cbv zeta.
  destruct (info spec) as [i|]; [|discriminate]. intros [= <-]. simpl issues. intro H.
  apply appendOnly_nil in H; [|apply EngineFacts.checkComponentReuse_appendOnly].
  destruct (present (paths spec));
    [apply appendOnly_nil in H; [|apply EngineFacts.checkTagsUsage_appendOnly]|];
    (destruct (version i) as [v|]; simpl in H |- *;
     [destruct (str_empty v); destruct (String.eqb v "1.0.0"); simpl in H |- *|];
     destruct (nonEmptyArr (servers spec)); simpl in H |- *;
     try reflexivity; discriminate H).
Qed.

(** X3: in every report a criterion with a positive weight below 2^53
    keeps its whole weight exactly when its issue list is empty: every
    amount an evaluator subtracts comes with an issue, and every issue costs
    at least a point. *)
Theorem full_marks_iff_no_issue
    (this : Weights) (spec : OpenAPISpec) (now : string) (rep : ScoringReport)
    (r : ScoreResult) :
  SE.score this spec now = Ok rep ->
  In r (results rep) ->
  0 < weight r ->
  weight r < two53 ->
  (score r == weight r <-> issues r = []).
Proof.
  intros H Hin Hpos _.
  destruct (score_results _ _ _ _ H) as (doc & best & Hd & Hb & Hr).
  destruct (fixedPenalties_nonneg spec) as (F1 & F2 & F6 & F7).
  rewrite Hr in Hin. simpl in Hin.
  destruct Hin as [<-|[<-|[<-|[<-|[<-|[<-|[<-|[]]]]]]]].
  - eapply scoredOutOf_full_marks;
      [apply scoreSchemaTypes_formula|exact F1|apply scoreSchemaTypes_no_issue|].
    now rewrite <- (proj1 (scoreSchemaTypes_formula this spec)).
  - eapply scoredOutOf_full_marks;
      [apply (scoreDocumentation_formula _ _ _ Hd)|exact F2
      |apply (scoreDocumentation_no_issue _ _ _ Hd)|].
    now rewrite <- (proj1 (scoreDocumentation_formula _ _ _ Hd)).
  - destruct (paths spec) as [ps|] eqn:E.
    + eapply scoredOutOf_full_marks;
        [apply (scorePathsOperations_formula _ _ _ E)|lia|reflexivity|].
      now rewrite <- (proj1 (scorePathsOperations_formula _ _ _ E)).
    + destruct (missing_paths_short_circuit this spec E) as (Hs & _ & Hi).
      rewrite Hs, Hi. split; [|discriminate].
      intro H0. rewrite <- H0 in Hpos. discriminate Hpos.
  - eapply scoredOutOf_full_marks;
      [apply scoreResponseCodes_formula|lia|reflexivity|].
    now rewrite <- (proj1 (scoreResponseCodes_formula this spec)).
  - eapply scoredOutOf_full_marks;
      [apply scoreExamples_formula|lia|reflexivity|].
    now rewrite <- (proj1 (scoreExamples_formula this spec)).
  - eapply scoredOutOf_full_marks;
      [apply scoreSecurity_formula|exact F6|apply scoreSecurity_no_issue|].
    now rewrite <- (proj1 (scoreSecurity_formula this spec)).
  - eapply scoredOutOf_full_marks;
      [apply (scoreBestPractices_formula _ _ _ Hb)|exact F7
      |apply (scoreBestPractices_no_issue _ _ _ Hb)|].
    now rewrite <- (proj1 (scoreBestPractices_formula _ _ _ Hb)).
Qed.

(** [schemaOnly] under the default weights: Schema & Types has no issue
    and keeps its 20 points. *)
Lemma full_marks_witness :
  exists rep,
    SE.score SE.defaultWeights schemaOnly "2024-01-01T00:00:00.000Z" = Ok rep /\
    issues (SE.scoreSchemaTypes SE.defaultWeights schemaOnly) = [] /\
    score (SE.scoreSchemaTypes SE.defaultWeights schemaOnly) == 20.
Proof.
  destruct (SE.score SE.defaultWeights schemaOnly "2024-01-01T00:00:00.000Z")
    as [rep|e] eqn:E; [|discriminate E].
  exists rep. split; [reflexivity|]. split; [reflexivity|].
  assert (In (SE.scoreSchemaTypes SE.defaultWeights schemaOnly) (results rep)) as Hin.
  { destruct (score_results _ _ _ _ E) as (doc & best & _ & _ & ->). now left. }
  apply (full_marks_iff_no_issue _ _ _ _ _ E Hin); reflexivity.
Defined.

Lemma sumWeighted_bounds (this : Weights) (spec : OpenAPISpec) (now : string)
    (rep : ScoringReport) :
  nonNegativeWeights this ->
  SE.score this spec now = Ok rep ->
  0 <= sumWeighted (results rep) /\ sumWeighted (results rep) <= totalWeight this.
Proof.
  intros (W1 & W2 & W3 & W4 & W5 & W6 & W7) H.
  destruct (results_scoredOutOf _ _ _ _ H)
    as (r1 & r2 & r3 & r4 & r5 & r6 & r7 & Hr & H1 & H2 & H3 & H4 & H5 & H6 & H7).
  destruct (fixedPenalties_nonneg spec) as (F1 & F2 & F6 & F7).
  assert (forall r w fixed, 0 <= w -> (0 <= fixed)%Z -> scoredOutOf r w fixed ->
            0 <= weightedScore r /\ weightedScore r <= w) as Hrange.
  { intros r w fixed Hw Hf Hs. destruct (scoredOutOf_range r w fixed Hw Hf Hs) as [Ha Hb].
    destruct Hs as (Hwr & _ & -> & _). now rewrite <- Hwr. }
  assert (0 <= weightedScore r3 /\ weightedScore r3 <= pathsOperations this) as B3.
  { destruct (paths spec).
    - apply (Hrange r3 _ 0%Z); (assumption || lia).
    - destruct H3 as (_ & _ & -> & ->). split; [apply Qle_refl|exact W3]. }
  pose proof (Hrange _ _ _ W1 F1 H1) as B1. pose proof (Hrange _ _ _ W2 F2 H2) as B2.
  pose proof (Hrange r4 _ 0%Z W4 ltac:(lia) H4) as B4.
  pose proof (Hrange r5 _ 0%Z W5 ltac:(lia) H5) as B5.
  pose proof (Hrange _ _ _ W6 F6 H6) as B6. pose proof (Hrange _ _ _ W7 F7 H7) as B7.
  rewrite Hr. unfold totalWeight. simpl. clear - B1 B2 B3 B4 B5 B6 B7.
  generalize dependent (weightedScore r1). generalize dependent (weightedScore r2).
  generalize dependent (weightedScore r3). generalize dependent (weightedScore r4).
  generalize dependent (weightedScore r5). generalize dependent (weightedScore r6).
  generalize dependent (weightedScore r7). destruct this. simpl. intros. lra.
Qed.

(** X4: under whole-number weights the reported overall score lies between
    0 and the sum of the seven weights, so between 0 and 100 when the
    weights sum to 100, as the default ones do. *)
Theorem overall_score_within_total_weight
    (this : Weights) (spec : OpenAPISpec) (now : string) (rep : ScoringReport) :
  wholeWeights this ->
  SE.score this spec now = Ok rep ->
  0 <= overallScore rep /\
  overallScore rep <= totalWeight this /\
  (totalWeight this == 100 -> overallScore rep <= 100).
Proof.
  intros W H.
  destruct (sumWeighted_bounds _ _ _ _ (wholeWeights_nonNegative _ W) H) as [Hlo Hhi].
  pose proof (overallScore_whole _ _ _ _ W H) as Ho.
  rewrite Ho. split; [exact Hlo|]. split; [exact Hhi|].
  intro E. now rewrite <- E.
Qed.

Lemma overall_score_bounds_witness :
  exists rep,
    SE.score SE.defaultWeights Samples.minimalSpec "2024-01-01T00:00:00.000Z" = Ok rep /\
    0 <= overallScore rep /\ overallScore rep <= 100.
Proof.
  destruct (SE.score SE.defaultWeights Samples.minimalSpec "2024-01-01T00:00:00.000Z")
    as [rep|e] eqn:E; [|discriminate E].
  exists rep. split; [reflexivity|].
  destruct (overall_score_within_total_weight _ _ _ _ default_weights_whole E)
    as (Hlo & _ & Hhi).
  split; [exact Hlo|]. apply Hhi. reflexivity.
Defined.

(** ** The validator *)

Lemma length_isNil {T : Type} (l : list T) : (List.length l =? 0)%nat = isNil l.
Proof. destruct l; reflexivity. Qed.

Lemma isNil_app {T : Type} (l1 l2 : list T) : isNil (l1 ++ l2) = isNil l1 && isNil l2.
Proof. destruct l1; reflexivity. Qed.

Lemma isNil_appendOnly {T : Type} (c : Pusher T) (arr : list T) :
  appendOnly c -> isNil (c arr) = isNil arr && isNil (emitted c).
Proof. intro H. rewrite H. apply isNil_app. Qed.

Lemma isNil_flat_map {X Y : Type} (f : X -> list Y) (l : list X) :
  isNil (flat_map f l) = forallb (fun x => isNil (f x)) l.
Proof.
  induction l as [|x l IH]; [reflexivity|]. simpl. now rewrite isNil_app, IH.
Qed.

Lemma forallb_ext {X : Type} (f g : X -> bool) (l : list X) :
  (forall x, f x = g x) -> forallb f l = forallb g l.
Proof. intro H. induction l as [|x l IH]; simpl; [reflexivity|]. now rewrite H, IH. Qed.

Lemma isNil_when {T : Type} (b : bool) (x : T) :
  isNil (emitted (when b (push x))) = negb b.
Proof. destruct b; reflexivity. Qed.

Lemma validateOperation_appendOnly (p : string) (m : Method) (op : Operation) :
  appendOnly (OpenAPILoader.validateOperation p m op).
Proof. unfold OpenAPILoader.validateOperation. append_only. Qed.

Lemma validatePaths_silent (ps : Paths) :
  isNil (emitted (OpenAPILoader.validatePaths ps))
  = forallb (fun entry => startsWithChar "/" (fst entry) && operationsRespond (snd entry)) ps.
Proof.
  unfold OpenAPILoader.validatePaths.
  rewrite emitted_forEach
    by (intros [k item] _; pose proof validateOperation_appendOnly; append_only; auto).
  rewrite isNil_flat_map. apply forallb_ext. intros [k item]. cbv zeta beta.
  rewrite emitted_andThen
    by (pose proof validateOperation_appendOnly; append_only; auto).
  rewrite isNil_app, isNil_when, negb_involutive. simpl fst. simpl snd. f_equal.
  rewrite emitted_forEach
    by (intros m _; pose proof validateOperation_appendOnly; append_only; auto).
  rewrite isNil_flat_map. unfold operationsRespond. apply forallb_ext. intro m.
  destruct (getOp item m) as [op|]; [|reflexivity].
  unfold OpenAPILoader.validateOperation. now rewrite isNil_when, negb_involutive.
Qed.

Lemma validateComponents_silent (c : Components) :
  isNil (emitted (OpenAPILoader.validateComponents c))
  = match securitySchemes c with
    | Some schemes => forallb (fun entry => truthyStr (scheme_type (snd entry))) schemes
    | None => true
    end.
Proof.
  unfold OpenAPILoader.validateComponents.
  rewrite emitted_andThen by append_only. rewrite isNil_app.
  assert (isNil (emitted (match schemas c with
                          | Some entries =>
                              forEach entries (fun '(_, _) => @skip string)
                          | None => skip
                          end)) = true) as ->.
  { destruct (schemas c) as [entries|]; [|reflexivity].
    rewrite emitted_forEach by (intros [n s] _; apply appendOnly_skip).
    rewrite isNil_flat_map. apply forallb_forall. intros [n s] _. reflexivity. }
  simpl. destruct (securitySchemes c) as [schemes|]; [|reflexivity].
  rewrite emitted_forEach by (intros; append_only).
  rewrite isNil_flat_map. apply forallb_ext. intros [n s].
  now rewrite isNil_when, negb_involutive.
Qed.

Lemma validate_accepts_exactly_the_well_formed_eq (spec : OpenAPISpec) :
  OpenAPILoader.isValid (OpenAPILoader.validate spec)
  = versionSupported spec && infoComplete spec && pathsWellFormed spec
    && schemesTyped spec.
Proof.
  unfold OpenAPILoader.validate. cbv zeta. simpl OpenAPILoader.isValid.
  rewrite length_isNil.
  unfold versionSupported, infoComplete, pathsWellFormed, schemesTyped.
  set (e1 := match openapi spec with
             | Some v => _
             | None => _
             end).
  assert (isNil e1 = match openapi spec with
                     | Some v => String.prefix "3." v
                     | None => false
                     end) as H1.
  { subst e1. destruct (openapi spec) as [v|]; [|reflexivity].
    destruct v as [|a v]; [reflexivity|]. simpl str_empty. cbv iota.
    destruct (String.prefix "3." (String a v)); reflexivity. }
  set (e2 := match info spec with
             | Some i => _
             | None => _
             end).
  assert (isNil e2 = isNil e1 && match info spec with
                                 | Some i => truthyStr (title i) && truthyStr (version i)
                                 | None => false
                                 end) as H2.
  { subst e2. destruct (info spec) as [i|].
    - rewrite isNil_appendOnly by append_only.
      rewrite emitted_andThen by append_only.
      now rewrite isNil_app, !isNil_when, !negb_involutive.
    - unfold push. rewrite isNil_app. simpl. now rewrite andb_false_r. }
  clearbody e1 e2.
  destruct (paths spec) as [ps|]; destruct (components spec) as [c|];
    rewrite ?(isNil_appendOnly _ _ (validateComponents_appendOnly _)),
            ?(isNil_appendOnly _ _ (validatePaths_appendOnly _)),
            ?validateComponents_silent, ?validatePaths_silent;
    unfold push; rewrite ?isNil_app, H2, H1; simpl;
    rewrite ?andb_true_r, ?andb_false_r; reflexivity.
Qed.

(** X5: a document the validator accepts has an [openapi] version that
    starts with [3.], an [info] with a title and a version, [paths] with
    every key starting with a slash and [responses] on every operation
    under any of the eight methods, and a type on every security scheme. *)
Theorem validate_accepts_only_the_well_formed (spec : OpenAPISpec) :
  OpenAPILoader.isValid (OpenAPILoader.validate spec) = true ->
  versionSupported spec = true /\ infoComplete spec = true /\
  pathsWellFormed spec = true /\ schemesTyped spec = true.
Proof.
  rewrite validate_accepts_exactly_the_well_formed_eq. intro H.
  apply andb_true_iff in H. destruct H as [H H4].
  apply andb_true_iff in H. destruct H as [H H3].
  apply andb_true_iff in H. destruct H as [H1 H2]. auto.
Qed.

Lemma validate_witness :
  OpenAPILoader.isValid (OpenAPILoader.validate Samples.minimalSpec) = true /\
  versionSupported Samples.minimalSpec = true /\
  pathsWellFormed Samples.minimalSpec = true.
Proof.
  split; [reflexivity|].
  destruct (validate_accepts_only_the_well_formed Samples.minimalSpec eq_refl)
    as (H1 & _ & H3 & _).
  split; assumption.
Defined.

(** ** Examples and Security, operation by operation *)

Lemma map_filter_flat_map {X Y Z : Type} (f : Y -> Z) (g : Y -> bool)
    (h : X -> list Y) (l : list X) :
  map f (filter g (flat_map h l)) = flat_map (fun x => map f (filter g (h x))) l.
Proof.
  induction l as [|x l IH]; [reflexivity|].
  simpl. now rewrite filter_app, map_app, IH.
Qed.

Lemma operations_loop (mk : string -> Method -> Issue) (flagged : Operation -> bool)
    (spec : OpenAPISpec) (ps : Paths) (body : string -> PathItem -> Check) :
  paths spec = Some ps ->
  (forall p item arr, body p item arr = arr ++ flaggedMethods mk flagged p item) ->
  forall arr,
    forEach ps (fun '(p, item) => body p item) arr
    = arr ++ issuesOfOperations mk flagged spec.
Proof.
  intros E Hbody arr.
  assert (forall p item, emitted (body p item) = flaggedMethods mk flagged p item) as Hem
      by (intros; unfold emitted; now rewrite Hbody).
  assert (forall p item, appendOnly (body p item)) as Happ
      by (intros p item a; now rewrite Hem, Hbody).
  rewrite forEach_flat_map by (intros [p item] _; apply Happ). f_equal.
  unfold issuesOfOperations, examinedOperations. rewrite E, map_filter_flat_map.
  apply flat_map_ext. intros [p item]. rewrite Hem. unfold flaggedMethods.
  rewrite map_filter_flat_map. apply flat_map_ext. intro m. simpl fst. simpl snd.
  destruct (getOp item m) as [op|]; [|reflexivity].
  simpl. destruct (flagged op); reflexivity.
Qed.

Lemma checkExamples_flagged (p : string) (item : PathItem) (arr : list Issue) :
  SE.checkExamples p item arr
  = arr ++ flaggedMethods exampleIssue (fun op => negb (carriesExample op)) p item.
Proof.
  unfold SE.checkExamples.
  rewrite forEach_flat_map by (intros; append_only).
  f_equal. unfold flaggedMethods. apply flat_map_ext. intro m.
  destruct (getOp item m) as [op|]; [|reflexivity]. cbv zeta.
  assert (match op_responses op with
          | Some responses =>
              if existsb (fun response => SE.hasExamplesInContent (snd response)) responses
              then true
              else match op_requestBody op with
                   | Some requestBody => SE.hasExamplesInContent (Some requestBody)
                   | None => false
                   end
          | None => match op_requestBody op with
                    | Some requestBody => SE.hasExamplesInContent (Some requestBody)
                    | None => false
                    end
          end = carriesExample op) as ->.
  { unfold carriesExample. destruct (op_requestBody op), (op_responses op) as [rs|];
      simpl; try destruct (existsb _ rs); rewrite ?orb_true_r, ?orb_false_r; reflexivity. }
  destruct (carriesExample op); reflexivity.
Qed.

Lemma totalDeduction_low (l : list Issue) :
  Forall (fun i => severity i = low) l -> totalDeduction l = Z.of_nat (List.length l).
Proof.
  induction 1 as [|i l Hi _ IH]; [reflexivity|].
  simpl totalDeduction. rewrite Hi, IH. simpl penalty. simpl List.length. lia.
Qed.

(** X6: Examples & Samples has one low issue for each operation under the
    five methods whose request body and responses carry no example, in the
    order of the paths and methods, and nothing else; with a weight below
    2^53 each costs one point. *)
Theorem examples_one_issue_per_operation_without_example
    (this : Weights) (spec : OpenAPISpec) :
  issues (SE.scoreExamples this spec)
  = issuesOfOperations exampleIssue (fun op => negb (carriesExample op)) spec /\
  (examples this < two53 ->
   score (SE.scoreExamples this spec)
   == Qmax 0 (examples this
              - inject_Z (Z.of_nat (List.length (issues (SE.scoreExamples this spec)))))).
Proof.
  assert (issues (SE.scoreExamples this spec)
          = issuesOfOperations exampleIssue (fun op => negb (carriesExample op)) spec) as Hi.
  { unfold SE.scoreExamples. cbv zeta. simpl issues.
    destruct (paths spec) as [ps|] eqn:E.
    - now rewrite (operations_loop exampleIssue (fun op => negb (carriesExample op)) spec ps
                     SE.checkExamples E checkExamples_flagged).
    - unfold issuesOfOperations, examinedOperations. now rewrite E. }
  split; [exact Hi|]. intros _.
  destruct (scoreExamples_formula this spec) as (_ & _ & _ & Hs).
  rewrite Hs. apply Q.max_compat; [reflexivity|].
  rewrite totalDeduction_low.
  - change (inject_Z 0) with 0. ring.
  - rewrite Hi. unfold issuesOfOperations. apply Forall_forall.
    intros i Hin. apply in_map_iff in Hin. destruct Hin as (e & <- & _). reflexivity.
Qed.

(** [bareSpec] has one examined operation, its [get], without example. *)
Lemma examples_witness :
  issues (SE.scoreExamples SE.defaultWeights bareSpec) = [exampleIssue "/items/{id}" GET] /\
  score (SE.scoreExamples SE.defaultWeights bareSpec) == 9.
Proof.
  destruct (examples_one_issue_per_operation_without_example SE.defaultWeights bareSpec)
    as [Hi Hs].
  split; [rewrite Hi; reflexivity|].
  rewrite (Hs ltac:(reflexivity)), Hi. reflexivity.
Defined.

Lemma checkOperationSecurity_flagged (spec : OpenAPISpec) (ps : Paths) (arr : list Issue) :
  paths spec = Some ps ->
  SE.checkOperationSecurity spec arr
  = arr ++ issuesOfOperations unsecuredOperationIssue
             (fun op => negb (nonEmptyArr (spec_security spec))
                        && negb (nonEmptyArr (op_security op))) spec.
Proof.
  intro E. unfold SE.checkOperationSecurity. rewrite E.
  apply (operations_loop unsecuredOperationIssue _ spec ps
           (fun p item => forEach SE.methods (fun method =>
              match getOp item method with
              | Some operation =>
                  when (negb (nonEmptyArr (spec_security spec))
                        && negb (nonEmptyArr (op_security operation)))
                    (push (unsecuredOperationIssue p method))
              | None => skip
              end)) E).
  intros p item a. rewrite forEach_flat_map by (intros; append_only).
  f_equal. unfold flaggedMethods. apply flat_map_ext. intro m.
  destruct (getOp item m) as [op|]; [|reflexivity].
  destruct (_ && _); reflexivity.
Qed.

(** X7: the Security issues are, in order: one high issue when no security
    scheme is defined, one medium issue when no global security is defined,
    and then, only when no global security is defined, one medium issue
    for each operation under the five methods that has no security of its
    own. With global security no operation is flagged, whatever its own
    security. *)
Theorem security_issues_listed (this : Weights) (spec : OpenAPISpec) :
  issues (SE.scoreSecurity this spec)
  = (if nonEmptyArr (SE.componentSecuritySchemes spec) then [] else [noSchemesIssue])
    ++ (if nonEmptyArr (spec_security spec) then [] else [noGlobalSecurityIssue])
    ++ (if nonEmptyArr (spec_security spec) then []
        else issuesOfOperations unsecuredOperationIssue
               (fun op => negb (nonEmptyArr (op_security op))) spec).
Proof.
  unfold SE.scoreSecurity. cbv zeta. simpl issues.
  assert (issuesOfOperations unsecuredOperationIssue
            (fun op => negb (nonEmptyArr (spec_security spec))
                       && negb (nonEmptyArr (op_security op))) spec
          = if nonEmptyArr (spec_security spec) then []
            else issuesOfOperations unsecuredOperationIssue
                   (fun op => negb (nonEmptyArr (op_security op))) spec) as Hglobal.
  { unfold issuesOfOperations. destruct (nonEmptyArr (spec_security spec)); simpl.
    - induction (examinedOperations spec) as [|e l IH]; [reflexivity|exact IH].
    - reflexivity. }
  destruct (paths spec) as [ps|] eqn:E; simpl present; cbv iota.
  - rewrite (checkOperationSecurity_flagged spec ps _ E), Hglobal.
    destruct (nonEmptyArr (SE.componentSecuritySchemes spec));
      destruct (nonEmptyArr (spec_security spec)); reflexivity.
  - assert (issuesOfOperations unsecuredOperationIssue
              (fun op => negb (nonEmptyArr (op_security op))) spec = []) as ->
        by (unfold issuesOfOperations, examinedOperations; now rewrite E).
    destruct (nonEmptyArr (SE.componentSecuritySchemes spec));
      destruct (nonEmptyArr (spec_security spec)); reflexivity.
Qed.

(** ** Reusable schemas *)

Lemma bareObject_discriminated (s : Schema) : bareObject s = true -> discriminated s = true.
Proof.
  unfold bareObject, discriminated. destruct (s_type s) as [| |b|z|t|]; try discriminate.
  destruct (String.eqb t "object") eqn:E; [|discriminate].
  apply String.eqb_eq in E. subst t. reflexivity.
Qed.

(** X8: [validateSchemaTypes] pushes at most one issue for a schema: the
    one for a missing type when the schema has no type, reference or
    composition, the one for missing properties when it is an [object]
    without properties or additional properties, and these two cases
    exclude each other. *)
Theorem validateSchemaTypes_at_most_one_issue (schemaName : string) (schema : Schema) :
  (List.length (emitted (SE.validateSchemaTypes schemaName schema)) <= 1)%nat /\
  isNil (emitted (SE.validateSchemaTypes schemaName schema))
  = discriminated schema && negb (bareObject schema) /\
  (bareObject schema = true -> discriminated schema = true).
Proof.
  pose proof (bareObject_discriminated schema) as Hbd.
  split; [|split; [|exact Hbd]];
    unfold SE.validateSchemaTypes; rewrite emitted_andThen by append_only;
    fold (bareObject schema);
    assert (negb (truthy (s_type schema)) && negb (truthy (s_ref schema))
            && negb (truthy (s_allOf schema)) && negb (truthy (s_oneOf schema))
            && negb (truthy (s_anyOf schema)) = negb (discriminated schema)) as ->
      by (unfold discriminated;
          destruct (truthy (s_type schema)), (truthy (s_ref schema)),
            (truthy (s_allOf schema)), (truthy (s_oneOf schema)),
            (truthy (s_anyOf schema)); reflexivity);
    destruct (discriminated schema); destruct (bareObject schema);
    try reflexivity; simpl; try lia; now specialize (Hbd eq_refl).
Qed.

(** ** Paths that differ in slashes only *)

Lemma segmentsOverlap_refl (s : list string) : SE.segmentsOverlap s s = true.
Proof.
  induction s as [|a s IH]; [reflexivity|]. simpl. now rewrite String.eqb_refl.
Qed.

Lemma split_nonempty (c : ascii) (s : string) : split c s <> [].
Proof.
  destruct s as [|a s]; simpl; [discriminate|].
  destruct (Ascii.eqb a c); [discriminate|]. destruct (split c s); discriminate.
Qed.

Lemma split_trailing (c : ascii) (s : string) :
  split c (s ^^ String c EmptyString) = split c s ++ [EmptyString].
Proof.
  induction s as [|a s IH]; simpl.
  - now rewrite Ascii.eqb_refl.
  - destruct (Ascii.eqb a c); [now rewrite IH|].
    rewrite IH. pose proof (split_nonempty c s) as Hne.
    destruct (split c s) as [|piece rest]; [contradiction|reflexivity].
Qed.

Lemma segmentsOf_trailing_slash (p : string) : segmentsOf (p ^^ "/") = segmentsOf p.
Proof.
  unfold segmentsOf. rewrite split_trailing, filter_app. simpl. apply app_nil_r.
Qed.

(** X9: two paths with the same non-empty segments overlap; so every path
    overlaps itself, and a path overlaps the same path with a slash
    appended. *)
Theorem paths_with_equal_segments_overlap :
  (forall path1 path2,
      segmentsOf path1 = segmentsOf path2 -> SE.pathsOverlap path1 path2 = true) /\
  (forall p, SE.pathsOverlap p p = true) /\
  (forall p, SE.pathsOverlap p (p ^^ "/") = true).
Proof.
  assert (forall path1 path2,
             segmentsOf path1 = segmentsOf path2 -> SE.pathsOverlap path1 path2 = true) as H.
  { intros path1 path2 E. unfold SE.pathsOverlap. cbv zeta.
    fold (segmentsOf path1) (segmentsOf path2). rewrite E, Nat.eqb_refl. simpl.
    apply segmentsOverlap_refl. }
  split; [exact H|]. split.
  - intro p. now apply H.
  - intro p. apply H. symmetry. apply segmentsOf_trailing_slash.
Qed.

(** ** The colour of the score *)

Lemma getScoreColor_grade (s : Q) :
  ReportGenerator.getScoreColor s = gradeColor (SE.calculateGrade s).
Proof.
  unfold ReportGenerator.getScoreColor, SE.calculateGrade.
  destruct (Qle_bool 90 s); [reflexivity|]. destruct (Qle_bool 80 s); [reflexivity|].
  destruct (Qle_bool 70 s); [reflexivity|]. destruct (Qle_bool 60 s); reflexivity.
Qed.

(** X10: the colour the reporter gives a score is the colour of the grade
    [calculateGrade] gives that score; so under whole-number weights, as
    the default ones are, the colour of the reported overall score is the
    colour of the report's grade. *)
Theorem score_color_matches_grade
    (this : Weights) (spec : OpenAPISpec) (now : string) (rep : ScoringReport) :
  wholeWeights this ->
  SE.score this spec now = Ok rep ->
  (forall s, ReportGenerator.getScoreColor s = gradeColor (SE.calculateGrade s)) /\
  ReportGenerator.getScoreColor (overallScore rep) = gradeColor (grade rep).
Proof.
  intros W H. split; [exact getScoreColor_grade|].
  destruct (score_aggregates _ _ _ _ H) as (_ & Hg & _).
  assert (fold_left (fun sum result => sum + weightedScore result) (results rep) 0
          == sumWeighted (results rep)) as Hsum
      by (rewrite reduce_sumWeighted; ring).
  rewrite getScoreColor_grade, Hg. f_equal. apply calculateGrade_compat.
  now rewrite (overallScore_whole _ _ _ _ W H), Hsum.
Qed.

Lemma score_color_witness :
  exists rep,
    SE.score SE.defaultWeights Samples.minimalSpec "2024-01-01T00:00:00.000Z" = Ok rep /\
    ReportGenerator.getScoreColor (overallScore rep) = "#fd7e14" /\
    grade rep = D.
Proof.
  destruct (SE.score SE.defaultWeights Samples.minimalSpec "2024-01-01T00:00:00.000Z")
    as [rep|e] eqn:E; [|discriminate E].
  exists rep. split; [reflexivity|].
  destruct (score_color_matches_grade _ _ _ _ default_weights_whole E) as [_ Hc].
  assert (grade rep = D) as Hg by (vm_compute in E; injection E as <-; reflexivity).
  rewrite Hc, Hg. split; reflexivity.
Defined.

(** ** A validated document keeps its title *)

(** X11: when [score] returns a report for a document the validator
    accepts, the title and version of the report are the document's own and
    are not empty: the fallback [Unknown] is for documents the validator
    rejects. *)
Theorem validated_document_keeps_title_and_version
    (this : Weights) (spec : OpenAPISpec) (now : string) (rep : ScoringReport) :
  OpenAPILoader.isValid (OpenAPILoader.validate spec) = true ->
  SE.score this spec now = Ok rep ->
  exists i,
    info spec = Some i /\
    title i = Some (si_title (specInfo rep)) /\
    version i = Some (si_version (specInfo rep)) /\
    si_title (specInfo rep) <> EmptyString /\
    si_version (specInfo rep) <> EmptyString.
Proof.
  intros Hv Hrep. rewrite validate_accepts_exactly_the_well_formed_eq in Hv.
  apply andb_true_iff in Hv. destruct Hv as [Hv _].
  apply andb_true_iff in Hv. destruct Hv as [Hv _].
  apply andb_true_iff in Hv. destruct Hv as [_ Hi].
  unfold infoComplete in Hi. destruct (info spec) as [i|] eqn:E; [|discriminate Hi].
  apply andb_true_iff in Hi. destruct Hi as [Ht Hver].
  exists i. split; [reflexivity|].
  destruct (score_counts _ _ _ _ Hrep) as (_ & _ & _ & _ & Hst & Hsv).
  rewrite E in Hst, Hsv. rewrite Hst, Hsv.
  destruct (title i) as [[|a t]|]; try discriminate Ht.
  destruct (version i) as [[|b v]|]; try discriminate Hver.
  simpl. repeat split; discriminate.
Qed.

Lemma validated_title_witness :
  exists rep,
    SE.score SE.defaultWeights Samples.minimalSpec "2024-01-01T00:00:00.000Z" = Ok rep /\
    si_title (specInfo rep) = "Test API" /\ si_version (specInfo rep) = "1.0.0".
Proof.
  destruct (SE.score SE.defaultWeights Samples.minimalSpec "2024-01-01T00:00:00.000Z")
    as [rep|e] eqn:E; [|discriminate E].
  destruct (validated_document_keeps_title_and_version SE.defaultWeights
              Samples.minimalSpec "2024-01-01T00:00:00.000Z" rep eq_refl E)
    as (i & Hi & Ht & Hv & _).
  exists rep. split; [reflexivity|].
  injection Hi as <-. simpl in Ht, Hv. injection Ht as <-. injection Hv as <-. auto.
Defined.

(** ** Tags *)

Lemma includes_In (l : list string) (x : string) : includes l x = true <-> In x l.
Proof.
  unfold includes. rewrite existsb_exists. split.
  - intros (y & Hy & E). apply String.eqb_eq in E. now subst y.
  - intro H. exists x. split; [exact H|apply String.eqb_refl].
Qed.

Lemma setAdd_spec (set : list string) (x : string) :
  (forall t, In t (SE.setAdd set x) <-> In t set \/ t = x) /\
  (NoDup set -> NoDup (SE.setAdd set x)).
Proof.
  unfold SE.setAdd. destruct (includes set x) eqn:E.
  - apply includes_In in E. split; [|auto]. intro t. split; [auto|].
    intros [H | ->]; assumption.
  - assert (~ In x set) as Hx by (rewrite <- includes_In; congruence). split.
    + intro t. rewrite in_app_iff. simpl. intuition.
    + intro Hnd. apply NoDup_app; [exact Hnd|repeat constructor; intros []|].
      intros t Ht [<-|[]]. contradiction.
Qed.

Lemma fold_setAdd_spec (ts set : list string) :
  (forall t, In t (fold_left SE.setAdd ts set) <-> In t set \/ In t ts) /\
  (NoDup set -> NoDup (fold_left SE.setAdd ts set)).
Proof.
  revert set. induction ts as [|x ts IH]; intro set; simpl.
  - split; [intro t; tauto|auto].
  - destruct (IH (SE.setAdd set x)) as [IHin IHnd].
    destruct (setAdd_spec set x) as [Hin Hnd]. split.
    + intro t. rewrite IHin, Hin. intuition.
    + auto.
Qed.

Lemma flat_map_cons' {X Y : Type} (f : X -> list Y) (x : X) (l : list X) :
  flat_map f (x :: l) = f x ++ flat_map f l.
Proof. reflexivity. Qed.

Lemma fold_methods {S : Type} (step : S -> Operation -> S) (p : string)
    (item : PathItem) (ms : list Method) (init : S) :
  fold_left (fun acc method =>
               match getOp item method with
               | Some operation => step acc operation
               | None => acc
               end) ms init
  = fold_left (fun acc e => step acc (snd e))
      (flat_map (fun m => match getOp item m with
                          | Some op => [(p, m, op)]
                          | None => []
                          end) ms) init.
Proof.
  revert init. induction ms as [|m ms IH]; intro init; [reflexivity|].
  rewrite flat_map_cons', fold_left_app. simpl fold_left at 1.
  destruct (getOp item m) as [op|]; simpl; apply IH.
Qed.

(** A loop over the path items and the five methods that updates an
    accumulator for each operation is a loop over the examined
    operations. *)
Lemma fold_examinedOperations {S : Type} (step : S -> Operation -> S)
    (spec : OpenAPISpec) (ps : Paths) (init : S) :
  paths spec = Some ps ->
  fold_left (fun acc pathItem =>
               fold_left (fun acc method =>
                            match getOp pathItem method with
                            | Some operation => step acc operation
                            | None => acc
                            end) SE.methods acc) (map snd ps) init
  = fold_left (fun acc e => step acc (snd e)) (examinedOperations spec) init.
Proof.
  intro E. unfold examinedOperations. rewrite E. clear E. revert init.
  induction ps as [|[p item] ps IH]; intro init; [reflexivity|].
  rewrite flat_map_cons', fold_left_app, <- IH.
  change (map snd ((p, item) :: ps)) with (item :: map snd ps).
  change (fst (p, item)) with p. change (snd (p, item)) with item.
  rewrite <- (fold_methods step p item SE.methods init). reflexivity.
Qed.

Lemma usedTags_spec (l : list (string * Method * Operation)) (set : list string) :
  let used := fold_left (fun acc e =>
                           match op_tags (snd e) with
                           | Some ts => fold_left SE.setAdd ts acc
                           | None => acc
                           end) l set in
  (forall t, In t used <->
             In t set \/ exists e ts, In e l /\ op_tags (snd e) = Some ts /\ In t ts) /\
  (NoDup set -> NoDup used).
Proof.
  revert set. induction l as [|e l IH]; intro set; cbv zeta; simpl fold_left.
  - split; [|auto]. intro t. split; [auto|]. intros [H|(e & ts & [] & _)]. exact H.
  - destruct (op_tags (snd e)) as [ts|] eqn:Et.
    + destruct (IH (fold_left SE.setAdd ts set)) as [IHin IHnd].
      destruct (fold_setAdd_spec ts set) as [Hin Hnd]. split; [|auto].
      intro t. rewrite IHin, Hin. split.
      * intros [[H|H]|(e' & ts' & He' & Hts' & Ht)]; [now left| |].
        -- right. exists e, ts. simpl. auto.
        -- right. exists e', ts'. simpl. auto.
      * intros [H|(e' & ts' & [<- | He'] & Hts' & Ht)]; [now left; left| |].
        -- rewrite Et in Hts'. injection Hts' as <-. now left; right.
        -- right. exists e', ts'. auto.
    + destruct (IH set) as [IHin IHnd]. split; [|auto].
      intro t. rewrite IHin. split.
      * intros [H|(e' & ts' & He' & Hts' & Ht)]; [now left|].
        right. exists e', ts'. simpl. auto.
      * intros [H|(e' & ts' & [<- | He'] & Hts' & Ht)]; [now left| |].
        -- rewrite Et in Hts'. discriminate Hts'.
        -- right. exists e', ts'. auto.
Qed.

Lemma untagged_count (l : list (string * Method * Operation)) (count : nat) :
  fold_left (fun count e =>
               if negb (nonEmptyArr (op_tags (snd e))) then S count else count) l count
  = (count + List.length (filter (fun e => negb (nonEmptyArr (op_tags (snd e)))) l))%nat.
Proof.
  revert count. induction l as [|e l IH]; intro count; simpl; [lia|].
  rewrite IH. destruct (negb (nonEmptyArr (op_tags (snd e)))); simpl; lia.
Qed.

(** X12: [checkTagsUsage] reports each tag that some operation under the
    five methods uses and the top-level [tags] do not define exactly once,
    however many operations use it, and then at most one issue that counts
    the operations without any tag, present exactly when there is one. *)
Theorem each_undefined_tag_reported_once (spec : OpenAPISpec) :
  exists reported,
    NoDup reported /\
    (forall t, In t reported <-> tagUsed spec t /\ ~ In t (definedTagNames spec)) /\
    emitted (SE.checkTagsUsage spec)
    = map undefinedTagIssue reported
      ++ (if (0 <? untaggedOperations spec)%nat
          then [untaggedIssue (untaggedOperations spec)] else []).
Proof.
  unfold SE.checkTagsUsage. destruct (paths spec) as [ps|] eqn:E.
  - cbv zeta.
    rewrite (fold_examinedOperations
               (fun acc op => match op_tags op with
                              | Some ts => fold_left SE.setAdd ts acc
                              | None => acc
                              end) spec ps [] E).
    rewrite (fold_examinedOperations
               (fun count op => if negb (nonEmptyArr (op_tags op)) then S count else count)
               spec ps O E).
    rewrite untagged_count. simpl Nat.add. fold (untaggedOperations spec).
    set (used := fold_left _ (examinedOperations spec) []).
    set (defined := match tags spec with
                    | Some ts => fold_left SE.setAdd (map tag_name ts) []
                    | None => []
                    end).
    destruct (usedTags_spec (examinedOperations spec) []) as [Hin Hnd].
    fold used in Hin, Hnd.
    assert (forall t, In t defined <-> In t (definedTagNames spec)) as Hdef.
    { intro t. subst defined. unfold definedTagNames. destruct (tags spec) as [ts|]; [|tauto].
      destruct (fold_setAdd_spec (map tag_name ts) []) as [H _]. rewrite H. simpl. tauto. }
    exists (filter (fun t => negb (includes defined t)) used). split; [|split].
    + apply NoDup_filter. apply Hnd. constructor.
    + intro t. rewrite filter_In, Hin, negb_true_iff. unfold tagUsed.
      rewrite <- Hdef, <- (includes_In defined t). split.
      * intros [[Hf|H] Hn]; [destruct Hf|]. split; [exact H|congruence].
      * intros [H Hn]. split; [now right|]. now destruct (includes defined t).
    + rewrite emitted_andThen by append_only. f_equal.
      * rewrite emitted_forEach by (intros; append_only).
        rewrite <- flat_map_when_filter. apply flat_map_ext. intro t.
        destruct (negb (includes defined t)); reflexivity.
      * destruct (0 <? untaggedOperations spec)%nat; reflexivity.
  - exists []. split; [constructor|]. split.
    + intro t. split; [intros []|]. intros [(e & ts & He & _) _].
      unfold examinedOperations in He. rewrite E in He. destruct He.
    + unfold untaggedOperations, examinedOperations. rewrite E. reflexivity.
Qed.

(** Two operations that use the same undefined tag, one of them also a
    defined one, and a third operation without tags. *)
Lemma tags_witness :
  let tagged ts := {| op_tags := Some ts; op_summary := None; op_description := None;
                      op_parameters := None; op_requestBody := None;
                      op_responses := None; op_security := None |} in
  let spec :=
    {| openapi := Some "3.0.0"; info := Some Samples.testInfo; servers := None;
       paths := Some [("/users",
                       {| pi_get := Some (tagged ["users"; "admin"]);
                          pi_put := None;
                          pi_post := Some (tagged ["admin"]);
                          pi_delete := Some (Samples.operationWith None);
                          pi_options := None; pi_head := None; pi_patch := None;
                          pi_trace := None; pi_nullish := [] |})];
       components := None; spec_security := None;
       tags := Some [{| tag_name := "users" |}] |} in
  emitted (SE.checkTagsUsage spec) = [undefinedTagIssue "admin"; untaggedIssue 1] /\
  exists reported,
    NoDup reported /\
    emitted (SE.checkTagsUsage spec)
    = map undefinedTagIssue reported
      ++ (if (0 <? untaggedOperations spec)%nat
          then [untaggedIssue (untaggedOperations spec)] else []).
Proof.
  cbv zeta. split; [reflexivity|].
  match goal with
  | |- context [SE.checkTagsUsage ?s] =>
      destruct (each_undefined_tag_reported_once s) as (reported & Hnd & _ & He)
  end.
  exists reported. split; assumption.
Defined.

(** ** Resources with a single operation *)

Lemma mapPush_keys (m : list (string * list string)) (r0 q : string) :
  map fst (SE.mapPush m r0 q)
  = if existsb (fun k => String.eqb k r0) (map fst m)
    then map fst m else map fst m ++ [r0].
Proof.
  induction m as [|[k v] m IH]; [reflexivity|]. simpl.
  destruct (String.eqb k r0); simpl; [reflexivity|]. rewrite IH.
  destruct (existsb _ (map fst m)); reflexivity.
Qed.

Lemma existsb_key (l : list string) (r0 : string) :
  existsb (fun k => String.eqb k r0) l = true <-> In r0 l.
Proof.
  rewrite existsb_exists. split.
  - intros (k & Hk & E). apply String.eqb_eq in E. now subst k.
  - intro H. exists r0. split; [exact H|apply String.eqb_refl].
Qed.

Lemma mapPush_NoDup (m : list (string * list string)) (r0 q : string) :
  NoDup (map fst m) -> NoDup (map fst (SE.mapPush m r0 q)).
Proof.
  intro H. rewrite mapPush_keys.
  destruct (existsb _ (map fst m)) eqn:E; [exact H|].
  apply NoDup_app; [exact H|repeat constructor; intros []|].
  intros k Hk [<-|[]]. apply existsb_key in Hk. congruence.
Qed.

Lemma mapPush_In (m : list (string * list string)) (r0 q r : string) (v : list string) :
  NoDup (map fst m) ->
  In (r, v) (SE.mapPush m r0 q) <->
  (r <> r0 /\ In (r, v) m)
  \/ (r = r0 /\ exists v0, v = v0 ++ [q]
                           /\ (In (r0, v0) m \/ (v0 = [] /\ ~ In r0 (map fst m)))).
Proof.
  induction m as [|[k w] m IH]; intro Hnd.
  - simpl. split.
    + intros [[= <- <-]|[]]. right. split; [reflexivity|]. exists []. auto.
    + intros [[_ []]|[-> (v0 & -> & [[]|[-> _]])]]. now left.
  - simpl map in Hnd. inversion Hnd as [|? ? Hk Hnd']; subst.
    specialize (IH Hnd'). simpl SE.mapPush.
    destruct (String.eqb k r0) eqn:E.
    + apply String.eqb_eq in E. subst k. simpl. split.
      * intros [[= <- <-]|H].
        -- right. split; [reflexivity|]. exists w. auto.
        -- left. split; [|now right]. intros ->. apply Hk.
           apply (in_map fst _ _ H).
      * intros [[Hr [[= E _]|H]]|[-> (v0 & -> & [[[= ->]|H]|[_ H]])]].
        -- congruence.
        -- now right.
        -- now left.
        -- exfalso. apply Hk. apply (in_map fst _ _ H).
        -- exfalso. apply H. now left.
    + apply String.eqb_neq in E. simpl. rewrite IH. split.
      * intros [[= <- <-]|[[Hr H]|[-> (v0 & -> & [H|[-> H]])]]].
        -- left. split; [exact E|now left].
        -- left. split; [exact Hr|now right].
        -- right. split; [reflexivity|]. exists v0. split; [reflexivity|]. left. now right.
        -- right. split; [reflexivity|]. exists []. split; [reflexivity|]. right.
           split; [reflexivity|]. intros [H0|H0]; [congruence|contradiction].
      * intros [[Hr [[= <- <-]|H]]|[-> (v0 & -> & [[[= E' _]|H]|[-> H]])]].
        -- now left.
        -- right. left. auto.
        -- congruence.
        -- right. right. split; [reflexivity|]. exists v0. auto.
        -- right. right. split; [reflexivity|]. exists []. split; [reflexivity|].
           right. split; [reflexivity|]. intro H0. apply H. now right.
Qed.

Lemma hasResource_eq (r q : string) : hasResource r q = true <-> resourceOf q = Some r.
Proof.
  unfold hasResource. destruct (resourceOf q) as [r'|]; [|split; discriminate].
  rewrite String.eqb_eq. split; congruence.
Qed.

Lemma groupsOf_step (seen : list string) (m : list (string * list string)) (q : string) :
  groupsOf seen m ->
  groupsOf (seen ++ [q])
           (match resourceOf q with
            | Some r0 => SE.mapPush m r0 q
            | None => m
            end).
Proof.
  intros [Hnd Hb]. destruct (resourceOf q) as [r0|] eqn:Eq.
  - split; [now apply mapPush_NoDup|]. intros r v.
    rewrite (mapPush_In m r0 q r v Hnd), filter_app. simpl filter.
    unfold hasResource at 2. rewrite Eq.
    destruct (String.eqb r0 r) eqn:E.
    + apply String.eqb_eq in E. subst r0. split.
      * intros [[Hr _]|[_ (v0 & -> & [H|[-> H]])]]; [congruence| |].
        -- apply Hb in H. destruct H as [-> _]. split; [reflexivity|].
           intro H0. apply app_eq_nil in H0. destruct H0 as [_ H0]. discriminate H0.
        -- split; [|discriminate].
           destruct (filter (hasResource r) seen) as [|x l] eqn:Ef; [reflexivity|].
           exfalso. apply H.
           assert (In (r, x :: l) m) as Hin by (apply Hb; split; [now rewrite Ef|discriminate]).
           apply (in_map fst _ _ Hin).
      * intros [-> _]. right. split; [reflexivity|].
        exists (filter (hasResource r) seen). split; [reflexivity|].
        destruct (filter (hasResource r) seen) as [|x l] eqn:Ef.
        -- right. split; [reflexivity|]. intro Hin. apply in_map_iff in Hin.
           destruct Hin as ([r' v'] & Hr' & Hin). simpl in Hr'. subst r'.
           apply Hb in Hin. destruct Hin as [-> Hne]. now rewrite Ef in Hne.
        -- left. apply Hb. split; [now rewrite Ef|discriminate].
    + apply String.eqb_neq in E. rewrite app_nil_r, <- Hb. split.
      * intros [[_ H]|[-> _]]; [exact H|congruence].
      * intro H. left. split; [congruence|exact H].
  - split; [exact Hnd|]. intros r v. rewrite filter_app. simpl filter.
    unfold hasResource at 2. rewrite Eq. rewrite app_nil_r. apply Hb.
Qed.

Lemma groupsOf_fold (step : list (string * list string) -> string -> list (string * list string))
    (keys seen : list string) (m : list (string * list string)) :
  (forall acc q, step acc q = match resourceOf q with
                              | Some r0 => SE.mapPush acc r0 q
                              | None => acc
                              end) ->
  groupsOf seen m -> groupsOf (seen ++ keys) (fold_left step keys m).
Proof.
  intro Hstep. revert seen m. induction keys as [|q keys IH]; intros seen m H.
  - now rewrite app_nil_r.
  - simpl fold_left. replace (seen ++ q :: keys) with ((seen ++ [q]) ++ keys)
      by (now rewrite <- app_assoc).
    apply IH. rewrite Hstep. now apply groupsOf_step.
Qed.

Lemma filter_singleton {X : Type} (f : X -> bool) (l : list X) (p : X) :
  NoDup l ->
  filter f l = [p] <-> In p l /\ f p = true /\ forall q, In q l -> f q = true -> q = p.
Proof.
  intro Hnd. split.
  - intro E. assert (In p (filter f l)) as Hp by (rewrite E; now left).
    apply filter_In in Hp. destruct Hp as [Hin Hf]. repeat split; try assumption.
    intros q Hq Hfq. assert (In q (filter f l)) as Hq' by (apply filter_In; auto).
    rewrite E in Hq'. destruct Hq' as [->|[]]. reflexivity.
  - intros (Hin & Hf & Huniq). induction Hnd as [|x l Hx Hnd IH]; [destruct Hin|].
    simpl. destruct (f x) eqn:Efx.
    + assert (x = p) as -> by (apply Huniq; [now left|exact Efx]).
      f_equal. destruct (filter f l) as [|y l'] eqn:Efl; [reflexivity|].
      assert (In y (filter f l)) as Hy by (rewrite Efl; now left).
      apply filter_In in Hy. destruct Hy as [Hyl Hfy].
      assert (y = p) as -> by (apply Huniq; [now right|exact Hfy]). contradiction.
    + destruct Hin as [->|Hin]; [congruence|].
      apply IH; [exact Hin|]. intros q Hq. apply Huniq. now right.
Qed.

Lemma getPath_In (ps : Paths) (p : string) (item : PathItem) :
  NoDup (map fst ps) -> (SE.getPath ps p = Some item <-> In (p, item) ps).
Proof.
  unfold SE.getPath. induction ps as [|[k it] ps IH]; intro Hnd.
  - simpl. split; [discriminate|intros []].
  - simpl map in Hnd. inversion Hnd as [|? ? Hk Hnd']; subst. specialize (IH Hnd').
    simpl. destruct (String.eqb k p) eqn:E.
    + apply String.eqb_eq in E. subst k. simpl. split.
      * intros [= ->]. now left.
      * intros [[= ->]|H]; [reflexivity|]. exfalso. apply Hk. apply (in_map fst _ _ H).
    + apply String.eqb_neq in E. rewrite IH. split; [auto|].
      intros [[= -> _]|H]; [congruence|exact H].
Qed.

(** What the second loop of [checkCrudConsistency] flags for one entry of
    the map. *)
Lemma crud_entry (ps : Paths) (r : string) (v : list string) :
  emitted (match v with
           | [p] =>
               match SE.getPath ps p with
               | Some pathItem =>
                   when (List.length
                           (filter (fun k => present (getOp pathItem k)
                                             || existsb (sameMethod k) (pi_nullish pathItem))
                                   SE.methods)
                         =? 1)%nat
                     (push (singleOperationIssue (r, p)))
               | None => skip
               end
           | _ => skip
           end)
  = map singleOperationIssue
      (match v with
       | [p] => match SE.getPath ps p with
                | Some item => if (crudMethods item =? 1)%nat then [(r, p)] else []
                | None => []
                end
       | _ => []
       end).
Proof.
  destruct v as [|p [|q v]]; try reflexivity.
  destruct (SE.getPath ps p) as [item|]; [|reflexivity].
  unfold crudMethods. destruct (_ =? 1)%nat; reflexivity.
Qed.

Lemma NoDup_keys_flat_map {X Y : Type} (h : X * Y -> list (X * X)) (m : list (X * Y)) :
  (forall e e', In e' (h e) -> fst e' = fst e) ->
  (forall e, (List.length (h e) <= 1)%nat) ->
  NoDup (map fst m) -> NoDup (map fst (flat_map h m)).
Proof.
  intros Hkey Hone. induction m as [|e m IH]; intro Hnd; [constructor|].
  simpl map in Hnd. inversion Hnd as [|? ? Hk Hnd']; subst.
  simpl flat_map. rewrite map_app. apply NoDup_app; [|now apply IH|].
  - specialize (Hone e). destruct (h e) as [|a [|b l]]; simpl in *;
      [constructor|repeat constructor; intros []|lia].
  - intros k Hk1 Hk2. apply in_map_iff in Hk1. destruct Hk1 as (e1 & <- & He1).
    apply in_map_iff in Hk2. destruct Hk2 as (e2 & E2 & He2).
    apply in_flat_map in He2. destruct He2 as (e3 & He3 & He2).
    apply Hkey in He1. apply Hkey in He2. apply Hk.
    rewrite <- He1, <- E2, He2. now apply in_map.
Qed.

Lemma map_over_flat_map {X Y Z : Type} (f : Y -> Z) (h : X -> list Y) (l : list X) :
  map f (flat_map h l) = flat_map (fun x => map f (h x)) l.
Proof.
  induction l as [|x l IH]; [reflexivity|]. simpl. now rewrite map_app, IH.
Qed.

(** X13: over distinct path keys, [checkCrudConsistency] pushes one issue
    for each resource that has a single path whose item has exactly one key
    among the five methods, whether that key holds an operation or a nullish
    value, and nothing else: a resource that two paths share is never
    flagged, and no resource is flagged twice. *)
Theorem single_operation_resources_flagged_once (ps : Paths) :
  NoDup (map fst ps) ->
  exists flagged,
    NoDup (map fst flagged) /\
    (forall r p, In (r, p) flagged <-> singleOperationResource ps r p) /\
    emitted (SE.checkCrudConsistency ps) = map singleOperationIssue flagged.
Proof.
  intro Hnd. unfold SE.checkCrudConsistency. cbv zeta.
  set (resources := fold_left _ (map fst ps) []).
  assert (groupsOf (map fst ps) resources) as [Hkeys Hgroups].
  { subst resources. apply (groupsOf_fold _ (map fst ps) [] []).
    - intros acc q. unfold resourceOf. cbv zeta.
      destruct (0 <? _)%nat; reflexivity.
    - split; [constructor|]. intros r v. simpl. split; [intros []|].
      intros [-> H]. now contradiction H. }
  set (h := fun e : string * list string =>
              match snd e with
              | [p] => match SE.getPath ps p with
                       | Some item => if (crudMethods item =? 1)%nat then [(fst e, p)] else []
                       | None => []
                       end
              | _ => []
              end).
  exists (flat_map h resources). split; [|split].
  - apply NoDup_keys_flat_map; [| |exact Hkeys].
    + intros [r v] e' He'. subst h. simpl in He'.
      destruct v as [|p [|q v]]; try destruct He'.
      destruct (SE.getPath ps p); [|destruct He'].
      destruct (_ =? 1)%nat; [|destruct He']. destruct He' as [<-|[]]. reflexivity.
    + intros [r v]. subst h. simpl.
      destruct v as [|p [|q v]]; simpl; try lia.
      destruct (SE.getPath ps p); simpl; [|lia]. destruct (_ =? 1)%nat; simpl; lia.
  - intros r p. rewrite in_flat_map. unfold singleOperationResource. split.
    + intros ([r' v] & Hin & Hh). subst h. simpl in Hh.
      destruct v as [|p' [|q v]]; try destruct Hh.
      destruct (SE.getPath ps p') as [item|] eqn:Eg; [|destruct Hh].
      destruct (crudMethods item =? 1)%nat eqn:Ec; [|destruct Hh].
      destruct Hh as [[= -> ->]|[]].
      apply Hgroups in Hin. destruct Hin as [Hf _]. symmetry in Hf.
      apply (filter_singleton _ _ _ Hnd) in Hf. destruct Hf as (Hp & Hr & Huniq).
      exists item. split; [now apply getPath_In|]. split; [now apply hasResource_eq|].
      split; [|now apply Nat.eqb_eq].
      intros q Hq Hrq. apply Huniq; [exact Hq|now apply hasResource_eq].
    + intros (item & Hin & Hr & Huniq & Hc).
      exists (r, [p]). split.
      * apply Hgroups. split; [|discriminate]. symmetry.
        apply (filter_singleton _ _ _ Hnd). split; [apply (in_map fst _ _ Hin)|].
        split; [now apply hasResource_eq|].
        intros q Hq Hrq. apply Huniq; [exact Hq|now apply hasResource_eq].
      * subst h. simpl. apply (getPath_In ps p item Hnd) in Hin. rewrite Hin.
        apply Nat.eqb_eq in Hc. rewrite Hc. now left.
  - rewrite emitted_forEach.
    + rewrite map_over_flat_map. apply flat_map_ext. intros [r v]. subst h.
      simpl snd. simpl fst. apply (crud_entry ps r v).
    + intros [r v] _. destruct v as [|p [|q v]]; append_only.
Qed.

(** [/users] and [/users/{id}] share their resource; [/orders] has a single
    [get]; [/jobs] has a [get] and the key [post] with the value [null], two
    keys; [/reports] has the key [get] with the value [null] and no
    operation, one key. *)
Lemma single_operation_witness :
  let item :=
    {| pi_get := Some (Samples.operationWith None); pi_put := None; pi_post := None;
       pi_delete := None; pi_options := None; pi_head := None; pi_patch := None;
       pi_trace := None; pi_nullish := [] |} in
  let jobs :=
    {| pi_get := Some (Samples.operationWith None); pi_put := None; pi_post := None;
       pi_delete := None; pi_options := None; pi_head := None; pi_patch := None;
       pi_trace := None; pi_nullish := [POST] |} in
  let reports :=
    {| pi_get := None; pi_put := None; pi_post := None;
       pi_delete := None; pi_options := None; pi_head := None; pi_patch := None;
       pi_trace := None; pi_nullish := [GET] |} in
  let ps := [("/users", item); ("/users/{id}", item); ("/orders", item);
             ("/jobs", jobs); ("/reports", reports)] in
  emitted (SE.checkCrudConsistency ps)
  = [singleOperationIssue ("orders", "/orders");
     singleOperationIssue ("reports", "/reports")] /\
  exists flagged,
    NoDup (map fst flagged) /\
    (forall r p, In (r, p) flagged <-> singleOperationResource ps r p) /\
    emitted (SE.checkCrudConsistency ps) = map singleOperationIssue flagged.
Proof.
  cbv zeta. split; [reflexivity|].
  apply single_operation_resources_flagged_once.
  repeat constructor; simpl; intuition discriminate.
Defined.

(** ** What every issue carries *)

Lemma pushesOnly_push (P : Issue -> Prop) (i : Issue) : P i -> pushesOnly P (push i).
Proof.
  intros H arr Harr. unfold push. apply Forall_app. split; [exact Harr|].
  constructor; [exact H|constructor].
Qed.

Lemma pushesOnly_skip (P : Issue -> Prop) : pushesOnly P skip.
Proof. intros arr H. exact H. Qed.

Lemma pushesOnly_when (P : Issue -> Prop) (b : bool) (c : Check) :
  pushesOnly P c -> pushesOnly P (when b c).
Proof. destruct b; simpl; [auto|intros _; apply pushesOnly_skip]. Qed.

Lemma pushesOnly_andThen (P : Issue -> Prop) (c1 c2 : Check) :
  pushesOnly P c1 -> pushesOnly P c2 -> pushesOnly P (c1 ;; c2).
Proof. intros H1 H2 arr H. unfold andThen. auto. Qed.

Lemma pushesOnly_forEach {X : Type} (P : Issue -> Prop) (xs : list X) (body : X -> Check) :
  (forall x, In x xs -> pushesOnly P (body x)) -> pushesOnly P (forEach xs body).
Proof.
  unfold forEach. induction xs as [|x xs IH]; intros Hbody arr H; [exact H|].
  simpl. apply IH.
  - intros y Hy. apply Hbody. now right.
  - apply Hbody; [now left|exact H].
Qed.

(** An issue literal is [ordinary]: its criterion and severity are read
    off, and its operation is the method of the loop it is pushed in. *)
Ltac ordinary_issue :=
  split;
  [reflexivity
  |split;
   [discriminate
   |first [left; reflexivity
          |right; eexists; split; [eassumption|reflexivity]]]].

(** Decides that a helper built from the combinators pushes only issues
    of the kind at hand, [literal] settling each issue literal. *)
Ltac pushes_with literal :=
  repeat
    (cbv zeta beta iota;
     lazymatch goal with
     | |- pushesOnly _ (push _) => apply pushesOnly_push; literal
     | |- pushesOnly _ skip => apply pushesOnly_skip
     | |- pushesOnly _ (when _ _) => apply pushesOnly_when
     | |- pushesOnly _ (_ ;; _) => apply pushesOnly_andThen
     | |- pushesOnly _ (forEach _ _) => apply pushesOnly_forEach; intros
     | |- pushesOnly _ (match ?x with _ => _ end) => destruct x; cbv iota beta
     end).

Ltac pushes_only := pushes_with ltac:(ordinary_issue).

Lemma validateSchemaTypes_ordinary (n : string) (s : Schema) :
  pushesOnly (ordinary "Schema & Types") (SE.validateSchemaTypes n s).
Proof. unfold SE.validateSchemaTypes. pushes_only. Qed.

Lemma checkOperationSchemas_ordinary (spec : OpenAPISpec) :
  pushesOnly (ordinary "Schema & Types") (SE.checkOperationSchemas spec).
Proof. unfold SE.checkOperationSchemas. pushes_only. Qed.

Lemma documentationIssues_ordinary (p : string) (item : PathItem) (m : Method) (i : Issue) :
  In m SE.methods -> In i (documentationIssues p item m) ->
  ordinary "Descriptions & Documentation" i.
Proof.
  intro Hm. unfold documentationIssues. destruct (getOp item m) as [op|]; [|intros []].
  rewrite in_app_iff, in_map_iff. intros [H|(q & <- & _)]; [|ordinary_issue].
  destruct (undocumented op); [|destruct H]. destruct H as [<-|[]]. ordinary_issue.
Qed.

Lemma checkPathNaming_ordinary (ps : Paths) :
  pushesOnly (ordinary "Paths & Operations") (SE.checkPathNaming ps).
Proof. unfold SE.checkPathNaming. pushes_only. Qed.

Lemma checkCrudConsistency_ordinary (ps : Paths) :
  pushesOnly (ordinary "Paths & Operations") (SE.checkCrudConsistency ps).
Proof.
  unfold SE.checkCrudConsistency. cbv zeta. apply pushesOnly_forEach.
  intros [resource resourcePaths] _.
  destruct resourcePaths as [|p [|q rest]]; pushes_only.
Qed.

Lemma overlapLoop_ordinary (keys : list string) :
  pushesOnly (ordinary "Paths & Operations") (SE.overlapLoop keys).
Proof. induction keys; simpl; pushes_only. assumption. Qed.

Lemma checkMethodSpecificResponses_ordinary (p : string) (m : Method) (op : Operation) :
  In m SE.methods ->
  pushesOnly (ordinary "Response Codes") (SE.checkMethodSpecificResponses p m op).
Proof. intro Hm. unfold SE.checkMethodSpecificResponses. destruct m; pushes_only. Qed.

Lemma checkOperationResponses_ordinary (p : string) (item : PathItem) :
  pushesOnly (ordinary "Response Codes") (SE.checkOperationResponses p item).
Proof.
  unfold SE.checkOperationResponses. pushes_only.
  now apply checkMethodSpecificResponses_ordinary.
Qed.

Lemma checkExamples_ordinary (p : string) (item : PathItem) :
  pushesOnly (ordinary "Examples & Samples") (SE.checkExamples p item).
Proof.
  unfold SE.checkExamples. apply pushesOnly_forEach. intros m Hm.
  destruct (getOp item m) as [op|]; [|pushes_only].
  cbv zeta. apply pushesOnly_when. apply pushesOnly_push. ordinary_issue.
Qed.

Lemma checkOperationSecurity_ordinary (spec : OpenAPISpec) :
  pushesOnly (ordinary "Security") (SE.checkOperationSecurity spec).
Proof. unfold SE.checkOperationSecurity. pushes_only. Qed.

Lemma checkTagsUsage_ordinary (spec : OpenAPISpec) :
  pushesOnly (ordinary "Best Practices") (SE.checkTagsUsage spec).
Proof.
  unfold SE.checkTagsUsage. destruct (paths spec); [|pushes_only].
  cbv zeta. apply pushesOnly_andThen;
    [|apply pushesOnly_when, pushesOnly_push; ordinary_issue].
  apply pushesOnly_forEach. intros.
  apply pushesOnly_when, pushesOnly_push. ordinary_issue.
Qed.

Lemma checkComponentReuse_ordinary (spec : OpenAPISpec) :
  pushesOnly (ordinary "Best Practices") (SE.checkComponentReuse spec).
Proof. unfold SE.checkComponentReuse. pushes_only. Qed.

(** The issue lists of the seven evaluators. *)
Lemma scoreSchemaTypes_ordinary (this : Weights) (spec : OpenAPISpec) :
  r_criterion (SE.scoreSchemaTypes this spec) = "Schema & Types" /\
  Forall (ordinary "Schema & Types") (issues (SE.scoreSchemaTypes this spec)).
Proof.
  split; [reflexivity|]. unfold SE.scoreSchemaTypes. cbv zeta. simpl issues.
  apply checkOperationSchemas_ordinary.
  assert (pushesOnly (ordinary "Schema & Types")
            (when (negb (nonEmptyArr (SE.componentSchemas spec)))
               (push {| path := "/components/schemas";
                        operation := None;
                        location := "components";
                        description := "No reusable schemas defined in components";
                        severity := medium;
                        suggestion := "Define reusable schemas in components/schemas to promote consistency";
                        criterion := "Schema & Types" |}))) as H0 by pushes_only.
  destruct (SE.componentSchemas spec) as [entries|]; [|apply H0; constructor].
  apply pushesOnly_forEach; [|apply H0; constructor].
  intros [n s] _. apply validateSchemaTypes_ordinary.
Qed.

Lemma scoreDocumentation_ordinary (this : Weights) (spec : OpenAPISpec) (r : ScoreResult) :
  SE.scoreDocumentation this spec = Ok r ->
  r_criterion r = "Descriptions & Documentation" /\
  Forall (ordinary "Descriptions & Documentation") (issues r).
Proof.
  unfold SE.scoreDocumentation. cbv zeta.
  destruct (info spec) as [i|]; [|discriminate].
  rewrite documentation_loop.
  destruct (allParametersAreObjects spec); [|discriminate].
  cbn [bind]. intros [= <-].
  split; [reflexivity|]. simpl issues. apply Forall_app. split.
  - apply pushesOnly_when; [|constructor]. apply pushesOnly_push. ordinary_issue.
  - apply Forall_forall. intros i0 Hi0. unfold pathDocumentationIssues in Hi0.
    destruct (paths spec) as [ps|]; [|destruct Hi0].
    apply in_flat_map in Hi0. destruct Hi0 as ([p item] & _ & Hi0).
    apply in_flat_map in Hi0. destruct Hi0 as (m & Hm & Hi0).
    exact (documentationIssues_ordinary _ _ m i0 Hm Hi0).
Qed.

Lemma scorePathsOperations_ordinary (this : Weights) (spec : OpenAPISpec) :
  r_criterion (SE.scorePathsOperations this spec) = "Paths & Operations" /\
  match paths spec with
  | Some _ => Forall (ordinary "Paths & Operations")
                     (issues (SE.scorePathsOperations this spec))
  | None => issues (SE.scorePathsOperations this spec) = [noPathsIssue]
  end.
Proof.
  unfold SE.scorePathsOperations. cbv zeta.
  destruct (paths spec) as [ps|]; (split; [reflexivity|]); [|reflexivity].
  simpl issues. apply overlapLoop_ordinary.
  apply checkCrudConsistency_ordinary. apply checkPathNaming_ordinary. constructor.
Qed.

Lemma scoreResponseCodes_ordinary (this : Weights) (spec : OpenAPISpec) :
  r_criterion (SE.scoreResponseCodes this spec) = "Response Codes" /\
  Forall (ordinary "Response Codes") (issues (SE.scoreResponseCodes this spec)).
Proof.
  split; [reflexivity|]. unfold SE.scoreResponseCodes. cbv zeta. simpl issues.
  destruct (paths spec) as [ps|]; [|constructor].
  apply pushesOnly_forEach; [|constructor].
  intros [p item] _. apply checkOperationResponses_ordinary.
Qed.

Lemma scoreExamples_ordinary (this : Weights) (spec : OpenAPISpec) :
  r_criterion (SE.scoreExamples this spec) = "Examples & Samples" /\
  Forall (ordinary "Examples & Samples") (issues (SE.scoreExamples this spec)).
Proof.
  split; [reflexivity|]. unfold SE.scoreExamples. cbv zeta. simpl issues.
  destruct (paths spec) as [ps|]; [|constructor].
  apply pushesOnly_forEach; [|constructor].
  intros [p item] _. apply checkExamples_ordinary.
Qed.

Lemma scoreSecurity_ordinary (this : Weights) (spec : OpenAPISpec) :
  r_criterion (SE.scoreSecurity this spec) = "Security" /\
  Forall (ordinary "Security") (issues (SE.scoreSecurity this spec)).
Proof.
  split; [reflexivity|]. unfold SE.scoreSecurity. cbv zeta. simpl issues.
  match goal with
  | |- Forall _ (if _ then _ ?arr else _) =>
      assert (Forall (ordinary "Security") arr) as H0
  end.
  { apply pushesOnly_when; [apply pushesOnly_push; ordinary_issue|].
    apply pushesOnly_when; [apply pushesOnly_push; ordinary_issue|constructor]. }
  destruct (present (paths spec)); [|exact H0].
  apply checkOperationSecurity_ordinary. exact H0.
Qed.

Lemma scoreBestPractices_ordinary (this : Weights) (spec : OpenAPISpec) (r : ScoreResult) :
  SE.scoreBestPractices this spec = Ok r ->
  r_criterion r = "Best Practices" /\ Forall (ordinary "Best Practices") (issues r).
Proof.
  unfold SE.scoreBestPractices. cbv zeta.
  destruct (info spec) as [i|]; [|discriminate]. intros [= <-].
  split; [reflexivity|]. simpl issues.
  apply checkComponentReuse_ordinary.
  match goal with
  | |- Forall _ (if _ then _ ?arr else _) =>
      assert (Forall (ordinary "Best Practices") arr) as H0
  end.
  { apply pushesOnly_when; [apply pushesOnly_push; ordinary_issue|].
    apply pushesOnly_when; [apply pushesOnly_push; ordinary_issue|constructor]. }
  destruct (present (paths spec)); [|exact H0].
  apply checkTagsUsage_ordinary. exact H0.
Qed.

(** Each result of a report carries the name of its criterion, and its
    issues are [ordinary] ones of that criterion, but for the one issue of
    a document without [paths]. *)
Lemma results_ordinary (this : Weights) (spec : OpenAPISpec) (now : string)
    (rep : ScoringReport) (r : ScoreResult) :
  SE.score this spec now = Ok rep ->
  In r (results rep) ->
  In (r_criterion r) criteriaNames /\
  (Forall (ordinary (r_criterion r)) (issues r)
   \/ (paths spec = None /\ r_criterion r = "Paths & Operations"
       /\ issues r = [noPathsIssue])).
Proof.
  intros H Hin.
  destruct (score_results _ _ _ _ H) as (doc & best & Hd & Hb & Hr).
  rewrite Hr in Hin. simpl in Hin.
  destruct Hin as [<-|[<-|[<-|[<-|[<-|[<-|[<-|[]]]]]]]].
  - destruct (scoreSchemaTypes_ordinary this spec) as [-> H0].
    split; [simpl; tauto|now left].
  - destruct (scoreDocumentation_ordinary _ _ _ Hd) as [-> H0].
    split; [simpl; tauto|now left].
  - destruct (scorePathsOperations_ordinary this spec) as [-> H0].
    split; [simpl; tauto|].
    destruct (paths spec); [now left|right; auto].
  - destruct (scoreResponseCodes_ordinary this spec) as [-> H0].
    split; [simpl; tauto|now left].
  - destruct (scoreExamples_ordinary this spec) as [-> H0].
    split; [simpl; tauto|now left].
  - destruct (scoreSecurity_ordinary this spec) as [-> H0].
    split; [simpl; tauto|now left].
  - destruct (scoreBestPractices_ordinary _ _ _ Hb) as [-> H0].
    split; [simpl; tauto|now left].
Qed.

(** X14: in every report each result is one of the seven criteria, every
    issue of a result carries the name of that criterion, and an issue
    names no operation or one under get, post, put, patch and delete:
    never one under options, head or trace. *)
Theorem issues_are_filed_under_their_criterion
    (this : Weights) (spec : OpenAPISpec) (now : string) (rep : ScoringReport)
    (r : ScoreResult) (i : Issue) :
  SE.score this spec now = Ok rep ->
  In r (results rep) ->
  In i (issues r) ->
  In (r_criterion r) criteriaNames /\
  criterion i = r_criterion r /\
  namesExaminedOperation i.
Proof.
  intros H Hr Hi.
  destruct (results_ordinary _ _ _ _ _ H Hr) as [Hn [Ho|(_ & Hc & Hl)]].
  - split; [exact Hn|]. rewrite Forall_forall in Ho.
    destruct (Ho i Hi) as (Hcr & _ & Hop). split; assumption.
  - split; [exact Hn|]. rewrite Hl in Hi. destruct Hi as [<-|[]].
    rewrite Hc. split; [reflexivity|now left].
Qed.

Lemma issues_filed_witness :
  exists rep r i,
    SE.score SE.defaultWeights bareSpec "2024-01-01T00:00:00.000Z" = Ok rep /\
    In r (results rep) /\ In i (issues r) /\
    r_criterion r = "Response Codes" /\
    criterion i = r_criterion r /\
    namesExaminedOperation i.
Proof.
  destruct (SE.score SE.defaultWeights bareSpec "2024-01-01T00:00:00.000Z")
    as [rep|e] eqn:E; [|discriminate E].
  assert (In (SE.scoreResponseCodes SE.defaultWeights bareSpec) (results rep)) as Hr.
  { destruct (score_results _ _ _ _ E) as (doc & best & _ & _ & ->).
    do 3 right. now left. }
  destruct (issues (SE.scoreResponseCodes SE.defaultWeights bareSpec)) as [|i l] eqn:Ei;
    [discriminate Ei|].
  assert (In i (issues (SE.scoreResponseCodes SE.defaultWeights bareSpec))) as Hi
    by (rewrite Ei; now left).
  exists rep, (SE.scoreResponseCodes SE.defaultWeights bareSpec), i.
  split; [reflexivity|]. split; [exact Hr|]. split; [exact Hi|].
  split; [reflexivity|].
  exact (proj2 (issues_are_filed_under_their_criterion _ _ _ _ _ _ E Hr Hi)).
Defined.

(** ** A validated document has no critical issue *)

Lemma valid_has_paths (spec : OpenAPISpec) :
  OpenAPILoader.isValid (OpenAPILoader.validate spec) = true ->
  exists ps, paths spec = Some ps.
Proof.
  rewrite validate_accepts_exactly_the_well_formed_eq.
  unfold pathsWellFormed. intro H.
  destruct (paths spec) as [ps|]; [now exists ps|].
  rewrite andb_false_r in H. discriminate H.
Qed.

Lemma countSeverity_critical_ordinary (l : list Issue) :
  Forall (fun i => exists name, ordinary name i) l ->
  SE.countSeverity critical l = 0%nat.
Proof.
  unfold SE.countSeverity. induction 1 as [|i l (name & _ & Hs & _) _ IH]; [reflexivity|].
  simpl. destruct (severity i); try exact IH. now contradiction Hs.
Qed.

(** X15: the report of a document the validator accepts counts no critical
    issue: the one critical issue of the engine is for a missing [paths],
    and the validator refuses such a document. *)
Theorem validated_document_has_no_critical_issue
    (this : Weights) (spec : OpenAPISpec) (now : string) (rep : ScoringReport) :
  OpenAPILoader.isValid (OpenAPILoader.validate spec) = true ->
  SE.score this spec now = Ok rep ->
  criticalIssues (summary rep) = 0%nat /\
  forall r i, In r (results rep) -> In i (issues r) -> severity i <> critical.
Proof.
  intros Hv H. destruct (valid_has_paths spec Hv) as [ps Hps].
  assert (forall r i, In r (results rep) -> In i (issues r) ->
                      ordinary (r_criterion r) i) as Hall.
  { intros r i Hr Hi.
    destruct (results_ordinary _ _ _ _ _ H Hr) as [_ [Ho|(Hn & _)]];
      [|congruence].
    rewrite Forall_forall in Ho. now apply Ho. }
  split.
  - destruct (score_counts _ _ _ _ H) as (_ & -> & _). simpl.
    apply countSeverity_critical_ordinary.
    apply Forall_forall. intros i Hi. apply in_flat_map in Hi.
    destruct Hi as (r & Hr & Hi). exists (r_criterion r). now apply Hall.
  - intros r i Hr Hi. exact (proj1 (proj2 (Hall r i Hr Hi))).
Qed.

Lemma no_critical_issue_witness :
  exists rep,
    SE.score SE.defaultWeights Samples.minimalSpec "2024-01-01T00:00:00.000Z" = Ok rep /\
    criticalIssues (summary rep) = 0%nat.
Proof.
  destruct (SE.score SE.defaultWeights Samples.minimalSpec "2024-01-01T00:00:00.000Z")
    as [rep|e] eqn:E; [|discriminate E].
  exists rep. split; [reflexivity|].
  apply (validated_document_has_no_critical_issue SE.defaultWeights Samples.minimalSpec
           "2024-01-01T00:00:00.000Z" rep); [reflexivity|exact E].
Defined.

(** ** Response Codes without an issue *)

Lemma flat_map_nil_inv {X Y : Type} (f : X -> list Y) (l : list X) :
  flat_map f l = [] -> forall x, In x l -> f x = [].
Proof.
  induction l as [|x l IH]; intros H y Hy; [destruct Hy|].
  simpl in H. apply app_eq_nil in H. destruct H as [Hx Hl].
  destruct Hy as [<-|Hy]; [exact Hx|now apply IH].
Qed.

Lemma in_examinedOperations (spec : OpenAPISpec) (p : string) (m : Method) (op : Operation) :
  In (p, m, op) (examinedOperations spec) <->
  exists ps item,
    paths spec = Some ps /\ In (p, item) ps /\ In m SE.methods /\ getOp item m = Some op.
Proof.
  unfold examinedOperations. destruct (paths spec) as [ps|].
  - rewrite in_flat_map. split.
    + intros ([p' item] & Hin & H). apply in_flat_map in H.
      destruct H as (m' & Hm & H). simpl in H.
      destruct (getOp item m') as [op'|] eqn:E; [|destruct H].
      destruct H as [[= -> -> ->]|[]]. exists ps, item. auto.
    + intros (ps' & item & [= <-] & Hin & Hm & E).
      exists (p, item). split; [exact Hin|]. apply in_flat_map.
      exists m. split; [exact Hm|]. simpl. rewrite E. now left.
  - split; [intros []|]. intros (ps & item & H & _). discriminate H.
Qed.

Lemma checkOperationResponses_silent_iff (p : string) (item : PathItem) :
  emitted (SE.checkOperationResponses p item) = [] <->
  forall m op, In m SE.methods -> getOp item m = Some op -> respondsWell m op.
Proof.
  unfold SE.checkOperationResponses.
  rewrite emitted_forEach.
  2:{ intros m _. destruct (getOp item m) as [op|]; [|append_only].
      destruct (op_responses op); append_only.
      apply EngineFacts.checkMethodSpecificResponses_appendOnly. }
  assert (forall m op, getOp item m = Some op ->
            (emitted
               match getOp item m with
               | Some operation =>
                   match op_responses operation with
                   | Some responses =>
                       let responseCodes := map fst responses in
                       let hasSuccess :=
                         existsb (fun code => startsWithChar "2" code || String.eqb code "default")
                                 responseCodes in
                       when (negb hasSuccess)
                         (push {| path := p;
                                  operation := Some (methodName m);
                                  location := "responses";
                                  description := "No success response (2xx) defined";
                                  severity := high;
                                  suggestion := "Define at least one 2xx success response";
                                  criterion := "Response Codes" |}) ;;
                       let hasClientError :=
                         existsb (fun code => startsWithChar "4" code) responseCodes in
                       let hasServerError :=
                         existsb (fun code => startsWithChar "5" code) responseCodes in
                       when (negb hasClientError && negb hasServerError)
                         (push {| path := p;
                                  operation := Some (methodName m);
                                  location := "responses";
                                  description := "No error responses (4xx/5xx) defined";
                                  severity := medium;
                                  suggestion := "Define appropriate error responses (400, 404, 500, etc.)";
                                  criterion := "Response Codes" |}) ;;
                       SE.checkMethodSpecificResponses p m operation
                   | None => skip
                   end
               | None => skip
               end = [] <-> respondsWell m op)) as Hm.
  { intros m op E. rewrite E. unfold respondsWell, definesSuccessAndError,
      followsMethodConvention, SE.checkMethodSpecificResponses.
    destruct (op_responses op) as [responses|]; [|split; [now left|reflexivity]].
    cbv zeta. unfold emitted, andThen.
    destruct (existsb (fun code => startsWithChar "2" code || String.eqb code "default")
                      (map fst responses));
      destruct (existsb (fun code => startsWithChar "4" code) (map fst responses));
      destruct (existsb (fun code => startsWithChar "5" code) (map fst responses));
      destruct m; simpl negb; simpl andb; simpl orb; simpl when; unfold skip, push;
      try destruct (includes (map fst responses) "201");
      try destruct (includes (map fst responses) "204");
      try destruct (includes (map fst responses) "200");
      simpl; (split; [intro H; try discriminate H; right; split; reflexivity
                     |intros [H|[H1 H2]]; try discriminate; reflexivity]). }
  split.
  - intros H m op Hin E. apply Hm; [exact E|].
    exact (flat_map_nil_inv _ _ H m Hin).
  - intro H. apply flat_map_nil. intros m Hin.
    destruct (getOp item m) as [op|] eqn:E; [|reflexivity].
    specialize (Hm m op E). rewrite E in Hm. apply Hm. now apply H.
Qed.

Lemma valid_examined_respond (spec : OpenAPISpec) (p : string) (m : Method) (op : Operation) :
  OpenAPILoader.isValid (OpenAPILoader.validate spec) = true ->
  In (p, m, op) (examinedOperations spec) ->
  op_responses op <> None.
Proof.
  rewrite validate_accepts_exactly_the_well_formed_eq. intros Hv He.
  apply in_examinedOperations in He. destruct He as (ps & item & Hps & Hin & Hm & E).
  apply andb_true_iff in Hv. destruct Hv as [Hv _].
  apply andb_true_iff in Hv. destruct Hv as [_ Hv].
  unfold pathsWellFormed in Hv. rewrite Hps in Hv.
  rewrite forallb_forall in Hv. specialize (Hv _ Hin). simpl in Hv.
  apply andb_true_iff in Hv. destruct Hv as [_ Hv].
  unfold operationsRespond in Hv. rewrite forallb_forall in Hv.
  assert (In m [GET; PUT; POST; DELETE; OPTIONS; HEAD; PATCH; TRACE]) as Hm8
    by (destruct m; simpl; tauto).
  specialize (Hv m Hm8). rewrite E in Hv.
  destruct (op_responses op); [discriminate|discriminate Hv].
Qed.

(** X16: Response Codes has no issue exactly when every operation under
    the five methods has no [responses] at all or has a 2xx or [default]
    code, a 4xx or 5xx code and, for a post or a delete, the code its
    method asks for. In a document the validator accepts the first case
    does not arise. *)
Theorem response_codes_silent_iff (this : Weights) (spec : OpenAPISpec) :
  (issues (SE.scoreResponseCodes this spec) = [] <->
   forall p m op, In (p, m, op) (examinedOperations spec) -> respondsWell m op) /\
  (OpenAPILoader.isValid (OpenAPILoader.validate spec) = true ->
   (issues (SE.scoreResponseCodes this spec) = [] <->
    forall p m op, In (p, m, op) (examinedOperations spec) ->
                   definesSuccessAndError m op = true
                   /\ followsMethodConvention m op = true)).
Proof.
  assert (issues (SE.scoreResponseCodes this spec) = [] <->
          forall p m op, In (p, m, op) (examinedOperations spec) -> respondsWell m op) as H.
  { unfold SE.scoreResponseCodes. cbv zeta. simpl issues.
    destruct (paths spec) as [ps|] eqn:Eps.
    - change (forEach ps (fun '(path, pathItem) => SE.checkOperationResponses path pathItem) [])
        with (emitted (forEach ps (fun '(path, pathItem) =>
                                     SE.checkOperationResponses path pathItem))).
      rewrite emitted_forEach
        by (intros [p item] _; apply EngineFacts.checkOperationResponses_appendOnly).
      split.
      + intros H p m op He. apply in_examinedOperations in He.
        destruct He as (ps' & item & Hps & Hin & Hm & E).
        rewrite Eps in Hps. injection Hps as <-.
        apply (flat_map_nil_inv _ _ H) in Hin.
        exact (proj1 (checkOperationResponses_silent_iff p item) Hin m op Hm E).
      + intro H. apply flat_map_nil. intros [p item] Hin.
        apply checkOperationResponses_silent_iff. intros m op Hm E.
        apply (H p). apply in_examinedOperations. exists ps, item. auto.
    - split; [|reflexivity]. intros _ p m op He.
      apply in_examinedOperations in He. destruct He as (ps & item & Hps & _).
      rewrite Eps in Hps. discriminate Hps. }
  split; [exact H|]. intro Hv. rewrite H. split.
  - intros Hall p m op He. destruct (Hall p m op He) as [Hn|Hok]; [|exact Hok].
    now apply (valid_examined_respond spec p m op Hv) in He.
  - intros Hall p m op He. right. now apply (Hall p).
Qed.

Lemma response_codes_silent_witness :
  issues (SE.scoreResponseCodes SE.defaultWeights properStatusCodes) = [] /\
  forall p m op, In (p, m, op) (examinedOperations properStatusCodes) ->
                 definesSuccessAndError m op = true /\ followsMethodConvention m op = true.
Proof.
  split; [reflexivity|].
  apply (proj2 (response_codes_silent_iff SE.defaultWeights properStatusCodes));
    reflexivity.
Defined.

(** ** Schema & Types without an issue *)

Lemma emitted_when_push_nil {T : Type} (b : bool) (x : T) :
  emitted (when b (push x)) = [] <-> b = false.
Proof. destruct b; simpl; split; intro H; try reflexivity; discriminate H. Qed.

Lemma emitted_andThen_nil {T : Type} (c1 c2 : Pusher T) :
  appendOnly c2 -> (emitted (c1 ;; c2) = [] <-> emitted c1 = [] /\ emitted c2 = []).
Proof.
  intro H2. rewrite emitted_andThen by exact H2. split.
  - apply app_eq_nil.
  - intros [-> ->]. reflexivity.
Qed.

Lemma emitted_forEach_nil {X T : Type} (xs : list X) (body : X -> Pusher T) :
  (forall x, In x xs -> appendOnly (body x)) ->
  (emitted (forEach xs body) = [] <-> forall x, In x xs -> emitted (body x) = []).
Proof.
  intro H. rewrite emitted_forEach by exact H. split.
  - apply flat_map_nil_inv.
  - apply flat_map_nil.
Qed.

Lemma hasSchemaReference_spec (o : option Body) :
  SE.hasSchemaReference o = true <-> exists b, o = Some b /\ carriesSchema b.
Proof.
  unfold SE.hasSchemaReference, carriesSchema. destruct o as [b|].
  - destruct (truthy (b_schema b)) eqn:Es.
    + split; [|reflexivity]. intros _. exists b. auto.
    + destruct (b_content b) as [content|] eqn:Ec.
      * rewrite existsb_exists. split.
        -- intros ([name [m|]] & Hin & Hm); [|discriminate Hm].
           exists b. split; [reflexivity|]. right. exists content, name, m. auto.
        -- intros (b' & [= <-] & [H|(content' & name & m & Hc & Hin & Hm)]);
             [congruence|].
           rewrite Ec in Hc. injection Hc as <-.
           exists (name, Some m). auto.
      * split; [discriminate|].
        intros (b' & [= <-] & [H|(content' & name & m & H & _)]); congruence.
  - split; [discriminate|]. intros (b & H & _). discriminate H.
Qed.

Lemma validateSchemaTypes_silent (n : string) (s : Schema) :
  emitted (SE.validateSchemaTypes n s) = [] <->
  discriminated s = true /\ bareObject s = false.
Proof.
  unfold SE.validateSchemaTypes. rewrite emitted_andThen_nil by append_only.
  rewrite !emitted_when_push_nil. fold (bareObject s).
  assert (negb (truthy (s_type s)) && negb (truthy (s_ref s))
          && negb (truthy (s_allOf s)) && negb (truthy (s_oneOf s))
          && negb (truthy (s_anyOf s)) = negb (discriminated s)) as ->
    by (unfold discriminated;
        destruct (truthy (s_type s)), (truthy (s_ref s)), (truthy (s_allOf s)),
          (truthy (s_oneOf s)), (truthy (s_anyOf s)); reflexivity).
  destruct (discriminated s); simpl; intuition congruence.
Qed.

Lemma lacksSchema_false (o : option Body) :
  present o && negb (SE.hasSchemaReference o) = false <->
  forall b, o = Some b -> carriesSchema b.
Proof.
  destruct o as [b|]; simpl present.
  - rewrite andb_true_l, negb_false_iff, hasSchemaReference_spec. split.
    + intros (b' & [= <-] & H) b0 [= <-]. exact H.
    + intro H. exists b. auto.
  - split; [intros _ b H; discriminate H|reflexivity].
Qed.

Lemma checkOperationSchemas_silent (spec : OpenAPISpec) :
  emitted (SE.checkOperationSchemas spec) = [] <->
  forall p m op, In (p, m, op) (examinedOperations spec) -> schemasDeclared op.
Proof.
  unfold SE.checkOperationSchemas. destruct (paths spec) as [ps|] eqn:Eps.
  - rewrite emitted_forEach_nil by (intros [p item] _; append_only).
    split.
    + intros H p m op He. apply in_examinedOperations in He.
      destruct He as (ps' & item & Hps & Hin & Hm & E).
      rewrite Eps in Hps. injection Hps as <-.
      specialize (H _ Hin). cbv beta iota in H.
      rewrite emitted_forEach_nil in H by (intros; append_only).
      specialize (H m Hm). rewrite E in H.
      rewrite emitted_andThen_nil in H by append_only.
      destruct H as [Hb Hr]. apply emitted_when_push_nil in Hb.
      split; [now apply lacksSchema_false|].
      intros responses code r Er Hin'. rewrite Er in Hr.
      rewrite emitted_forEach_nil in Hr by (intros; append_only).
      specialize (Hr _ Hin'). cbv beta iota in Hr.
      apply emitted_when_push_nil in Hr.
      exact (proj1 (lacksSchema_false (Some r)) Hr r eq_refl).
    + intros H [p item] Hin. cbv beta iota.
      apply emitted_forEach_nil; [intros; append_only|].
      intros m Hm. destruct (getOp item m) as [op|] eqn:E; [|reflexivity].
      assert (schemasDeclared op) as [Hb Hr].
      { apply (H p m). apply in_examinedOperations. exists ps, item. auto. }
      apply emitted_andThen_nil; [append_only|]. split.
      * apply emitted_when_push_nil. now apply lacksSchema_false.
      * destruct (op_responses op) as [responses|] eqn:Er; [|reflexivity].
        apply emitted_forEach_nil; [intros; append_only|].
        intros [code [r|]] Hin'; [|reflexivity]. cbv beta iota.
        apply emitted_when_push_nil. apply lacksSchema_false.
        intros b [= <-]. exact (Hr responses code r eq_refl Hin').
  - split; [|reflexivity]. intros _ p m op He.
    apply in_examinedOperations in He. destruct He as (ps & item & Hps & _).
    rewrite Eps in Hps. discriminate Hps.
Qed.

Lemma totalDeduction_medium (l : list Issue) :
  Forall (fun i => severity i = medium) l ->
  totalDeduction l = (2 * Z.of_nat (List.length l))%Z.
Proof.
  induction 1 as [|i l Hi _ IH]; [reflexivity|].
  simpl totalDeduction. rewrite Hi, IH. simpl penalty. simpl List.length. lia.
Qed.

Ltac medium_pushes := pushes_with ltac:(reflexivity).

Lemma scoreSchemaTypes_medium (this : Weights) (spec : OpenAPISpec) :
  Forall (fun i => severity i = medium) (issues (SE.scoreSchemaTypes this spec)).
Proof.
  unfold SE.scoreSchemaTypes. cbv zeta. simpl issues.
  assert (pushesOnly (fun i => severity i = medium) (SE.checkOperationSchemas spec)) as Hc
    by (unfold SE.checkOperationSchemas; medium_pushes).
  apply Hc.
  assert (Forall (fun i => severity i = medium)
            (when (negb (nonEmptyArr (SE.componentSchemas spec)))
               (push {| path := "/components/schemas";
                        operation := None;
                        location := "components";
                        description := "No reusable schemas defined in components";
                        severity := medium;
                        suggestion := "Define reusable schemas in components/schemas to promote consistency";
                        criterion := "Schema & Types" |}) [])) as H0
    by (apply pushesOnly_when; [apply pushesOnly_push; reflexivity|constructor]).
  destruct (SE.componentSchemas spec) as [entries|]; [|exact H0].
  apply pushesOnly_forEach; [|exact H0].
  intros [n s] _. unfold SE.validateSchemaTypes. medium_pushes.
Qed.

Lemma scoreSchemaTypes_silent_iff (this : Weights) (spec : OpenAPISpec) :
  issues (SE.scoreSchemaTypes this spec) = [] <->
  reusableSchemasSound spec /\
  forall p m op, In (p, m, op) (examinedOperations spec) -> schemasDeclared op.
Proof.
  rewrite <- checkOperationSchemas_silent.
  unfold SE.scoreSchemaTypes, reusableSchemasSound. cbv zeta. simpl issues.
  rewrite EngineFacts.checkOperationSchemas_appendOnly.
  fold (emitted (SE.checkOperationSchemas spec)).
  destruct (SE.componentSchemas spec) as [entries|].
  - rewrite (forEach_flat_map entries
               (fun '(schemaName, schema) => SE.validateSchemaTypes schemaName schema))
      by (intros [n s] _; apply EngineFacts.validateSchemaTypes_appendOnly).
    split.
    + intro H. apply app_eq_nil in H. destruct H as [H Hc].
      apply app_eq_nil in H. destruct H as [Hn Hs].
      split; [|exact Hc]. split.
      * destruct (nonEmptyArr (Some entries)); [reflexivity|discriminate Hn].
      * intros entries' n s [= <-] Hin.
        apply (validateSchemaTypes_silent n s).
        exact (flat_map_nil_inv _ _ Hs (n, s) Hin).
    + intros [[Hn Hs] Hc]. rewrite Hn, Hc. simpl.
      rewrite app_nil_r. apply flat_map_nil. intros [n s] Hin.
      apply validateSchemaTypes_silent. exact (Hs entries n s eq_refl Hin).
  - simpl. split.
    + intro H. discriminate H.
    + intros [[H _] _]. discriminate H.
Qed.

(** X17: Schema & Types has no issue exactly when there are reusable
    schemas, each with a type, reference or composition and no object
    without properties, and every operation under the five methods declares
    a schema for its request body and for each response. Every issue of the
    criterion is a medium one, so with a weight below 2^53 the score is the
    weight less the fixed 5 for missing schemas and less 2 for each issue. *)
Theorem schema_types_silent_iff (this : Weights) (spec : OpenAPISpec) :
  (issues (SE.scoreSchemaTypes this spec) = [] <->
   reusableSchemasSound spec /\
   forall p m op, In (p, m, op) (examinedOperations spec) -> schemasDeclared op) /\
  Forall (fun i => severity i = medium) (issues (SE.scoreSchemaTypes this spec)) /\
  (schemaTypes this < two53 ->
   score (SE.scoreSchemaTypes this spec)
   == Qmax 0 (schemaTypes this - inject_Z (fixedSchemaTypes spec)
              - 2 * inject_Z (Z.of_nat
                                (List.length (issues (SE.scoreSchemaTypes this spec)))))).
Proof.
  split; [apply scoreSchemaTypes_silent_iff|].
  split; [apply scoreSchemaTypes_medium|]. intros _.
  destruct (scoreSchemaTypes_formula this spec) as (_ & _ & _ & Hs).
  rewrite Hs. apply Q.max_compat; [reflexivity|].
  rewrite (totalDeduction_medium _ (scoreSchemaTypes_medium this spec)).
  rewrite inject_Z_mult. reflexivity.
Qed.

(** The minimal test document defines no reusable schema and its response
    declares none: two medium issues, and 20 - 5 - 4 = 11 points. *)
Lemma schema_types_witness :
  List.length (issues (SE.scoreSchemaTypes SE.defaultWeights Samples.minimalSpec)) = 2%nat /\
  score (SE.scoreSchemaTypes SE.defaultWeights Samples.minimalSpec) == 11.
Proof.
  destruct (schema_types_silent_iff SE.defaultWeights Samples.minimalSpec) as (_ & _ & Hs).
  split; [reflexivity|].
  rewrite (Hs ltac:(reflexivity)). reflexivity.
Defined.

(** ** Operations under options, head and trace *)

Lemma getOp_examined (item : PathItem) (m : Method) :
  In m SE.methods -> getOp (withoutUnexamined item) m = getOp item m.
Proof.
  intro H. destruct m; try reflexivity;
    exfalso; simpl in H; intuition discriminate.
Qed.

Lemma forEach_ext_in {X T : Type} (xs : list X) (body body' : X -> Pusher T) :
  (forall x, In x xs -> forall arr, body x arr = body' x arr) ->
  forall arr, forEach xs body arr = forEach xs body' arr.
Proof.
  unfold forEach. induction xs as [|x xs IH]; intros H arr; [reflexivity|].
  simpl. rewrite (H x) by now left. apply IH. intros y Hy. apply H. now right.
Qed.

Lemma forEach_mapped {X T : Type} (f : X -> X) (xs : list X) (body : X -> Pusher T) :
  (forall x arr, body (f x) arr = body x arr) ->
  forall arr, forEach (map f xs) body arr = forEach xs body arr.
Proof.
  intro H. unfold forEach. induction xs as [|x xs IH]; intro arr; [reflexivity|].
  simpl. rewrite H. apply IH.
Qed.

Lemma fold_left_ext_in {X S : Type} (f g : S -> X -> S) (xs : list X) :
  (forall x, In x xs -> forall a, f a x = g a x) ->
  forall a, fold_left f xs a = fold_left g xs a.
Proof.
  induction xs as [|x xs IH]; intros H a; [reflexivity|].
  simpl. rewrite (H x) by now left. apply IH. intros y Hy. apply H. now right.
Qed.

Lemma fold_left_mapped {X S : Type} (f : S -> X -> S) (h : X -> X) (xs : list X) :
  (forall x a, f a (h x) = f a x) ->
  forall a, fold_left f (map h xs) a = fold_left f xs a.
Proof.
  intro H. induction xs as [|x xs IH]; intro a; [reflexivity|].
  simpl. rewrite H. apply IH.
Qed.

Lemma keys_examined (ps : Paths) : map fst (map examinedEntry ps) = map fst ps.
Proof. rewrite map_map. reflexivity. Qed.

Lemma items_examined (ps : Paths) :
  map snd (map examinedEntry ps) = map withoutUnexamined (map snd ps).
Proof. now rewrite !map_map. Qed.

Ltac examined_methods :=
  apply forEach_ext_in;
  let m := fresh "m" in
  let Hm := fresh "Hm" in
  intros m Hm ?; rewrite (getOp_examined _ m Hm); reflexivity.

Lemma checkPathDocumentation_examined (p : string) (item : PathItem) (arr : list Issue) :
  SE.checkPathDocumentation p (withoutUnexamined item) arr
  = SE.checkPathDocumentation p item arr.
Proof. rewrite !EngineFacts.checkPathDocumentation_result. reflexivity. Qed.

Lemma forEachF_mapped {X T : Type} (f : X -> X) (xs : list X) (body : X -> Fallible T) :
  (forall x arr, body (f x) arr = body x arr) ->
  forall arr, forEachF (map f xs) body arr = forEachF xs body arr.
Proof.
  intro H. unfold forEachF. intro arr. generalize (Ok arr) as acc.
  induction xs as [|x xs IH]; intro acc; [reflexivity|].
  simpl. rewrite <- IH. f_equal. destruct acc as [arr'|e]; [apply H|reflexivity].
Qed.

Lemma checkOperationResponses_examined (p : string) (item : PathItem) (arr : list Issue) :
  SE.checkOperationResponses p (withoutUnexamined item) arr
  = SE.checkOperationResponses p item arr.
Proof. unfold SE.checkOperationResponses. examined_methods. Qed.

Lemma checkExamples_examined (p : string) (item : PathItem) (arr : list Issue) :
  SE.checkExamples p (withoutUnexamined item) arr = SE.checkExamples p item arr.
Proof. unfold SE.checkExamples. examined_methods. Qed.

Lemma checkOperationSchemas_examined (spec : OpenAPISpec) (arr : list Issue) :
  SE.checkOperationSchemas (examinedPart spec) arr = SE.checkOperationSchemas spec arr.
Proof.
  unfold SE.checkOperationSchemas. cbn [examinedPart paths].
  destruct (paths spec) as [ps|]; cbn [option_map]; [|reflexivity].
  apply forEach_mapped. intros [p item] arr'. cbn [examinedEntry fst snd].
  examined_methods.
Qed.

Lemma checkOperationSecurity_examined (spec : OpenAPISpec) (arr : list Issue) :
  SE.checkOperationSecurity (examinedPart spec) arr = SE.checkOperationSecurity spec arr.
Proof.
  unfold SE.checkOperationSecurity. cbn [examinedPart paths spec_security].
  destruct (paths spec) as [ps|]; cbn [option_map]; [|reflexivity].
  apply forEach_mapped. intros [p item] arr'. cbn [examinedEntry fst snd].
  examined_methods.
Qed.

Lemma getPath_examined (ps : Paths) (p : string) :
  SE.getPath (map examinedEntry ps) p = option_map withoutUnexamined (SE.getPath ps p).
Proof.
  unfold SE.getPath. induction ps as [|[k item] ps IH]; [reflexivity|].
  simpl. destruct (String.eqb k p); [reflexivity|exact IH].
Qed.

Lemma crudKeys_examined (item : PathItem) :
  filter (fun k => present (getOp (withoutUnexamined item) k)
                   || existsb (sameMethod k) (pi_nullish (withoutUnexamined item)))
         SE.methods
  = filter (fun k => present (getOp item k) || existsb (sameMethod k) (pi_nullish item))
           SE.methods.
Proof. reflexivity. Qed.

Lemma checkCrudConsistency_examined (ps : Paths) (arr : list Issue) :
  SE.checkCrudConsistency (map examinedEntry ps) arr = SE.checkCrudConsistency ps arr.
Proof.
  unfold SE.checkCrudConsistency. cbv zeta. rewrite keys_examined.
  apply forEach_ext_in. intros [r v] _ arr'.
  destruct v as [|p [|q v]]; try reflexivity.
  rewrite getPath_examined. destruct (SE.getPath ps p) as [item|]; [|reflexivity].
  cbn [option_map]. now rewrite crudKeys_examined.
Qed.

Lemma tagFolds_examined {S : Type} (step : S -> Operation -> S) (ps : Paths) (init : S) :
  fold_left (fun acc pathItem =>
               fold_left (fun acc method =>
                            match getOp pathItem method with
                            | Some operation => step acc operation
                            | None => acc
                            end) SE.methods acc)
            (map snd (map examinedEntry ps)) init
  = fold_left (fun acc pathItem =>
                 fold_left (fun acc method =>
                              match getOp pathItem method with
                              | Some operation => step acc operation
                              | None => acc
                              end) SE.methods acc)
              (map snd ps) init.
Proof.
  rewrite items_examined. apply fold_left_mapped. intros item a.
  apply fold_left_ext_in. intros m Hm a'. now rewrite (getOp_examined item m Hm).
Qed.

Lemma checkTagsUsage_examined (spec : OpenAPISpec) (arr : list Issue) :
  SE.checkTagsUsage (examinedPart spec) arr = SE.checkTagsUsage spec arr.
Proof.
  unfold SE.checkTagsUsage. cbn [examinedPart paths tags].
  destruct (paths spec) as [ps|]; cbn [option_map]; [|reflexivity].
  cbv zeta.
  rewrite (tagFolds_examined
             (fun usedTags operation =>
                match op_tags operation with
                | Some ts => fold_left SE.setAdd ts usedTags
                | None => usedTags
                end) ps []).
  rewrite (tagFolds_examined
             (fun count operation =>
                if negb (nonEmptyArr (op_tags operation)) then S count else count) ps O).
  reflexivity.
Qed.

Lemma scoreSchemaTypes_examined (this : Weights) (spec : OpenAPISpec) :
  SE.scoreSchemaTypes this (examinedPart spec) = SE.scoreSchemaTypes this spec.
Proof.
  unfold SE.scoreSchemaTypes, SE.componentSchemas. cbv zeta.
  cbn [examinedPart components]. rewrite !checkOperationSchemas_examined. reflexivity.
Qed.

Lemma scoreDocumentation_examined (this : Weights) (spec : OpenAPISpec) :
  SE.scoreDocumentation this (examinedPart spec) = SE.scoreDocumentation this spec.
Proof.
  unfold SE.scoreDocumentation. cbv zeta. cbn [examinedPart info paths].
  destruct (info spec) as [i|]; [|reflexivity].
  destruct (paths spec) as [ps|]; cbn [option_map]; [|reflexivity].
  rewrite !forEachF_mapped
    by (intros [p item] arr; apply checkPathDocumentation_examined).
  reflexivity.
Qed.

Lemma scorePathsOperations_examined (this : Weights) (spec : OpenAPISpec) :
  SE.scorePathsOperations this (examinedPart spec) = SE.scorePathsOperations this spec.
Proof.
  unfold SE.scorePathsOperations, SE.checkPathNaming, SE.checkOverlappingPaths.
  cbv zeta. cbn [examinedPart paths].
  destruct (paths spec) as [ps|]; cbn [option_map]; [|reflexivity].
  rewrite !keys_examined, !checkCrudConsistency_examined. reflexivity.
Qed.

Lemma scoreResponseCodes_examined (this : Weights) (spec : OpenAPISpec) :
  SE.scoreResponseCodes this (examinedPart spec) = SE.scoreResponseCodes this spec.
Proof.
  unfold SE.scoreResponseCodes. cbv zeta. cbn [examinedPart paths].
  destruct (paths spec) as [ps|]; cbn [option_map]; [|reflexivity].
  rewrite !forEach_mapped
    by (intros [p item] arr; apply checkOperationResponses_examined).
  reflexivity.
Qed.

Lemma scoreExamples_examined (this : Weights) (spec : OpenAPISpec) :
  SE.scoreExamples this (examinedPart spec) = SE.scoreExamples this spec.
Proof.
  unfold SE.scoreExamples. cbv zeta. cbn [examinedPart paths].
  destruct (paths spec) as [ps|]; cbn [option_map]; [|reflexivity].
  rewrite !forEach_mapped by (intros [p item] arr; apply checkExamples_examined).
  reflexivity.
Qed.

Lemma present_examined (spec : OpenAPISpec) :
  present (paths (examinedPart spec)) = present (paths spec).
Proof. cbn [examinedPart paths]. now destruct (paths spec). Qed.

Lemma scoreSecurity_examined (this : Weights) (spec : OpenAPISpec) :
  SE.scoreSecurity this (examinedPart spec) = SE.scoreSecurity this spec.
Proof.
  unfold SE.scoreSecurity, SE.componentSecuritySchemes. cbv zeta.
  rewrite !present_examined. cbn [examinedPart components spec_security].
  destruct (present (paths spec)); [|reflexivity].
  rewrite !checkOperationSecurity_examined. reflexivity.
Qed.

Lemma checkComponentReuse_examined (spec : OpenAPISpec) (arr : list Issue) :
  SE.checkComponentReuse (examinedPart spec) arr = SE.checkComponentReuse spec arr.
Proof. reflexivity. Qed.

Lemma scoreBestPractices_examined (this : Weights) (spec : OpenAPISpec) :
  SE.scoreBestPractices this (examinedPart spec) = SE.scoreBestPractices this spec.
Proof.
  unfold SE.scoreBestPractices. cbv zeta. rewrite !present_examined.
  cbn [examinedPart info servers].
  destruct (info spec) as [i|]; [|reflexivity].
  rewrite !checkComponentReuse_examined.
  destruct (present (paths spec)); [|reflexivity].
  rewrite !checkTagsUsage_examined. reflexivity.
Qed.

Lemma score_examined (this : Weights) (spec : OpenAPISpec) (now : string)
    (rep : ScoringReport) :
  SE.score this spec now = Ok rep ->
  exists rep0,
    SE.score this (examinedPart spec) now = Ok rep0 /\ sameButOperationCount rep rep0.
Proof.
  unfold SE.score. cbv zeta.
  rewrite scoreSchemaTypes_examined, scoreDocumentation_examined,
    scorePathsOperations_examined, scoreResponseCodes_examined, scoreExamples_examined,
    scoreSecurity_examined, scoreBestPractices_examined.
  destruct (SE.scoreDocumentation this spec) as [doc|]; [|discriminate].
  destruct (SE.scoreBestPractices this spec) as [best|]; [|discriminate].
  cbn [bind]. intros [= <-]. eexists. split; [reflexivity|].
  unfold sameButOperationCount.
  cbn [results overallScore grade report_maxScore totalIssues summary timestamp
       specInfo si_title si_version pathCount examinedPart info paths].
  repeat split. destruct (paths spec) as [ps|]; [|reflexivity].
  cbn [option_map]. now rewrite keys_examined.
Qed.

(** X18: two documents that differ only in their operations under
    options, head and trace get the same report but for the operation
    count: the same seven results with the same issues, the same overall
    score and grade. No evaluator reads those operations. *)
Theorem unexamined_operations_do_not_count
    (this : Weights) (spec spec' : OpenAPISpec) (now : string)
    (rep rep' : ScoringReport) :
  examinedPart spec = examinedPart spec' ->
  SE.score this spec now = Ok rep ->
  SE.score this spec' now = Ok rep' ->
  sameButOperationCount rep rep'.
Proof.
  intros He H H'.
  destruct (score_examined _ _ _ _ H) as (rep0 & H0 & Hs).
  destruct (score_examined _ _ _ _ H') as (rep0' & H0' & Hs').
  rewrite He, H0' in H0. injection H0 as ->.
  unfold sameButOperationCount in *.
  destruct Hs as (? & ? & ? & ? & ? & ? & ? & ? & ? & ?).
  destruct Hs' as (? & ? & ? & ? & ? & ? & ? & ? & ? & ?).
  repeat split; congruence.
Qed.

(** [bareSpec] has an operation under [options] besides its [get]: the two
    reports agree, and count 2 operations and 1. *)
Lemma unexamined_operations_witness :
  exists rep rep',
    SE.score SE.defaultWeights bareSpec "2024-01-01T00:00:00.000Z" = Ok rep /\
    SE.score SE.defaultWeights bareSpecGetOnly "2024-01-01T00:00:00.000Z" = Ok rep' /\
    sameButOperationCount rep rep' /\
    operationCount (specInfo rep) = 2%nat /\ operationCount (specInfo rep') = 1%nat.
Proof.
  destruct (SE.score SE.defaultWeights bareSpec "2024-01-01T00:00:00.000Z")
    as [rep|e] eqn:E; [|discriminate E].
  destruct (SE.score SE.defaultWeights bareSpecGetOnly "2024-01-01T00:00:00.000Z")
    as [rep'|e] eqn:E'; [|discriminate E'].
  exists rep, rep'. split; [reflexivity|]. split; [reflexivity|]. split.
  - apply (unexamined_operations_do_not_count SE.defaultWeights bareSpec bareSpecGetOnly
             "2024-01-01T00:00:00.000Z" rep rep'); [reflexivity|exact E|exact E'].
  - destruct (score_counts _ _ _ _ E) as (_ & _ & _ & -> & _).
    destruct (score_counts _ _ _ _ E') as (_ & _ & _ & -> & _).
    split; reflexivity.
Defined.

(** ** A document without operations *)




